(** * Jasper for ASR (pytorch/pytorchcv/models/jasper.py)

    A shallow embedding of the module classes of [jasper.py] and of the
    factory [get_jasper], followed by the properties of the length-aware
    masked convolution, the channel shuffle, the model assembly and the
    factory.

    Conventions.
    - Python [int] is [Z]; [//] and [%] are [Z.div] and [Z.modulo] (both round
      towards minus infinity for a non-zero divisor, like Python).
    - A [torch.long] tensor of lengths is a [list Z] whose arithmetic wraps
      around at 64 bits ([wrap64]).
    - Python [float] constants are binary64 values ([PrimFloat.float]).
    - Raising an exception is [Raise e] in the error monad [Res].
    - The tensor operations of the framework that the file calls are the
      fields of the class [TensorOps]; the module classes are written once,
      over any instance.  Two instances are given: tensors as their shapes
      ([shape_ops]) and tensors as row-major buffers of values
      ([value_ops]). *)

From Stdlib Require Import ZArith Lia Ascii String.
From Stdlib Require Import Floats.PrimFloat.
From Stdlib Require Import DecimalString DecimalPos DecimalN.
From stdpp Require Import base option list strings pretty.

#[local] Set Warnings "-inexact-float,-register-all".

(** ** Exceptions and the error monad *)

Inductive exn : Type :=
  | ValueError (msg : string)
  | ZeroDivisionError
  | IndexError
  | TypeError
  | AttributeError
  | OverflowError
  | RuntimeError.

Inductive Res (A : Type) : Type :=
  | Ok (a : A)
  | Raise (e : exn).
Arguments Ok {A} a.
Arguments Raise {A} e.

#[export] Instance Res_ret : MRet Res := λ A a, Ok a.
#[export] Instance Res_bind : MBind Res := λ A B f m,
  match m with Ok a => f a | Raise e => Raise e end.
#[export] Instance Res_fmap : FMap Res := λ A B f m,
  match m with Ok a => Ok (f a) | Raise e => Raise e end.

(** [o] when it is there, the exception [e] otherwise. *)
Definition or_raise {A} (e : exn) (o : option A) : Res A :=
  match o with Some a => Ok a | None => Raise e end.

(** ** 64-bit integers ([torch.long]) *)

Definition int64_min : Z := (- 2 ^ 63)%Z.
Definition int64_max : Z := (2 ^ 63 - 1)%Z.

Definition wrap64 (z : Z) : Z := ((z + 2 ^ 63) mod 2 ^ 64 - 2 ^ 63)%Z.

(** A Python scalar combined with a [torch.long] tensor is converted to
    int64; the framework refuses a value that does not fit. *)
Definition scalar64 (z : Z) : Res Z :=
  if bool_decide (int64_min ≤ z ≤ int64_max)%Z then Ok z else Raise RuntimeError.

(** Python sequence indexing [l[i]], negative indices counting from the end. *)
Definition py_index {A} (l : list A) (i : Z) : Res A :=
  let n := Z.of_nat (length l) in
  if bool_decide (0 ≤ i)%Z then or_raise IndexError (l !! Z.to_nat i)
  else if bool_decide (0 ≤ n + i)%Z then or_raise IndexError (l !! Z.to_nat (n + i))
  else Raise IndexError.

(** The slice [l[1:-2]]. *)
Definition slice_1_m2 {A} (l : list A) : list A :=
  take (length l - 2 - 1) (drop 1 l).

(** ** Framework layers (torch.nn) as plain records

    The constructors of the framework validate some of their arguments;
    these checks are part of what the constructors of the file do, since
    [MaskConv1d] derives from [nn.Conv1d] and the blocks build [nn.Dropout].
    A negative size makes the framework fail when it allocates the
    parameters; sizes are taken positive and this failure is left out.

    A module is built in training mode ([self.training = True]);
    [train(mode)] sets the mode of a module and of its children, [eval()] is
    [train(False)].  The mode is kept for the two layers whose forward pass
    reads it, [nn.BatchNorm1d] and [nn.Dropout]. *)

Module Conv1d.
(** [nn.Conv1d]: the hyper-parameters it stores ([kernel_size], [stride],
    [padding], [dilation] are 1-tuples in the framework, read with [[0]]). *)
Record t : Type := mk {
  in_channels : Z;
  out_channels : Z;
  kernel_size : Z;
  stride : Z;
  padding : Z;
  dilation : Z;
  groups : Z;
  bias : bool
}.

(** [nn.Conv1d.__init__]: the checks on [groups]. *)
Definition init (in_channels out_channels kernel_size stride padding dilation groups : Z)
    (bias : bool) : Res t :=
  if bool_decide (groups ≤ 0)%Z then
    Raise (ValueError "groups must be a positive integer")
  else if bool_decide (in_channels mod groups ≠ 0)%Z then
    Raise (ValueError "in_channels must be divisible by groups")
  else if bool_decide (out_channels mod groups ≠ 0)%Z then
    Raise (ValueError "out_channels must be divisible by groups")
  else Ok (mk in_channels out_channels kernel_size stride padding dilation groups bias).
End Conv1d.

Module BatchNorm1d.
Record t : Type := mk { num_features : Z; eps : float; training : bool }.

(** [nn.BatchNorm1d(num_features=, eps=)] *)
Definition init (num_features : Z) (eps : float) : t := mk num_features eps true.

Definition train (mode : bool) (self : t) : t := mk (num_features self) (eps self) mode.
End BatchNorm1d.

Module ReLU.
Record t : Type := mk { inplace : bool }.
End ReLU.

Module Dropout.
Record t : Type := mk { p : float; training : bool }.

(** The message of the framework goes on with the value of [p]. *)
Definition range_error : exn :=
  ValueError "dropout probability has to be between 0 and 1".

(** [nn.Dropout(p=)]: [if p < 0 or p > 1: raise ValueError(...)] *)
Definition init (p : float) : Res t :=
  if PrimFloat.ltb p 0%float || PrimFloat.ltb 1%float p then Raise range_error
  else Ok (mk p true).

Definition train (mode : bool) (self : t) : t := mk (p self) mode.
End Dropout.

(** [conv1d1]: 1-dim kernel version of the 1D convolution layer. *)
Definition conv1d1 (in_channels out_channels stride groups : Z) (bias : bool)
    : Res Conv1d.t :=
  Conv1d.init in_channels out_channels 1 stride 0 1 groups bias.

(** ** The length argument threaded next to the feature tensor

    [x_len] is a 1-D [torch.long] tensor ([LTensor]); in dense-residual mode
    the units thread the tuple [(x_len, y, y_len)] ([LTuple]); indexing a 1-D
    tensor gives a 0-dim tensor ([LScalar]). *)
Inductive len_arg (T : Type) : Type :=
  | LTensor (x_len : list Z)
  | LScalar (x_len : Z)
  | LTuple (x_len : list Z) (y : list T) (y_len : list (list Z)).
Arguments LTensor {T} x_len.
Arguments LScalar {T} x_len.
Arguments LTuple {T} x_len y y_len.

(** ** Tensor operations used by the file *)

Class TensorOps (T : Type) : Type := {
  (** [x.size()] *)
  size : T → list Z;
  (** [x.masked_fill(mask=mask.unsqueeze(1), value=0)] for a 2-D boolean [mask] *)
  masked_fill : T → list (list bool) → Res T;
  (** [F.conv1d(input=x, weight, bias, stride, padding, dilation, groups)]
      with the weight and bias of the layer *)
  F_conv1d : Conv1d.t → T → Res T;
  (** the forward passes of [nn.BatchNorm1d], [nn.ReLU] and [nn.Dropout] *)
  F_batch_norm : BatchNorm1d.t → T → Res T;
  F_relu : ReLU.t → T → T;
  F_dropout : Dropout.t → T → T;
  (** [x + y] *)
  t_add : T → T → Res T;
  (** [torch.stack(tuple(xs), dim=1).sum(dim=1)] *)
  stack_sum : list T → Res T;
  (** [x.view( *dims )] *)
  view : T → list Z → Res T;
  (** [torch.transpose(x, i, j).contiguous()] *)
  transpose_contiguous : T → nat → nat → Res T
}.

(** [x.size(i)] *)
Definition size_at `{TensorOps T} (x : T) (i : nat) : Res Z :=
  or_raise IndexError (size x !! i).

(** Reading an attribute that a constructor sets only under a flag. *)
Definition attr {A} (o : option A) : Res A := or_raise AttributeError o.

(** Python [a % b] and [a // b] on integers. *)
Definition py_mod (a b : Z) : Res Z :=
  if bool_decide (b = 0)%Z then Raise ZeroDivisionError else Ok (a mod b)%Z.
Definition py_floordiv (a b : Z) : Res Z :=
  if bool_decide (b = 0)%Z then Raise ZeroDivisionError else Ok (a / b)%Z.

(** [dropout_rate != 0.0] *)
Definition rate_nonzero (r : float) : bool := negb (PrimFloat.eqb r 0%float).

(** An activation argument: [None] or a function that builds the layer,
    here always [(lambda: nn.ReLU(inplace=True))]. *)
Definition activation_t : Type := option (unit → ReLU.t).
Definition relu_inplace : activation_t := Some (λ _, ReLU.mk true).

(** ** MaskConv1d *)

Module MaskConv1d.
(** Masked 1D convolution: an [nn.Conv1d] with the flag [use_mask]. *)
Record t : Type := mk { conv : Conv1d.t; use_mask : bool }.

(** [super(MaskConv1d, self).__init__(...)] is the constructor of [nn.Conv1d]. *)
Definition init (in_channels out_channels kernel_size stride padding dilation groups : Z)
    (bias use_mask : bool) : Res t :=
  c ← Conv1d.init in_channels out_channels kernel_size stride padding dilation groups bias;
  Ok (mk c use_mask).

(** [x_len.to(dtype=torch.long)] *)
Definition to_long {T} (x_len : len_arg T) : Res (len_arg T) :=
  match x_len with
  | LTuple _ _ _ => Raise AttributeError
  | _ => Ok x_len
  end.

(** [len(x_len)] and the rows of [x_len.unsqueeze(1)] *)
Definition rows {T} (x_len : len_arg T) : Res (list Z) :=
  match x_len with
  | LTensor l => Ok l
  | _ => Raise TypeError
  end.

(** [torch.arange(max_len).expand(len(x_len), max_len) >= x_len.unsqueeze(1)] *)
Definition make_mask (max_len : Z) (x_len : list Z) : list (list bool) :=
  (λ l, (λ t, bool_decide (l ≤ t)%Z) <$> seqZ 0 max_len) <$> x_len.

(** [(x_len + 2 * padding - dilation * (kernel_size - 1) - 1) // stride + 1]
    on one entry of the int64 tensor. *)
Definition update_len (c : Conv1d.t) (l : Z) : Res Z :=
  a ← scalar64 (2 * Conv1d.padding c);
  b ← scalar64 (Conv1d.dilation c * (Conv1d.kernel_size c - 1));
  s ← scalar64 (Conv1d.stride c);
  let num := wrap64 (wrap64 (wrap64 (l + a) - b) - 1) in
  if bool_decide (s = 0)%Z then Raise RuntimeError
  else Ok (wrap64 (wrap64 (num / s) + 1)).

Definition forward `{TensorOps T} (self : t) (x : T) (x_len : len_arg T)
    : Res (T * len_arg T) :=
  '(x, x_len) ←
    (if use_mask self then
       x_len ← to_long x_len;
       max_len ← size_at x 2;
       ls ← rows x_len;
       x ← masked_fill x (make_mask max_len ls);
       ls ← mapM (update_len (conv self)) ls;
       Ok (x, LTensor ls)
     else Ok (x, x_len));
  x ← F_conv1d (conv self) x;
  Ok (x, x_len).
End MaskConv1d.

(** [mask_conv1d1]: masked 1-dim kernel version of the 1D convolution layer. *)
Definition mask_conv1d1 (in_channels out_channels stride groups : Z) (bias : bool)
    : Res MaskConv1d.t :=
  MaskConv1d.init in_channels out_channels 1 stride 0 1 groups bias true.

(** ** MaskConvBlock1d *)

Module MaskConvBlock1d.
(** Masked 1D convolution block with batch normalization, activation, and
    dropout. *)
Record t : Type := mk {
  activate : bool;
  use_bn : bool;
  use_dropout : bool;
  conv : MaskConv1d.t;
  bn : option BatchNorm1d.t;
  activ : option ReLU.t;
  dropout : option Dropout.t
}.

Definition init (in_channels out_channels kernel_size stride padding dilation groups : Z)
    (bias use_bn : bool) (bn_eps : float) (activation : activation_t)
    (dropout_rate : float) : Res t :=
  let activate := match activation with Some _ => true | None => false end in
  let use_dropout := rate_nonzero dropout_rate in
  conv ← MaskConv1d.init in_channels out_channels kernel_size stride padding dilation
            groups bias true;
  let bn := if use_bn then Some (BatchNorm1d.init out_channels bn_eps) else None in
  let activ := match activation with Some f => Some (f ()) | None => None end in
  dropout ← (if use_dropout then Some <$> Dropout.init dropout_rate else Ok None);
  Ok (mk activate use_bn use_dropout conv bn activ dropout).

Definition train (mode : bool) (self : t) : t :=
  mk (activate self) (use_bn self) (use_dropout self) (conv self)
     (BatchNorm1d.train mode <$> bn self) (activ self)
     (Dropout.train mode <$> dropout self).

Definition forward `{TensorOps T} (self : t) (x : T) (x_len : len_arg T)
    : Res (T * len_arg T) :=
  '(x, x_len) ← MaskConv1d.forward (conv self) x x_len;
  x ← (if use_bn self then b ← attr (bn self); F_batch_norm b x else Ok x);
  x ← (if activate self then a ← attr (activ self); Ok (F_relu a x) else Ok x);
  x ← (if use_dropout self then d ← attr (dropout self); Ok (F_dropout d x) else Ok x);
  Ok (x, x_len).
End MaskConvBlock1d.

(** [mask_conv1d1_block]: 1-dim kernel version of the masked 1D convolution
    block; the keyword arguments the file passes on are [bn_eps],
    [dropout_rate] and [activation]. *)
Definition mask_conv1d1_block (in_channels out_channels stride padding : Z)
    (bn_eps : float) (dropout_rate : float) (activation : activation_t)
    : Res MaskConvBlock1d.t :=
  MaskConvBlock1d.init in_channels out_channels 1 stride padding 1 1 false true bn_eps
    activation dropout_rate.

(** ** ChannelShuffle1d *)

Module ChannelShuffle1d.
Record t : Type := mk { groups : Z }.

Definition init (channels groups : Z) : Res t :=
  r ← py_mod channels groups;
  if bool_decide (r ≠ 0)%Z then Raise (ValueError "channels must be divisible by groups")
  else Ok (mk groups).

(** [batch, channels, seq_len = x.size()] *)
Definition unpack3 (sz : list Z) : Res (Z * Z * Z) :=
  match sz with
  | [a; b; c] => Ok (a, b, c)
  | _ :: _ :: _ :: _ :: _ => Raise (ValueError "too many values to unpack")
  | _ => Raise (ValueError "not enough values to unpack")
  end.

Definition forward `{TensorOps T} (self : t) (x : T) : Res T :=
  '(batch, channels, seq_len) ← unpack3 (size x);
  channels_per_group ← py_floordiv channels (groups self);
  x ← view x [batch; groups self; channels_per_group; seq_len];
  x ← transpose_contiguous x 1 2;
  view x [batch; channels; seq_len].
End ChannelShuffle1d.

(** ** DwsConvBlock1d *)

Module DwsConvBlock1d.
(** Depthwise version of the 1D standard convolution block with batch
    normalization, activation, dropout, and channel shuffle. *)
Record t : Type := mk {
  activate : bool;
  use_bn : bool;
  use_dropout : bool;
  use_channel_shuffle : bool;
  dw_conv : MaskConv1d.t;
  pw_conv : MaskConv1d.t;
  shuffle : option ChannelShuffle1d.t;
  bn : option BatchNorm1d.t;
  activ : option ReLU.t;
  dropout : option Dropout.t
}.

Definition init (in_channels out_channels kernel_size stride padding dilation groups : Z)
    (bias use_bn : bool) (bn_eps : float) (activation : activation_t)
    (dropout_rate : float) : Res t :=
  let activate := match activation with Some _ => true | None => false end in
  let use_dropout := rate_nonzero dropout_rate in
  let use_channel_shuffle := bool_decide (1 < groups)%Z in
  dw_conv ← MaskConv1d.init in_channels in_channels kernel_size stride padding dilation
              in_channels bias true;
  pw_conv ← mask_conv1d1 in_channels out_channels 1 groups bias;
  shuffle ← (if use_channel_shuffle
             then Some <$> ChannelShuffle1d.init out_channels groups
             else Ok None);
  let bn := if use_bn then Some (BatchNorm1d.init out_channels bn_eps) else None in
  let activ := match activation with Some f => Some (f ()) | None => None end in
  dropout ← (if use_dropout then Some <$> Dropout.init dropout_rate else Ok None);
  Ok (mk activate use_bn use_dropout use_channel_shuffle dw_conv pw_conv shuffle
        bn activ dropout).

Definition train (mode : bool) (self : t) : t :=
  mk (activate self) (use_bn self) (use_dropout self) (use_channel_shuffle self)
     (dw_conv self) (pw_conv self) (shuffle self)
     (BatchNorm1d.train mode <$> bn self) (activ self)
     (Dropout.train mode <$> dropout self).

Definition forward `{TensorOps T} (self : t) (x : T) (x_len : len_arg T)
    : Res (T * len_arg T) :=
  '(x, x_len) ← MaskConv1d.forward (dw_conv self) x x_len;
  '(x, x_len) ← MaskConv1d.forward (pw_conv self) x x_len;
  x ← (if use_channel_shuffle self
       then s ← attr (shuffle self); ChannelShuffle1d.forward s x else Ok x);
  x ← (if use_bn self then b ← attr (bn self); F_batch_norm b x else Ok x);
  x ← (if activate self then a ← attr (activ self); Ok (F_relu a x) else Ok x);
  x ← (if use_dropout self then d ← attr (dropout self); Ok (F_dropout d x) else Ok x);
  Ok (x, x_len).
End DwsConvBlock1d.

(** The class chosen by [DwsConvBlock1d if use_dw else MaskConvBlock1d]. *)
Module Block.
Inductive t : Type :=
  | Mask (b : MaskConvBlock1d.t)
  | Dws (b : DwsConvBlock1d.t).

(** [block_class(in_channels=, out_channels=, kernel_size=, stride=,
    padding=, dilation=, bn_eps=, dropout_rate=, activation=)], the other
    parameters at their defaults ([groups=1], [bias=False], [use_bn=True]). *)
Definition init (use_dw : bool) (in_channels out_channels kernel_size stride padding
    dilation : Z) (bn_eps : float) (dropout_rate : float) (activation : activation_t)
    : Res t :=
  if use_dw then
    Dws <$> DwsConvBlock1d.init in_channels out_channels kernel_size stride padding
              dilation 1 false true bn_eps activation dropout_rate
  else
    Mask <$> MaskConvBlock1d.init in_channels out_channels kernel_size stride padding
               dilation 1 false true bn_eps activation dropout_rate.

Definition train (mode : bool) (self : t) : t :=
  match self with
  | Mask b => Mask (MaskConvBlock1d.train mode b)
  | Dws b => Dws (DwsConvBlock1d.train mode b)
  end.

Definition forward `{TensorOps T} (self : t) (x : T) (x_len : len_arg T)
    : Res (T * len_arg T) :=
  match self with
  | Mask b => MaskConvBlock1d.forward b x x_len
  | Dws b => DwsConvBlock1d.forward b x x_len
  end.
End Block.

(** ** Containers of [.common] *)

(** Modelled from the spec: [DualPathSequential] of [.common], which is not
    among the sources.  The spec has the components applied in order, "each
    component consuming and producing an updated (tensor, length) pair".
    A container is the ordered list of its named children. *)
Module DualPathSequential.
Definition t (M : Type) : Type := list (string * M).

Definition add_module {M} (self : t M) (name : string) (m : M) : t M :=
  self ++ [(name, m)].

Definition train {M} (train_child : bool → M → M) (mode : bool) (self : t M) : t M :=
  prod_map id (train_child mode) <$> self.

Fixpoint forward {M T} (fwd : M → T → len_arg T → Res (T * len_arg T))
    (self : t M) (x1 : T) (x2 : len_arg T) : Res (T * len_arg T) :=
  match self with
  | [] => Ok (x1, x2)
  | (_, m) :: rest => '(x1, x2) ← fwd m x1 x2; forward fwd rest x1 x2
  end.
End DualPathSequential.

(** Modelled from the spec: [DualPathParallelConcurent] of [.common], which is
    not among the sources.  The spec has the accumulated (tensor, length)
    pairs "each independently projected via its own 1x1 block"; the results
    are returned as two lists. *)
Module DualPathParallelConcurent.
Definition t (M : Type) : Type := list (string * M).

Definition add_module {M} (self : t M) (name : string) (m : M) : t M :=
  self ++ [(name, m)].

Definition train {M} (train_child : bool → M → M) (mode : bool) (self : t M) : t M :=
  prod_map id (train_child mode) <$> self.

Fixpoint forward {M T} (fwd : M → T → len_arg T → Res (T * len_arg T))
    (self : t M) (x1 : list T) (x2 : list (list Z))
    : Res (list T * list (len_arg T)) :=
  match self, x1, x2 with
  | (_, m) :: rest, x1i :: x1, x2i :: x2 =>
      '(y1i, y2i) ← fwd m x1i (LTensor x2i);
      '(y1, y2) ← forward fwd rest x1 x2;
      Ok (y1i :: y1, y2i :: y2)
  | _, _, _ => Ok ([], [])
  end.
End DualPathParallelConcurent.

(** ["block{}".format(i + 1)] and ["unit{}".format(i + 1)] *)
Definition numbered (prefix : string) (i : Z) : string := prefix +:+ pretty (i + 1)%Z.

(** ** JasperUnit *)

Module JasperUnit.
(** [in_channels : int or list of int] *)
Inductive channels_arg : Type :=
  | ChInt (c : Z)
  | ChList (cs : list Z).

Inductive identity_t : Type :=
  | IdPlain (b : MaskConvBlock1d.t)
  | IdDense (bs : DualPathParallelConcurent.t MaskConvBlock1d.t).

(** Jasper unit with residual connection. *)
Record t : Type := mk {
  use_dropout : bool;
  use_dr : bool;
  identity_block : identity_t;
  body : DualPathSequential.t Block.t;
  activ : ReLU.t;
  dropout : option Dropout.t
}.

(** [for i, dense_in_channels_i in enumerate(in_channels): add_module(...)] *)
Fixpoint dense_identity_loop (i : Z) (cs : list Z) (out_channels : Z) (bn_eps : float)
    (blk : DualPathParallelConcurent.t MaskConvBlock1d.t)
    : Res (DualPathParallelConcurent.t MaskConvBlock1d.t) :=
  match cs with
  | [] => Ok blk
  | dense_in_channels_i :: cs =>
      b ← mask_conv1d1_block dense_in_channels_i out_channels 1 0 bn_eps 0 None;
      dense_identity_loop (i + 1) cs out_channels bn_eps
        (DualPathParallelConcurent.add_module blk (numbered "block" i) b)
  end.

Definition dense_identity (cs : list Z) (out_channels : Z) (bn_eps : float)
    : Res (DualPathParallelConcurent.t MaskConvBlock1d.t) :=
  dense_identity_loop 0 cs out_channels bn_eps [].

(** [for i in range(repeat): self.body.add_module(...); in_channels = out_channels] *)
Fixpoint body_loop (use_dw : bool) (idxs : list Z) (repeat : Z)
    (in_channels out_channels kernel_size : Z) (bn_eps dropout_rate : float)
    (body : DualPathSequential.t Block.t) : Res (DualPathSequential.t Block.t) :=
  match idxs with
  | [] => Ok body
  | i :: idxs =>
      let activation := if bool_decide (i < repeat - 1)%Z then relu_inplace else None in
      let dropout_rate_i := if bool_decide (i < repeat - 1)%Z then dropout_rate else 0%float in
      b ← Block.init use_dw in_channels out_channels kernel_size 1 (kernel_size / 2) 1
            bn_eps dropout_rate_i activation;
      body_loop use_dw idxs repeat out_channels out_channels kernel_size bn_eps dropout_rate
        (DualPathSequential.add_module body (numbered "block" i) b)
  end.

Definition init (in_channels : channels_arg) (out_channels kernel_size : Z)
    (bn_eps dropout_rate : float) (repeat : Z) (use_dw use_dr : bool) : Res t :=
  let use_dropout := rate_nonzero dropout_rate in
  '(identity_block, in_channels) ←
    (if use_dr then
       match in_channels with
       | ChList cs =>
           bs ← dense_identity cs out_channels bn_eps;
           c ← py_index cs (-1);
           Ok (IdDense bs, c)
       | ChInt _ => Raise TypeError
       end
     else
       match in_channels with
       | ChInt c =>
           b ← mask_conv1d1_block c out_channels 1 0 bn_eps 0 None;
           Ok (IdPlain b, c)
       | ChList _ => Raise TypeError
       end);
  body ← body_loop use_dw (seqZ 0 repeat) repeat in_channels out_channels kernel_size
           bn_eps dropout_rate [];
  dropout ← (if use_dropout then Some <$> Dropout.init dropout_rate else Ok None);
  Ok (mk use_dropout use_dr identity_block body (ReLU.mk true) dropout).

Definition train (mode : bool) (self : t) : t :=
  mk (use_dropout self) (use_dr self)
     (match identity_block self with
      | IdPlain b => IdPlain (MaskConvBlock1d.train mode b)
      | IdDense bs => IdDense (DualPathParallelConcurent.train MaskConvBlock1d.train mode bs)
      end)
     (DualPathSequential.train Block.train mode (body self))
     (activ self)
     (Dropout.train mode <$> dropout self).

Definition forward `{TensorOps T} (self : t) (x : T) (x_len : len_arg T)
    : Res (T * len_arg T) :=
  if use_dr self then
    (* x_len, y, y_len = x_len if type(x_len) is tuple else (x_len, None, None) *)
    '(x_len, y, y_len) ←
      match x_len with
      | LTuple l y y_len => Ok (l, Some y, Some y_len)
      | LTensor l => Ok (l, None, None)
      | LScalar _ => Raise TypeError
      end;
    let y := match y with None => [x] | Some y => y ++ [x] end in
    let y_len := match y_len with None => [x_len] | Some y_len => y_len ++ [x_len] end in
    bs ← match identity_block self with
         | IdDense bs => Ok bs
         | IdPlain _ => Raise TypeError
         end;
    '(identity, _) ← DualPathParallelConcurent.forward MaskConvBlock1d.forward bs y y_len;
    identity ← stack_sum identity;
    '(x, x_len) ← DualPathSequential.forward Block.forward (body self) x (LTensor x_len);
    x ← t_add x identity;
    let x := F_relu (activ self) x in
    x ← (if use_dropout self then d ← attr (dropout self); Ok (F_dropout d x) else Ok x);
    match x_len with
    | LTensor l => Ok (x, LTuple l y y_len)
    | _ => Raise TypeError
    end
  else
    b ← match identity_block self with
        | IdPlain b => Ok b
        | IdDense _ => Raise TypeError
        end;
    '(identity, _) ← MaskConvBlock1d.forward b x x_len;
    '(x, x_len) ← DualPathSequential.forward Block.forward (body self) x x_len;
    x ← t_add x identity;
    let x := F_relu (activ self) x in
    x ← (if use_dropout self then d ← attr (dropout self); Ok (F_dropout d x) else Ok x);
    Ok (x, x_len).
End JasperUnit.

(** ** JasperFinalBlock *)

Module JasperFinalBlock.
(** Jasper specific final block. *)
Record t : Type := mk {
  use_dr : bool;
  conv1 : Block.t;
  conv2 : MaskConvBlock1d.t
}.

Definition init (in_channels : Z) (channels kernel_sizes : list Z) (bn_eps : float)
    (dropout_rates : list float) (use_dw use_dr : bool) : Res t :=
  c2 ← py_index channels (-2);
  k2 ← py_index kernel_sizes (-2);
  d2 ← py_index dropout_rates (-2);
  conv1 ← Block.init use_dw in_channels c2 k2 1 (2 * k2 / 2 - 1) 2 bn_eps d2 relu_inplace;
  c1 ← py_index channels (-1);
  k1 ← py_index kernel_sizes (-1);
  d1 ← py_index dropout_rates (-1);
  conv2 ← MaskConvBlock1d.init c2 c1 k1 1 (k1 / 2) 1 1 false true bn_eps relu_inplace d1;
  Ok (mk use_dr conv1 conv2).

Definition train (mode : bool) (self : t) : t :=
  mk (use_dr self) (Block.train mode (conv1 self)) (MaskConvBlock1d.train mode (conv2 self)).

(** [x_len[0]] *)
Definition getitem0 {T} (x_len : len_arg T) : Res (len_arg T) :=
  match x_len with
  | LTuple l _ _ => Ok (LTensor l)
  | LTensor l => LScalar <$> py_index l 0
  | LScalar _ => Raise IndexError
  end.

Definition forward `{TensorOps T} (self : t) (x : T) (x_len : len_arg T)
    : Res (T * len_arg T) :=
  x_len ← (if use_dr self then getitem0 x_len else Ok x_len);
  '(x, x_len) ← Block.forward (conv1 self) x x_len;
  '(x, x_len) ← MaskConvBlock1d.forward (conv2 self) x x_len;
  Ok (x, x_len).
End JasperFinalBlock.

(** ** Jasper *)

Module Jasper.
(** The children of [self.features]: the initial block, the units and the
    final block. *)
Inductive feature : Type :=
  | FBlock (b : Block.t)
  | FUnit (u : JasperUnit.t)
  | FFinal (f : JasperFinalBlock.t).

(** Jasper model. *)
Record t : Type := mk {
  in_size : option (Z * Z);
  num_classes : Z;
  features : DualPathSequential.t feature;
  output : Conv1d.t
}.

(** [for i, (out_channels, kernel_size, dropout_rate) in enumerate(zip(...))] *)
Fixpoint units_loop (use_dw use_dr : bool) (bn_eps : float) (repeat : Z) (i : Z)
    (stages : list (Z * Z * float)) (in_channels : Z) (in_channels_list : list Z)
    (features : DualPathSequential.t feature)
    : Res (DualPathSequential.t feature * Z) :=
  match stages with
  | [] => Ok (features, in_channels)
  | (out_channels, kernel_size, dropout_rate) :: stages =>
      let in_channels_list := in_channels_list ++ [in_channels] in
      u ← JasperUnit.init
            (if use_dr then JasperUnit.ChList in_channels_list
             else JasperUnit.ChInt in_channels)
            out_channels kernel_size bn_eps dropout_rate repeat use_dw use_dr;
      units_loop use_dw use_dr bn_eps repeat (i + 1) stages out_channels in_channels_list
        (DualPathSequential.add_module features (numbered "unit" i) (FUnit u))
  end.

Definition init (channels kernel_sizes : list Z) (bn_eps : float)
    (dropout_rates : list float) (repeat : Z) (use_dw use_dr : bool)
    (in_channels num_classes : Z) : Res t :=
  c0 ← py_index channels 0;
  k0 ← py_index kernel_sizes 0;
  d0 ← py_index dropout_rates 0;
  init_block ← Block.init use_dw in_channels c0 k0 2 (k0 / 2) 1 bn_eps d0 relu_inplace;
  let features := DualPathSequential.add_module [] "init_block" (FBlock init_block) in
  let in_channels := c0 in
  '(features, in_channels) ←
    units_loop use_dw use_dr bn_eps repeat 0
      (zip (zip (slice_1_m2 channels) (slice_1_m2 kernel_sizes)) (slice_1_m2 dropout_rates))
      in_channels [] features;
  final_block ← JasperFinalBlock.init in_channels channels kernel_sizes bn_eps
                  dropout_rates use_dw use_dr;
  let features := DualPathSequential.add_module features "final_block" (FFinal final_block) in
  in_channels ← py_index channels (-1);
  output ← conv1d1 in_channels num_classes 1 1 true;
  Ok (mk None num_classes features output).

Definition feature_train (mode : bool) (m : feature) : feature :=
  match m with
  | FBlock b => FBlock (Block.train mode b)
  | FUnit u => FUnit (JasperUnit.train mode u)
  | FFinal f => FFinal (JasperFinalBlock.train mode f)
  end.

(** [net.train(mode)] and [net.eval()] *)
Definition train (mode : bool) (self : t) : t :=
  mk (in_size self) (num_classes self)
     (DualPathSequential.train feature_train mode (features self)) (output self).
Definition eval (self : t) : t := train false self.

Definition feature_forward `{TensorOps T} (m : feature) (x : T) (x_len : len_arg T)
    : Res (T * len_arg T) :=
  match m with
  | FBlock b => Block.forward b x x_len
  | FUnit u => JasperUnit.forward u x x_len
  | FFinal f => JasperFinalBlock.forward f x x_len
  end.

Definition forward `{TensorOps T} (self : t) (x : T) (x_len : len_arg T)
    : Res (T * len_arg T) :=
  '(x, x_len) ← DualPathSequential.forward feature_forward (features self) x x_len;
  x ← F_conv1d (output self) x;
  Ok (x, x_len).
End Jasper.

(** ** The module tree and [nn.Module.named_modules] *)

(** The classes an object of the model can have, and [nn.Conv2d], the class
    that [_init_params] looks for. *)
Inductive cls : Type :=
  | C_Conv1d | C_Conv2d | C_MaskConv1d | C_BatchNorm1d | C_ReLU | C_Dropout
  | C_ChannelShuffle1d | C_MaskConvBlock1d | C_DwsConvBlock1d
  | C_DualPathSequential | C_DualPathParallelConcurent
  | C_JasperUnit | C_JasperFinalBlock | C_Jasper.

#[export] Instance cls_eq_dec : EqDecision cls.
Proof. solve_decision. Defined.

(** The direct base class inside this universe ([MaskConv1d(nn.Conv1d)]); the
    other classes derive from [nn.Module] or from framework classes outside it. *)
Definition base_class (c : cls) : option cls :=
  match c with
  | C_MaskConv1d => Some C_Conv1d
  | _ => None
  end.

Definition issubclass (c d : cls) : bool :=
  bool_decide (c = d) ||
  match base_class c with Some b => bool_decide (b = d) | None => false end.

(** A module object: its class, whether it has [weight] and [bias]
    parameters, and its named children in registration order. *)
Inductive nn_module : Type :=
  | NN (c : cls) (has_weight has_bias : bool) (children : list (string * nn_module)).

Definition class_of (m : nn_module) : cls := match m with NN c _ _ _ => c end.
Definition has_weight (m : nn_module) : bool := match m with NN _ w _ _ => w end.
Definition has_bias (m : nn_module) : bool := match m with NN _ _ b _ => b end.
Definition isinstance (m : nn_module) (c : cls) : bool := issubclass (class_of m) c.

(** [prefix + ("." if prefix else "") + name] *)
Definition sub_prefix (prefix name : string) : string :=
  match prefix with
  | EmptyString => name
  | _ => prefix +:+ "." +:+ name
  end.

Fixpoint named_modules (prefix : string) (m : nn_module) : list (string * nn_module) :=
  (prefix, m) ::
  match m with
  | NN _ _ _ children =>
      (fix go (ch : list (string * nn_module)) : list (string * nn_module) :=
         match ch with
         | [] => []
         | (name, c) :: ch => named_modules (sub_prefix prefix name) c ++ go ch
         end) children
  end.

Definition opt_child {A} (name : string) (f : A → nn_module) (o : option A)
    : list (string * nn_module) :=
  match o with Some a => [(name, f a)] | None => [] end.

Definition conv1d_module (c : Conv1d.t) : nn_module :=
  NN C_Conv1d true (Conv1d.bias c) [].
Definition mask_conv1d_module (c : MaskConv1d.t) : nn_module :=
  NN C_MaskConv1d true (Conv1d.bias (MaskConv1d.conv c)) [].
Definition batch_norm_module (b : BatchNorm1d.t) : nn_module := NN C_BatchNorm1d true true [].
Definition relu_module (a : ReLU.t) : nn_module := NN C_ReLU false false [].
Definition dropout_module (d : Dropout.t) : nn_module := NN C_Dropout false false [].
Definition shuffle_module (s : ChannelShuffle1d.t) : nn_module :=
  NN C_ChannelShuffle1d false false [].

Definition mask_block_module (b : MaskConvBlock1d.t) : nn_module :=
  NN C_MaskConvBlock1d false false
    ([("conv", mask_conv1d_module (MaskConvBlock1d.conv b))]
     ++ opt_child "bn" batch_norm_module (MaskConvBlock1d.bn b)
     ++ opt_child "activ" relu_module (MaskConvBlock1d.activ b)
     ++ opt_child "dropout" dropout_module (MaskConvBlock1d.dropout b)).

Definition dws_block_module (b : DwsConvBlock1d.t) : nn_module :=
  NN C_DwsConvBlock1d false false
    ([("dw_conv", mask_conv1d_module (DwsConvBlock1d.dw_conv b));
      ("pw_conv", mask_conv1d_module (DwsConvBlock1d.pw_conv b))]
     ++ opt_child "shuffle" shuffle_module (DwsConvBlock1d.shuffle b)
     ++ opt_child "bn" batch_norm_module (DwsConvBlock1d.bn b)
     ++ opt_child "activ" relu_module (DwsConvBlock1d.activ b)
     ++ opt_child "dropout" dropout_module (DwsConvBlock1d.dropout b)).

Definition block_module (b : Block.t) : nn_module :=
  match b with
  | Block.Mask b => mask_block_module b
  | Block.Dws b => dws_block_module b
  end.

Definition container_module {M} (c : cls) (f : M → nn_module) (l : list (string * M))
    : nn_module :=
  NN c false false (prod_map id f <$> l).

Definition unit_module (u : JasperUnit.t) : nn_module :=
  NN C_JasperUnit false false
    ([("identity_block",
       match JasperUnit.identity_block u with
       | JasperUnit.IdPlain b => mask_block_module b
       | JasperUnit.IdDense bs =>
           container_module C_DualPathParallelConcurent mask_block_module bs
       end);
      ("body", container_module C_DualPathSequential block_module (JasperUnit.body u));
      ("activ", relu_module (JasperUnit.activ u))]
     ++ opt_child "dropout" dropout_module (JasperUnit.dropout u)).

Definition final_block_module (f : JasperFinalBlock.t) : nn_module :=
  NN C_JasperFinalBlock false false
    [("conv1", block_module (JasperFinalBlock.conv1 f));
     ("conv2", mask_block_module (JasperFinalBlock.conv2 f))].

Definition feature_module (m : Jasper.feature) : nn_module :=
  match m with
  | Jasper.FBlock b => block_module b
  | Jasper.FUnit u => unit_module u
  | Jasper.FFinal f => final_block_module f
  end.

Definition jasper_module (net : Jasper.t) : nn_module :=
  NN C_Jasper false false
    [("features", container_module C_DualPathSequential feature_module (Jasper.features net));
     ("output", conv1d_module (Jasper.output net))].

(** ** _calc_width: the number of trainable parameters

    An [nn.Conv1d] has a weight of [out_channels * (in_channels // groups) *
    kernel_size] entries and, with [bias], a bias of [out_channels] entries;
    an [nn.BatchNorm1d] has a weight and a bias of [num_features] entries. *)

Definition conv1d_width (c : Conv1d.t) : Z :=
  (Conv1d.out_channels c * (Conv1d.in_channels c / Conv1d.groups c) * Conv1d.kernel_size c
   + (if Conv1d.bias c then Conv1d.out_channels c else 0))%Z.

Definition batch_norm_width (b : option BatchNorm1d.t) : Z :=
  match b with Some b => (2 * BatchNorm1d.num_features b)%Z | None => 0%Z end.

Definition sumZ (l : list Z) : Z := foldr Z.add 0%Z l.

Definition mask_block_width (b : MaskConvBlock1d.t) : Z :=
  (conv1d_width (MaskConv1d.conv (MaskConvBlock1d.conv b))
   + batch_norm_width (MaskConvBlock1d.bn b))%Z.

Definition dws_block_width (b : DwsConvBlock1d.t) : Z :=
  (conv1d_width (MaskConv1d.conv (DwsConvBlock1d.dw_conv b))
   + conv1d_width (MaskConv1d.conv (DwsConvBlock1d.pw_conv b))
   + batch_norm_width (DwsConvBlock1d.bn b))%Z.

Definition block_width (b : Block.t) : Z :=
  match b with
  | Block.Mask b => mask_block_width b
  | Block.Dws b => dws_block_width b
  end.

Definition unit_width (u : JasperUnit.t) : Z :=
  (match JasperUnit.identity_block u with
   | JasperUnit.IdPlain b => mask_block_width b
   | JasperUnit.IdDense bs => sumZ (mask_block_width ∘ snd <$> bs)
   end
   + sumZ (block_width ∘ snd <$> JasperUnit.body u))%Z.

Definition feature_width (m : Jasper.feature) : Z :=
  match m with
  | Jasper.FBlock b => block_width b
  | Jasper.FUnit u => unit_width u
  | Jasper.FFinal f =>
      (block_width (JasperFinalBlock.conv1 f) + mask_block_width (JasperFinalBlock.conv2 f))%Z
  end.

Definition _calc_width (net : Jasper.t) : Z :=
  (sumZ (feature_width ∘ snd <$> Jasper.features net) + conv1d_width (Jasper.output net))%Z.

(** ** Jasper._init_params

    The parameters live in a store keyed by their qualified names
    (["features.init_block.conv.weight"]); [kaiming_uniform_] draws from a
    random generator, [constant_] fills with a value. *)

Section InitParams.
Context {P G : Type}.
Variable kaiming_uniform_ : P → G → P * G.
Variable constant_ : P → Z → P.

Definition param_state : Type := list (string * P) * G.

(** In-place update of the parameter called [key]. *)
Definition update_param (key : string) (f : P → P) (ps : list (string * P))
    : list (string * P) :=
  (λ '(k, v), if bool_decide (k = key) then (k, f v) else (k, v)) <$> ps.

Definition lookup_param (key : string) (ps : list (string * P)) : option P :=
  (λ r, r.2.2) <$> list_find (λ kv, kv.1 = key) ps.

(** One iteration of the loop of [_init_params]. *)
Definition init_module (nm : string * nn_module) (st : param_state) : param_state :=
  let '(name, module) := nm in
  if isinstance module C_Conv2d then
    let '(ps, g) := st in
    let '(ps, g) :=
      match lookup_param (sub_prefix name "weight") ps with
      | Some w =>
          let '(w', g') := kaiming_uniform_ w g in
          (update_param (sub_prefix name "weight") (λ _, w') ps, g')
      | None => (ps, g)
      end in
    if has_bias module then
      (update_param (sub_prefix name "bias") (λ b, constant_ b 0) ps, g)
    else (ps, g)
  else st.

Definition _init_params (self : Jasper.t) (st : param_state) : param_state :=
  foldl (λ st nm, init_module nm st) st (named_modules "" (jasper_module self)).
End InitParams.

(** ** get_jasper *)

(** [str.split(sep)] for a one-character separator. *)
Fixpoint split_on (sep : ascii) (s : string) : list string :=
  match s with
  | EmptyString => [EmptyString]
  | String c s' =>
      if Ascii.eqb c sep then EmptyString :: split_on sep s'
      else match split_on sep s' with
           | h :: t => String c h :: t
           | [] => [String c EmptyString]
           end
  end.

Definition is_space (c : ascii) : bool :=
  let n := nat_of_ascii c in
  (Nat.leb 9 n && Nat.leb n 13) || (Nat.leb 28 n && Nat.leb n 32).

Definition is_digit (c : ascii) : bool :=
  let n := nat_of_ascii c in Nat.leb 48 n && Nat.leb n 57.

Fixpoint drop_spaces (l : list ascii) : list ascii :=
  match l with
  | c :: l' => if is_space c then drop_spaces l' else l
  | [] => []
  end.

(** Underscores are allowed between two digits only. *)
Fixpoint digits_ok (prev_digit : bool) (l : list ascii) : bool :=
  match l with
  | [] => prev_digit
  | c :: l' =>
      if is_digit c then digits_ok true l'
      else if Ascii.eqb c "_" then prev_digit && digits_ok false l'
      else false
  end.

Definition invalid_literal : exn := ValueError "invalid literal for int() with base 10".

(** [int(s)] for a [str] of ASCII characters: surrounding white space, an
    optional sign, decimal digits, single underscores between digits. *)
Definition py_int (s : string) : Res Z :=
  let l := reverse (drop_spaces (reverse (drop_spaces (list_ascii_of_string s)))) in
  let '(sign, l) :=
    match l with
    | "+"%char :: l' => (1%Z, l')
    | "-"%char :: l' => ((-1)%Z, l')
    | _ => (1%Z, l)
    end in
  if digits_ok false l then
    match NilZero.uint_of_string
            (string_of_list_ascii (filter (λ c, is_digit c = true) l)) with
    | Some u => Ok (sign * Z.of_N (N.of_uint u))%Z
    | None => Raise invalid_literal
    end
  else Raise invalid_literal.

(** [blocks, repeat = tuple(...)] *)
Definition unpack2 {A} (l : list A) : Res (A * A) :=
  match l with
  | [a; b] => Ok (a, b)
  | _ :: _ :: _ :: _ => Raise (ValueError "too many values to unpack")
  | _ => Raise (ValueError "not enough values to unpack")
  end.

Definition channels_per_stage : list Z := [256; 256; 384; 512; 640; 768; 896; 1024]%Z.
Definition kernel_sizes_per_stage : list Z := [11; 11; 13; 17; 21; 25; 29; 1]%Z.
Definition dropout_rates_per_stage : list float :=
  [0.2; 0.2; 0.2; 0.2; 0.3; 0.3; 0.4; 0.4]%float.

(** [stage_repeat = np.full((8,), 1); stage_repeat[1:-2] *= main_stage_repeat]:
    an int64 array multiplied in place by a Python integer, which has to fit. *)
Definition stage_repeat (main_stage_repeat : Z) : Res (list Z) :=
  if bool_decide (int64_min ≤ main_stage_repeat ≤ int64_max)%Z then
    Ok (imap (λ i r, if bool_decide (1 ≤ i < 8 - 2)%nat
                     then wrap64 (r * main_stage_repeat) else r)
          (replicate 8 1%Z))
  else Raise OverflowError.

(** [sum([[a] * r for (a, r) in zip(table, stage_repeat)], [])] *)
Definition expand {A} (table : list A) (stage_repeat : list Z) : list A :=
  mjoin (zip_with (λ a r, replicate (Z.to_nat r) a) table stage_repeat).

(** The arguments [get_jasper] computes for [Jasper(...)]. *)
Record jasper_args : Type := mk_args {
  a_channels : list Z;
  a_kernel_sizes : list Z;
  a_dropout_rates : list float;
  a_repeat : Z;
  a_use_dw : bool;
  a_use_dr : bool
}.

Definition get_jasper_args (version : string) : Res jasper_args :=
  '(blocks, repeat) ← mapM py_int (split_on "x" version) ≫= unpack2;
  let main_stage_repeat := (blocks / 5)%Z in
  stage_repeat ← stage_repeat main_stage_repeat;
  let channels := expand channels_per_stage stage_repeat in
  let kernel_sizes := expand kernel_sizes_per_stage stage_repeat in
  let dropout_rates := expand dropout_rates_per_stage stage_repeat in
  let use_dw := false in
  let use_dr := false in
  Ok (mk_args channels kernel_sizes dropout_rates repeat use_dw use_dr).

(** The keyword arguments passed on to [Jasper]. *)
Record kwargs : Type := mk_kwargs {
  kw_in_channels : option Z;
  kw_num_classes : option Z
}.

(** What the program does to the model store: one event per call of
    [download_model]. *)
Inductive event : Type :=
  | Download (model_name : string) (local_model_store_dir_path : string).

Section GetJasper.
(** [download_model] of [.model_store] is not among the sources: its outcome
    for a model name and a directory is a parameter. *)
Variable download_model : Jasper.t → string → string → Res Jasper.t.

(** [os.path.join("~", ".torch", "models")] *)
Definition default_root : string := "~/.torch/models".

Definition get_jasper (version : string) (bn_eps : float) (model_name : option string)
    (pretrained : bool) (root : string) (kw : kwargs) : Res Jasper.t * list event :=
  match
    a ← get_jasper_args version;
    Jasper.init (a_channels a) (a_kernel_sizes a) bn_eps (a_dropout_rates a) (a_repeat a)
      (a_use_dw a) (a_use_dr a)
      (default 64%Z (kw_in_channels kw)) (default 29%Z (kw_num_classes kw))
  with
  | Raise e => (Raise e, [])
  | Ok net =>
      if pretrained then
        match model_name with
        | None | Some EmptyString =>
            (Raise (ValueError
               "Parameter `model_name` should be properly initialized for loading pretrained model."),
             [])
        | Some name => (download_model net name root, [Download name root])
        end
      else (Ok net, [])
  end.

Definition jasper5x3 (pretrained : bool) (root : string) (kw : kwargs) :=
  get_jasper "5x3" 1e-3 (Some "jasper5x3") pretrained root kw.
Definition jasper10x4 (pretrained : bool) (root : string) (kw : kwargs) :=
  get_jasper "10x4" 1e-3 (Some "jasper10x4") pretrained root kw.
Definition jasper10x5 (pretrained : bool) (root : string) (kw : kwargs) :=
  get_jasper "10x5" 1e-3 (Some "jasper10x5") pretrained root kw.
End GetJasper.

(** ** Shapes: the rules of the framework for the sizes of results *)

Definition prodZ (dims : list Z) : Z := foldr Z.mul 1%Z dims.

(** [x.view( *dims )] on the sizes: the number of elements is kept; one
    dimension may be [-1] and is then inferred. *)
Definition view_shape (numel : Z) (dims : list Z) : Res (list Z) :=
  if forallb (λ d, bool_decide (0 ≤ d)%Z) dims then
    if bool_decide (prodZ dims = numel) then Ok dims else Raise RuntimeError
  else
    match filter (λ d, d < 0)%Z dims with
    | [(-1)%Z] =>
        let p := prodZ (filter (λ d, 0 ≤ d)%Z dims) in
        if bool_decide (p = 0)%Z then Raise RuntimeError
        else if bool_decide (numel mod p = 0)%Z
             then Ok ((λ d, if bool_decide (d < 0)%Z then numel / p else d)%Z <$> dims)
             else Raise RuntimeError
    | _ => Raise RuntimeError
    end.

(** Exchange of the entries [i] and [j] of a list. *)
Definition swap {A} (i j : nat) (l : list A) : list A :=
  match l !! i, l !! j with
  | Some a, Some b => <[i:=b]> (<[j:=a]> l)
  | _, _ => l
  end.

Definition transpose_shape {A} (i j : nat) (s : list A) : Res (list A) :=
  if bool_decide (i < length s ∧ j < length s)%nat then Ok (swap i j s)
  else Raise IndexError.

(** Broadcasting of two shapes, aligned at the last dimension. *)
Fixpoint broadcast_rev (a b : list Z) : Res (list Z) :=
  match a, b with
  | [], _ => Ok b
  | _, [] => Ok a
  | x :: a', y :: b' =>
      d ← (if bool_decide (x = y) then Ok x
           else if bool_decide (x = 1)%Z then Ok y
           else if bool_decide (y = 1)%Z then Ok x
           else Raise RuntimeError);
      r ← broadcast_rev a' b';
      Ok (d :: r)
  end.

Definition broadcast (a b : list Z) : Res (list Z) :=
  reverse <$> broadcast_rev (reverse a) (reverse b).

(** The mask of shape [(n, 1, m)] must broadcast to the 3-D shape it fills. *)
Definition mask_fits (s : list Z) (mask : list (list bool)) : bool :=
  match s with
  | [b; _; t] =>
      let n := Z.of_nat (length mask) in
      bool_decide (n = b ∨ n = 1)%Z &&
      forallb (λ row, let m := Z.of_nat (length row) in bool_decide (m = t ∨ m = 1)%Z) mask
  | _ => false
  end.

(** Size of the result of [F.conv1d] along the time axis:
    [floor((t + 2 * padding - dilation * (kernel_size - 1) - 1) / stride) + 1];
    the framework refuses a padded input shorter than the dilated kernel. *)
Definition conv1d_out_size (c : Conv1d.t) (t : Z) : Res Z :=
  let num := (t + 2 * Conv1d.padding c
              - Conv1d.dilation c * (Conv1d.kernel_size c - 1) - 1)%Z in
  if bool_decide (0 < Conv1d.stride c ∧ 0 ≤ Conv1d.padding c ∧ 0 < Conv1d.dilation c
                  ∧ 0 < Conv1d.kernel_size c ∧ 0 ≤ num)%Z
  then Ok (num / Conv1d.stride c + 1)%Z
  else Raise RuntimeError.

Definition conv1d_shape (c : Conv1d.t) (s : list Z) : Res (list Z) :=
  match s with
  | [b; ch; t] =>
      if bool_decide (ch = Conv1d.in_channels c)
      then t' ← conv1d_out_size c t; Ok [b; Conv1d.out_channels c; t']
      else Raise RuntimeError
  | [ch; t] =>
      if bool_decide (ch = Conv1d.in_channels c)
      then t' ← conv1d_out_size c t; Ok [Conv1d.out_channels c; t']
      else Raise RuntimeError
  | _ => Raise RuntimeError
  end.

(** The messages of the framework go on with the size of the input. *)
Definition batch_norm_training_error : exn :=
  ValueError "Expected more than 1 value per channel when training".
Definition batch_norm_dim_error : exn := ValueError "expected 2D or 3D input".

(** [nn.BatchNorm1d] keeps the shape of a 2-D or 3-D input whose channel
    count is [num_features].  In training mode it first refuses an input
    with a single value per channel: the product of the sizes other than the
    channels is 1. *)
Definition batch_norm_shape (b : BatchNorm1d.t) (s : list Z) : Res (list Z) :=
  let check (values_per_channel ch : Z) : Res (list Z) :=
    if BatchNorm1d.training b && bool_decide (values_per_channel = 1)%Z
    then Raise batch_norm_training_error
    else if bool_decide (ch = BatchNorm1d.num_features b) then Ok s
    else Raise RuntimeError in
  match s with
  | [n; ch] => check n ch
  | [n; ch; t] => check (n * t)%Z ch
  | _ => Raise batch_norm_dim_error
  end.

Definition stack_sum_shape (l : list (list Z)) : Res (list Z) :=
  match l with
  | (d :: s) :: rest =>
      if forallb (λ s', bool_decide (s' = d :: s)) rest then Ok (d :: s)
      else Raise RuntimeError
  | _ => Raise RuntimeError
  end.

#[export] Instance shape_ops : TensorOps (list Z) := {|
  size s := s;
  masked_fill s mask := if mask_fits s mask then Ok s else Raise RuntimeError;
  F_conv1d := conv1d_shape;
  F_batch_norm := batch_norm_shape;
  F_relu _ s := s;
  F_dropout _ s := s;
  t_add := broadcast;
  stack_sum := stack_sum_shape;
  view s dims := view_shape (prodZ s) dims;
  transpose_contiguous s i j := transpose_shape i j s
|}.

(** ** Values: tensors as contiguous row-major buffers *)

Module Tensor.
Record t (V : Type) : Type := mk { shape : list nat; data : list V }.
Arguments mk {V} shape data.
Arguments shape {V} _.
Arguments data {V} _.

Definition numel (s : list nat) : nat := foldr Nat.mul 1%nat s.

(** Offset of a multi-index in the buffer, and the multi-index of an offset. *)
Fixpoint ravel (s idx : list nat) : nat :=
  match s, idx with
  | _ :: s', i :: idx' => (i * numel s' + ravel s' idx')%nat
  | _, _ => 0%nat
  end.

Fixpoint unravel (s : list nat) (k : nat) : list nat :=
  match s with
  | [] => []
  | _ :: s' => (k / numel s')%nat :: unravel s' (k mod numel s')%nat
  end.

Definition wf {V} (x : t V) : Prop := length (data x) = numel (shape x).

(** [x[idx]] *)
Definition get {V} (x : t V) (idx : list nat) : option V :=
  if bool_decide (Forall2 lt idx (shape x)) then data x !! ravel (shape x) idx else None.
End Tensor.

Section ValueOps.
Context {V : Type}.
Variable zero : V.
(** The numerical kernels of the framework are parameters. *)
Variable conv1d_v : Conv1d.t → Tensor.t V → Res (Tensor.t V).
Variable batch_norm_v : BatchNorm1d.t → Tensor.t V → Res (Tensor.t V).
Variable relu_v : ReLU.t → Tensor.t V → Tensor.t V.
Variable dropout_v : Dropout.t → Tensor.t V → Tensor.t V.
Variable add_v : Tensor.t V → Tensor.t V → Res (Tensor.t V).
Variable stack_sum_v : list (Tensor.t V) → Res (Tensor.t V).

(** Entry [(b, 0, t)] of the mask of shape [(n, 1, m)], broadcast. *)
Definition mask_at (mask : list (list bool)) (b t : nat) : bool :=
  default false
    (row ← mask !! (if bool_decide (length mask = 1%nat) then 0%nat else b);
     row !! (if bool_decide (length row = 1%nat) then 0%nat else t)).

Definition masked_fill_v (x : Tensor.t V) (mask : list (list bool)) : Res (Tensor.t V) :=
  if mask_fits (Z.of_nat <$> Tensor.shape x) mask then
    match Tensor.shape x with
    | [_; c; t] =>
        Ok (Tensor.mk (Tensor.shape x)
              (imap (λ k v, if mask_at mask (k / (c * t)) (k mod t) then zero else v)
                 (Tensor.data x)))
    | _ => Raise RuntimeError
    end
  else Raise RuntimeError.

Definition view_v (x : Tensor.t V) (dims : list Z) : Res (Tensor.t V) :=
  d ← view_shape (Z.of_nat (Tensor.numel (Tensor.shape x))) dims;
  Ok (Tensor.mk (Z.to_nat <$> d) (Tensor.data x)).

(** The transposed tensor, laid out contiguously: the entry at multi-index
    [idx] of the result is the entry at [swap i j idx] of [x]. *)
Definition transpose_contiguous_v (x : Tensor.t V) (i j : nat) : Res (Tensor.t V) :=
  s' ← transpose_shape i j (Tensor.shape x);
  Ok (Tensor.mk s'
        ((λ k, default zero
                 (Tensor.data x !! Tensor.ravel (Tensor.shape x)
                                     (swap i j (Tensor.unravel s' k))))
           <$> seq 0 (Tensor.numel s'))).

(** The buffer of the shuffled tensor: the entry at [(b, k, h, t)] of the
    shape [(B, cpg, g, T)] is the entry at [(b, h, k, t)] of the shape
    [(B, g, cpg, T)] of the input. *)
Definition shuffled (B g cpg T : nat) (data : list V) : list V :=
  (λ k, default zero
          (data !! Tensor.ravel [B; g; cpg; T]
                     (swap 1 2 (Tensor.unravel [B; cpg; g; T] k))))
    <$> seq 0 (Tensor.numel [B; cpg; g; T]).

#[export] Instance value_ops : TensorOps (Tensor.t V) := {|
  size x := Z.of_nat <$> Tensor.shape x;
  masked_fill := masked_fill_v;
  F_conv1d := conv1d_v;
  F_batch_norm := batch_norm_v;
  F_relu := relu_v;
  F_dropout := dropout_v;
  t_add := add_v;
  stack_sum := stack_sum_v;
  view := view_v;
  transpose_contiguous := transpose_contiguous_v
|}.
End ValueOps.

(** ** Vocabulary of the statements *)

(** A convolution configuration is valid when kernel size, stride and
    dilation are positive and the padding is not negative; the sizes are
    below [2^31]. *)
Definition valid_conv (c : Conv1d.t) : Prop :=
  (0 < Conv1d.kernel_size c < 2 ^ 31 ∧ 0 < Conv1d.stride c < 2 ^ 31 ∧
   0 ≤ Conv1d.padding c < 2 ^ 31 ∧ 0 < Conv1d.dilation c < 2 ^ 31)%Z.

(** Lengths for which the update cannot leave the range of int64. *)
Definition len_in_range (l : Z) : Prop := (- 2 ^ 62 ≤ l < 2 ^ 62)%Z.

(** The standard output-length formula of a convolution. *)
Definition conv_out_len (c : Conv1d.t) (l : Z) : Z :=
  ((l + 2 * Conv1d.padding c - Conv1d.dilation c * (Conv1d.kernel_size c - 1) - 1)
   / Conv1d.stride c + 1)%Z.


(** An exception that comes from indexing or from the type of an argument,
    not from a check of the argument's value. *)
Definition not_a_check (e : exn) : Prop := e = IndexError ∨ e = TypeError.

(** The errors of the checks that the constructors of the framework make on
    the values of their arguments. *)
Definition framework_check (e : exn) : Prop :=
  e = ValueError "groups must be a positive integer"
  ∨ e = ValueError "in_channels must be divisible by groups"
  ∨ e = ValueError "out_channels must be divisible by groups"
  ∨ e = Dropout.range_error.

(** Sizes that the framework can allocate parameters for. *)
Definition positive_sizes (l : list Z) : Prop := Forall (λ z, (0 < z)%Z) l.

(** The channel counts in the [in_channels] argument of a unit. *)
Definition channels_of (in_channels : JasperUnit.channels_arg) : list Z :=
  match in_channels with
  | JasperUnit.ChInt c => [c]
  | JasperUnit.ChList cs => cs
  end.

(** A dropout rate that [nn.Dropout] accepts: neither below 0 nor above 1. *)
Definition valid_rate (p : float) : Prop :=
  PrimFloat.ltb p 0%float = false ∧ PrimFloat.ltb 1%float p = false.

(** The blocks that the constructors return when the checks pass (for
    [DwsConvBlock1d] with [groups = 1], as the file builds it). *)
Definition mask_block_of (in_channels out_channels kernel_size stride padding dilation
    groups : Z) (bias use_bn : bool) (bn_eps : float) (activation : activation_t)
    (dropout_rate : float) : MaskConvBlock1d.t :=
  MaskConvBlock1d.mk
    (match activation with Some _ => true | None => false end) use_bn
    (rate_nonzero dropout_rate)
    (MaskConv1d.mk
       (Conv1d.mk in_channels out_channels kernel_size stride padding dilation groups bias)
       true)
    (if use_bn then Some (BatchNorm1d.mk out_channels bn_eps true) else None)
    (match activation with Some f => Some (f ()) | None => None end)
    (if rate_nonzero dropout_rate then Some (Dropout.mk dropout_rate true) else None).

Definition dws_block_of (in_channels out_channels kernel_size stride padding dilation : Z)
    (bias use_bn : bool) (bn_eps : float) (activation : activation_t)
    (dropout_rate : float) : DwsConvBlock1d.t :=
  DwsConvBlock1d.mk
    (match activation with Some _ => true | None => false end) use_bn
    (rate_nonzero dropout_rate) false
    (MaskConv1d.mk
       (Conv1d.mk in_channels in_channels kernel_size stride padding dilation in_channels
          bias) true)
    (MaskConv1d.mk (Conv1d.mk in_channels out_channels 1 1 0 1 1 bias) true)
    None
    (if use_bn then Some (BatchNorm1d.mk out_channels bn_eps true) else None)
    (match activation with Some f => Some (f ()) | None => None end)
    (if rate_nonzero dropout_rate then Some (Dropout.mk dropout_rate true) else None).

Definition block_of (use_dw : bool) (in_channels out_channels kernel_size stride padding
    dilation : Z) (bn_eps : float) (dropout_rate : float) (activation : activation_t)
    : Block.t :=
  if use_dw then
    Block.Dws (dws_block_of in_channels out_channels kernel_size stride padding dilation
                 false true bn_eps activation dropout_rate)
  else
    Block.Mask (mask_block_of in_channels out_channels kernel_size stride padding dilation
                  1 false true bn_eps activation dropout_rate).

(** Batch normalization accepts [B * t] values per channel: always in
    evaluation mode, more than one value in training mode. *)
Definition batch_fits (training : bool) (B t : Z) : Prop :=
  training = true → (B * t ≠ 1)%Z.

(** [Q] holds of a module and of all the modules below it. *)
Fixpoint tree_all (Q : nn_module → bool) (m : nn_module) : bool :=
  Q m &&
  match m with
  | NN _ _ _ children =>
      (fix go (ch : list (string * nn_module)) : bool :=
         match ch with
         | [] => true
         | (_, c) :: ch => tree_all Q c && go ch
         end) children
  end.

Definition not_conv2d (m : nn_module) : bool := negb (isinstance m C_Conv2d).

(** The decimal numeral of a natural number, and the version string
    ["BxR"] of [B] blocks and [R] repeats. *)
Definition decimal (n : N) : string := NilZero.string_of_uint (N.to_uint n).
Definition version_string (blocks repeat : N) : string :=
  decimal blocks +:+ "x" +:+ decimal repeat.

(** The characters of a string are decimal digits. *)
Definition digits (s : string) : Prop :=
  Forall (λ c, is_digit c = true) (list_ascii_of_string s).

(** The expansion of a per-stage table in the words of the specification:
    the first stage and the last two stages are kept as singletons, the
    entries of the five middle stages are repeated [n] times each. *)
Definition expand_stages {A} (n : nat) (table : list A) : list A :=
  take 1 table ++ mjoin (replicate n <$> take 5 (drop 1 table)) ++ drop 6 table.

(** The channel of the input that [ChannelShuffle1d] moves to channel [j] of
    the output, for [channels] channels in [groups] groups. *)
Definition shuffle_index (channels groups j : nat) : nat :=
  ((j mod groups) * (channels / groups) + j / groups)%nat.

(** The batch has one declared length per sample, or a single length that
    the mask broadcasts to every sample. *)
Definition lens_fit (B : Z) (x_len : list Z) : Prop :=
  Z.of_nat (length x_len) = B ∨ length x_len = 1%nat.

(** [fwd m], for a module [m] in the mode [training], maps a batch of [c1]
    channels and [t ≥ 1] time steps that batch normalization accepts to a
    batch of [c2] channels and as many time steps, with a length per
    sample. *)
Definition keeps_time {M} (training : bool)
    (fwd : M → list Z → len_arg (list Z) → Res (list Z * len_arg (list Z)))
    (m : M) (c1 c2 : Z) : Prop :=
  ∀ (B t : Z) (x_len : list Z),
    (1 ≤ t)%Z → batch_fits training B t → lens_fit B x_len →
    ∃ x_len', fwd m [B; c1; t] (LTensor x_len) = Ok ([B; c2; t], LTensor x_len')
              ∧ length x_len' = length x_len.

(** A sequence of modules that keep the time axis, from [c1] to [c2] channels. *)
Inductive chain {M} (training : bool)
    (fwd : M → list Z → len_arg (list Z) → Res (list Z * len_arg (list Z)))
    : Z → Z → list (string * M) → Prop :=
  | chain_nil (c : Z) : chain training fwd c c []
  | chain_cons (c1 c2 c3 : Z) (name : string) (m : M) (rest : list (string * M)) :
      keeps_time training fwd m c1 c2 → chain training fwd c2 c3 rest →
      chain training fwd c1 c3 ((name, m) :: rest).

(** Kernel sizes of the tables: odd, positive, below [2^31]. *)
Definition odd_kernel (k : Z) : Prop := (0 < k < 2 ^ 31 ∧ k mod 2 = 1)%Z.

(** ** Vocabulary of the further statements *)

(** The values an entry of an int64 tensor can have. *)
Definition len_in_int64 (l : Z) : Prop := (int64_min ≤ l ≤ int64_max)%Z.

(** Two modules whose forward passes agree on every shape and on every
    length argument. *)
Definition same_forward {M1 M2}
    (fwd1 : M1 → list Z → len_arg (list Z) → Res (list Z * len_arg (list Z)))
    (fwd2 : M2 → list Z → len_arg (list Z) → Res (list Z * len_arg (list Z)))
    (m1 : M1) (m2 : M2) : Prop :=
  ∀ (x : list Z) (x_len : len_arg (list Z)), fwd1 m1 x x_len = fwd2 m2 x x_len.

(** [fwd m], for a module [m] in the mode [training], maps a batch of [c1]
    channels and [t ≥ 1] time steps that batch normalization accepts to a
    batch of [c2] channels and as many time steps, and returns the lengths
    it was given. *)
Definition keeps_len {M} (training : bool)
    (fwd : M → list Z → len_arg (list Z) → Res (list Z * len_arg (list Z)))
    (m : M) (c1 c2 : Z) : Prop :=
  ∀ (B t : Z) (x_len : list Z),
    (1 ≤ t)%Z → batch_fits training B t → lens_fit B x_len → Forall len_in_range x_len →
    fwd m [B; c1; t] (LTensor x_len) = Ok ([B; c2; t], LTensor x_len).

(** A sequence of modules that keep the time axis and the lengths, from
    [c1] to [c2] channels. *)
Inductive chain_len {M} (training : bool)
    (fwd : M → list Z → len_arg (list Z) → Res (list Z * len_arg (list Z)))
    : Z → Z → list (string * M) → Prop :=
  | chain_len_nil (c : Z) : chain_len training fwd c c []
  | chain_len_cons (c1 c2 c3 : Z) (name : string) (m : M) (rest : list (string * M)) :
      keeps_len training fwd m c1 c2 → chain_len training fwd c2 c3 rest →
      chain_len training fwd c1 c3 ((name, m) :: rest).

(** The length of a sample after the initial block of stride 2. *)
Definition halved (l : Z) : Z := ((l - 1) / 2 + 1)%Z.

(** The length argument that reaches a unit with dense residual connections
    whose predecessors had the input channels [cins]: the bare lengths in
    front of the first unit, afterwards the tuple of the lengths, the inputs
    of the units so far and their lengths. *)
Definition dense_arg (B t : Z) (l : list Z) (cins : list Z) : len_arg (list Z) :=
  match cins with
  | [] => LTensor l
  | _ => LTuple l ((λ c, [B; c; t]) <$> cins) ((λ _, l) <$> cins)
  end.

Definition not_shuffle (m : nn_module) : bool := negb (isinstance m C_ChannelShuffle1d).

(** ** _test

    The body of the loop of [_test] on shapes, for one of the three models
    and a drawn [seq_len]: the value of the conjunction of its assertions.
    The input is [torch.randn(batch, audio_features, seq_len)], of which the
    shape is kept; the length tensor holds [seq_len - 2]; the [print] is
    left out. *)
Inductive named_model : Type := Jasper5x3 | Jasper10x4 | Jasper10x5.

#[export] Instance named_model_eq_dec : EqDecision named_model.
Proof. solve_decision. Defined.

Section Test.
Variable download_model : Jasper.t → string → string → Res Jasper.t.

Definition call_model (model : named_model) (pretrained : bool) (kw : kwargs)
    : Res Jasper.t * list event :=
  match model with
  | Jasper5x3 => jasper5x3 download_model pretrained default_root kw
  | Jasper10x4 => jasper10x4 download_model pretrained default_root kw
  | Jasper10x5 => jasper10x5 download_model pretrained default_root kw
  end.

Definition _test (model : named_model) (seq_len : Z) : Res bool :=
  let pretrained := false in
  let audio_features := 64%Z in
  let num_classes := 29%Z in
  net ← (call_model model pretrained
           (mk_kwargs (Some audio_features) (Some num_classes))).1;
  let net := Jasper.eval net in
  let weight_count := _calc_width net in
  let a1 := bool_decide (model ≠ Jasper5x3 ∨ weight_count = 107681053%Z) in
  let a2 := bool_decide (model ≠ Jasper10x4 ∨ weight_count = 261393693%Z) in
  let a3 := bool_decide (model ≠ Jasper10x5 ∨ weight_count = 322286877%Z) in
  let batch := 1%Z in
  let x := [batch; audio_features; seq_len] in
  let x_len := LTensor [(seq_len - 2)%Z] in
  '(y, y_len) ← Jasper.forward net x x_len;
  let a4 := bool_decide (take 2 (size y) = [batch; num_classes]) in
  t ← py_index (size y) 2;
  let a5 := bool_decide (t ∈ [(seq_len / 2)%Z; (seq_len / 2 + 1)%Z]) in
  Ok (a1 && a2 && a3 && a4 && a5).
End Test.
(** * Properties *)

(** ** The error monad *)

Lemma mapM_Res_Ok {A B} (f : A → Res B) (g : A → B) (l : list A) :
  Forall (λ a, f a = Ok (g a)) l → mapM f l = Ok (g <$> l).
Proof.
  induction 1 as [|a l Ha _ IH]; [reflexivity|].
  cbn. rewrite Ha. cbn. rewrite IH. reflexivity.
Qed.

(** ** 64-bit arithmetic *)

Ltac norm_pow2 :=
  change (2 ^ 31)%Z with 2147483648%Z in *;
  change (2 ^ 62)%Z with 4611686018427387904%Z in *;
  change (2 ^ 63)%Z with 9223372036854775808%Z in *;
  change (2 ^ 64)%Z with 18446744073709551616%Z in *.

Lemma wrap64_small (z : Z) : (int64_min ≤ z ≤ int64_max)%Z → wrap64 z = z.
Proof.
  unfold int64_min, int64_max, wrap64. intros Hz.
  rewrite Z.mod_small by lia. lia.
Qed.

Lemma scalar64_small (z : Z) : (int64_min ≤ z ≤ int64_max)%Z → scalar64 z = Ok z.
Proof. intros Hz. unfold scalar64. rewrite bool_decide_eq_true_2; done. Qed.

Lemma update_len_formula (c : Conv1d.t) (l : Z) :
  valid_conv c → len_in_range l →
  MaskConv1d.update_len c l = Ok (conv_out_len c l).
Proof.
  unfold valid_conv, len_in_range, MaskConv1d.update_len, conv_out_len.
  destruct c as [ci co k s p d g b]; simpl.
  intros (Hk & Hs & Hp & Hd) Hl. norm_pow2.
  assert (0 ≤ d * (k - 1) ≤ 2147483647 * 2147483646)%Z as Hdk by nia.
  rewrite !scalar64_small by (unfold int64_min, int64_max; lia). cbn.
  rewrite bool_decide_eq_false_2 by lia.
  rewrite (wrap64_small (l + 2 * p)) by (unfold int64_min, int64_max; lia).
  rewrite (wrap64_small (l + 2 * p - d * (k - 1))) by (unfold int64_min, int64_max; lia).
  rewrite (wrap64_small (l + 2 * p - d * (k - 1) - 1)) by (unfold int64_min, int64_max; lia).
  set (num := (l + 2 * p - d * (k - 1) - 1)%Z).
  assert (- 9223372036854775808 < num < 9223372036854775807)%Z as Hnum
    by (unfold num; lia).
  clearbody num.
  assert (- 9223372036854775808 < num / s < 9223372036854775807)%Z as Hq.
  { assert (9223372036854775807 ≤ s * 9223372036854775807)%Z by lia.
    split.
    - apply Z.lt_le_trans with (-9223372036854775807)%Z; [lia|].
      apply Z.div_le_lower_bound; lia.
    - apply Z.div_lt_upper_bound; lia. }
  rewrite (wrap64_small (num / s)) by (unfold int64_min, int64_max; norm_pow2; lia).
  rewrite wrap64_small by (unfold int64_min, int64_max; norm_pow2; lia).
  reflexivity.
Qed.

(** ** MaskConv1d.forward: the length vector *)

(** C1. With masking enabled and a valid convolution configuration,
    [MaskConv1d.forward] returns, next to the convolution of the masked
    input, the length vector obtained by applying
    [floor((len + 2*padding - dilation*(kernel-1) - 1) / stride) + 1]
    to every entry of the input length vector (entries for which the int64
    arithmetic cannot overflow); the call fails only where a tensor
    operation of the framework fails. *)
Theorem MaskConv1d_forward_length `{TensorOps T} (c : Conv1d.t) (x : T) (x_len : list Z) :
  valid_conv c → Forall len_in_range x_len →
  MaskConv1d.forward (MaskConv1d.mk c true) x (LTensor x_len) =
    (max_len ← size_at x 2;
     xm ← masked_fill x (MaskConv1d.make_mask max_len x_len);
     y ← F_conv1d c xm;
     Ok (y, LTensor (conv_out_len c <$> x_len)))
  ∧ ∀ y l', MaskConv1d.forward (MaskConv1d.mk c true) x (LTensor x_len) = Ok (y, l') →
            l' = LTensor ((λ l, (l + 2 * Conv1d.padding c
                                 - Conv1d.dilation c * (Conv1d.kernel_size c - 1) - 1)
                                / Conv1d.stride c + 1)%Z <$> x_len).
Proof.
  intros Hc Hl.
  assert (MaskConv1d.forward (MaskConv1d.mk c true) x (LTensor x_len) =
    (max_len ← size_at x 2;
     xm ← masked_fill x (MaskConv1d.make_mask max_len x_len);
     y ← F_conv1d c xm;
     Ok (y, LTensor (conv_out_len c <$> x_len)))) as Heq.
  { unfold MaskConv1d.forward; cbn.
    destruct (size_at x 2) as [max_len|e]; cbn; [|reflexivity].
    destruct (masked_fill x _) as [xm|e]; cbn; [|reflexivity].
    rewrite (mapM_Res_Ok _ (conv_out_len c)); [reflexivity|].
    eapply Forall_impl; [exact Hl|]. intros l. apply update_len_formula, Hc. }
  split; [exact Heq|].
  intros y l'. rewrite Heq.
  destruct (size_at x 2) as [max_len|e]; cbn; [|discriminate].
  destruct (masked_fill x _) as [xm|e]; cbn; [|discriminate].
  destruct (F_conv1d c xm) as [y'|e]; cbn; [|discriminate].
  intros [= _ <-]. reflexivity.
Qed.

Lemma MaskConv1d_forward_length_witness :
  (m ← MaskConv1d.init 64 256 11 2 5 1 1 false true;
   MaskConv1d.forward m [2; 64; 100]%Z (LTensor [98; 57]%Z))
  = Ok ([2; 256; 50]%Z, LTensor [49; 29]%Z).
Proof.
  change (MaskConv1d.forward (MaskConv1d.mk (Conv1d.mk 64 256 11 2 5 1 1 false) true)
            [2; 64; 100]%Z (LTensor [98; 57]%Z)
          = Ok ([2; 256; 50]%Z, LTensor [49; 29]%Z)).
  refine (eq_trans
    (proj1 (MaskConv1d_forward_length (Conv1d.mk 64 256 11 2 5 1 1 false)
              [2; 64; 100]%Z [98; 57]%Z _ _)) _).
  - unfold valid_conv; simpl; lia.
  - repeat constructor; unfold len_in_range; lia.
  - reflexivity.
Defined.

(** C10. With [use_mask=False], [MaskConv1d.forward] convolves the input as
    it is and returns the length argument unchanged, whatever the stride,
    padding, dilation and kernel size; so a stride-2 convolution halves the
    time axis of the tensor while the length stays what it was. *)
Theorem MaskConv1d_forward_no_mask `{TensorOps T} (c : Conv1d.t) (x : T) (x_len : len_arg T) :
  MaskConv1d.forward (MaskConv1d.mk c false) x x_len = ((λ y, (y, x_len)) <$> F_conv1d c x)
  ∧ (m ← MaskConv1d.init 64 256 11 2 5 1 1 false false;
     MaskConv1d.forward m [1; 64; 100]%Z (LTensor [98]%Z))
    = Ok ([1; 256; 50]%Z, LTensor [98]%Z).
Proof.
  split; [|reflexivity].
  unfold MaskConv1d.forward; cbn. destruct (F_conv1d c x); reflexivity.
Qed.

(** ** JasperFinalBlock.forward *)

(** C7. In dense-residual mode [JasperFinalBlock.forward] works on the first
    element of the tuple [(x_len, y, y_len)] it receives, the running length,
    and ignores the two accumulated lists: the result is the one of the plain
    mode on that length.  In plain mode the length argument is passed to the
    first block as it is. *)
Theorem JasperFinalBlock_forward_length `{TensorOps T} (conv1 : Block.t)
    (conv2 : MaskConvBlock1d.t) (x : T) (l : list Z) (y : list T) (y_len : list (list Z))
    (x_len : len_arg T) :
  JasperFinalBlock.forward (JasperFinalBlock.mk true conv1 conv2) x (LTuple l y y_len)
  = JasperFinalBlock.forward (JasperFinalBlock.mk false conv1 conv2) x (LTensor l)
  ∧ JasperFinalBlock.getitem0 (LTuple l y y_len) = Ok (LTensor l)
  ∧ JasperFinalBlock.forward (JasperFinalBlock.mk false conv1 conv2) x x_len
    = ('(x1, l1) ← Block.forward conv1 x x_len; MaskConvBlock1d.forward conv2 x1 l1).
Proof.
  split; [reflexivity|]. split; [reflexivity|].
  unfold JasperFinalBlock.forward; cbn.
  destruct (Block.forward conv1 x x_len) as [[x1 l1]|e]; cbn; [|reflexivity].
  destruct (MaskConvBlock1d.forward conv2 x1 l1) as [[x2 l2]|e]; reflexivity.
Qed.

(** ** Constructors: when they build, and what they can raise *)

Lemma py_index_Raise {A} (l : list A) (i : Z) (e : exn) :
  py_index l i = Raise e → e = IndexError.
Proof.
  unfold py_index, or_raise.
  repeat case_bool_decide; repeat case_match; congruence.
Qed.

Lemma Conv1d_init_inv (ci co k s p d g : Z) (b : bool) (c : Conv1d.t) :
  Conv1d.init ci co k s p d g b = Ok c →
  c = Conv1d.mk ci co k s p d g b ∧ (0 < g)%Z ∧ (ci mod g = 0)%Z ∧ (co mod g = 0)%Z.
Proof.
  unfold Conv1d.init. repeat case_bool_decide; try discriminate.
  intros [= <-]. repeat split; lia.
Qed.

Lemma Conv1d_init_Ok (ci co k s p d g : Z) (b : bool) :
  (0 < g)%Z → (ci mod g = 0)%Z → (co mod g = 0)%Z →
  Conv1d.init ci co k s p d g b = Ok (Conv1d.mk ci co k s p d g b).
Proof.
  intros Hg Hi Ho. unfold Conv1d.init.
  rewrite bool_decide_eq_false_2 by lia.
  rewrite bool_decide_eq_false_2 by (intros H; apply H, Hi).
  rewrite bool_decide_eq_false_2 by (intros H; apply H, Ho). reflexivity.
Qed.

Lemma Conv1d_init_Raise (ci co k s p d g : Z) (b : bool) (e : exn) :
  Conv1d.init ci co k s p d g b = Raise e → framework_check e.
Proof.
  unfold Conv1d.init, framework_check.
  repeat case_bool_decide; intros [= <-]; auto.
Qed.

Lemma MaskConv1d_init_inv (ci co k s p d g : Z) (b m : bool) (c : MaskConv1d.t) :
  MaskConv1d.init ci co k s p d g b m = Ok c →
  c = MaskConv1d.mk (Conv1d.mk ci co k s p d g b) m
  ∧ (0 < g)%Z ∧ (ci mod g = 0)%Z ∧ (co mod g = 0)%Z.
Proof.
  unfold MaskConv1d.init.
  destruct (Conv1d.init ci co k s p d g b) as [c'|e] eqn:Hc; [|discriminate].
  cbn [mbind Res_bind]. intros [= <-].
  apply Conv1d_init_inv in Hc as (-> & H). split; [reflexivity|exact H].
Qed.

Lemma MaskConv1d_init_Ok (ci co k s p d g : Z) (b m : bool) :
  (0 < g)%Z → (ci mod g = 0)%Z → (co mod g = 0)%Z →
  MaskConv1d.init ci co k s p d g b m = Ok (MaskConv1d.mk (Conv1d.mk ci co k s p d g b) m).
Proof.
  intros Hg Hi Ho. unfold MaskConv1d.init.
  rewrite (Conv1d_init_Ok ci co k s p d g b Hg Hi Ho). reflexivity.
Qed.

Lemma MaskConv1d_init_Raise (ci co k s p d g : Z) (b m : bool) (e : exn) :
  MaskConv1d.init ci co k s p d g b m = Raise e → framework_check e.
Proof.
  unfold MaskConv1d.init.
  destruct (Conv1d.init ci co k s p d g b) as [c'|e'] eqn:Hc; [discriminate|].
  intros [= <-]. eapply Conv1d_init_Raise, Hc.
Qed.

Lemma valid_rate_0 : valid_rate 0%float.
Proof. split; reflexivity. Qed.

(** [if self.use_dropout: self.dropout = nn.Dropout(p=dropout_rate)] *)
Lemma dropout_opt_inv (rate : float) (d : option Dropout.t) :
  (if rate_nonzero rate then Some <$> Dropout.init rate else Ok None) = Ok d →
  d = (if rate_nonzero rate then Some (Dropout.mk rate true) else None)
  ∧ (rate_nonzero rate = true → valid_rate rate).
Proof.
  destruct (rate_nonzero rate).
  - unfold Dropout.init, valid_rate.
    destruct (PrimFloat.ltb rate 0), (PrimFloat.ltb 1 rate); cbn; try discriminate.
    intros [= <-]. auto.
  - intros [= <-]. split; [reflexivity|discriminate].
Qed.

Lemma dropout_opt_Ok (rate : float) :
  valid_rate rate →
  (if rate_nonzero rate then Some <$> Dropout.init rate else Ok None)
  = Ok (if rate_nonzero rate then Some (Dropout.mk rate true) else None).
Proof.
  intros [H0 H1]. destruct (rate_nonzero rate); [|reflexivity].
  unfold Dropout.init. rewrite H0, H1. reflexivity.
Qed.

Lemma dropout_opt_Raise (rate : float) (e : exn) :
  (if rate_nonzero rate then Some <$> Dropout.init rate else Ok None) = Raise e →
  e = Dropout.range_error.
Proof.
  destruct (rate_nonzero rate); [|discriminate].
  unfold Dropout.init. destruct (_ || _); cbn; [|discriminate]. intros [= <-]. reflexivity.
Qed.

Lemma MaskConvBlock1d_init_inv (ci co k s p d g : Z) (bias use_bn : bool) (eps rate : float)
    (act : activation_t) (b : MaskConvBlock1d.t) :
  MaskConvBlock1d.init ci co k s p d g bias use_bn eps act rate = Ok b →
  b = mask_block_of ci co k s p d g bias use_bn eps act rate.
Proof.
  unfold MaskConvBlock1d.init.
  destruct (MaskConv1d.init ci co k s p d g bias true) as [c|e] eqn:Hc; [|discriminate].
  cbn [mbind Res_bind].
  destruct (if rate_nonzero rate then _ else _) as [dr|e] eqn:Hd; [|discriminate].
  cbn [mbind Res_bind]. intros [= <-].
  apply MaskConv1d_init_inv in Hc as (-> & _). apply dropout_opt_inv in Hd as (-> & _).
  reflexivity.
Qed.

Lemma MaskConvBlock1d_init_Ok (ci co k s p d g : Z) (bias use_bn : bool) (eps rate : float)
    (act : activation_t) :
  (0 < g)%Z → (ci mod g = 0)%Z → (co mod g = 0)%Z → valid_rate rate →
  MaskConvBlock1d.init ci co k s p d g bias use_bn eps act rate
  = Ok (mask_block_of ci co k s p d g bias use_bn eps act rate).
Proof.
  intros Hg Hi Ho Hr. unfold MaskConvBlock1d.init.
  rewrite (MaskConv1d_init_Ok ci co k s p d g bias true Hg Hi Ho). cbn [mbind Res_bind].
  rewrite (dropout_opt_Ok rate Hr). reflexivity.
Qed.

Lemma MaskConvBlock1d_init_Raise (ci co k s p d g : Z) (bias use_bn : bool)
    (eps rate : float) (act : activation_t) (e : exn) :
  MaskConvBlock1d.init ci co k s p d g bias use_bn eps act rate = Raise e →
  framework_check e.
Proof.
  unfold MaskConvBlock1d.init.
  destruct (MaskConv1d.init ci co k s p d g bias true) as [c|e'] eqn:Hc.
  - cbn [mbind Res_bind].
    destruct (if rate_nonzero rate then _ else _) as [dr|e'] eqn:Hd; [discriminate|].
    intros [= <-]. apply dropout_opt_Raise in Hd as ->. unfold framework_check. auto.
  - intros [= <-]. eapply MaskConv1d_init_Raise, Hc.
Qed.

(** With one group the checks of the convolution pass. *)
Lemma MaskConvBlock1d_init_Ok_1 (ci co k s p d : Z) (bias use_bn : bool) (eps rate : float)
    (act : activation_t) :
  valid_rate rate →
  MaskConvBlock1d.init ci co k s p d 1 bias use_bn eps act rate
  = Ok (mask_block_of ci co k s p d 1 bias use_bn eps act rate).
Proof.
  intros Hr. apply MaskConvBlock1d_init_Ok; [lia| | |exact Hr]; apply Z.mod_1_r.
Qed.

Lemma DwsConvBlock1d_init_inv (ci co k s p d : Z) (bias use_bn : bool) (eps rate : float)
    (act : activation_t) (b : DwsConvBlock1d.t) :
  DwsConvBlock1d.init ci co k s p d 1 bias use_bn eps act rate = Ok b →
  b = dws_block_of ci co k s p d bias use_bn eps act rate ∧ (0 < ci)%Z.
Proof.
  unfold DwsConvBlock1d.init, mask_conv1d1.
  destruct (MaskConv1d.init ci ci k s p d ci bias true) as [dw|e] eqn:Hdw; [|discriminate].
  cbn [mbind Res_bind].
  destruct (MaskConv1d.init ci co 1 1 0 1 1 bias true) as [pw|e] eqn:Hpw; [|discriminate].
  cbn [mbind Res_bind]. rewrite bool_decide_eq_false_2 by lia. cbn [mbind Res_bind].
  destruct (if rate_nonzero rate then _ else _) as [dr|e] eqn:Hd; [|discriminate].
  cbn [mbind Res_bind]. intros [= <-].
  apply MaskConv1d_init_inv in Hdw as (-> & Hci & _).
  apply MaskConv1d_init_inv in Hpw as (-> & _). apply dropout_opt_inv in Hd as (-> & _).
  split; [reflexivity|exact Hci].
Qed.

Lemma DwsConvBlock1d_init_Ok (ci co k s p d : Z) (bias use_bn : bool) (eps rate : float)
    (act : activation_t) :
  (0 < ci)%Z → valid_rate rate →
  DwsConvBlock1d.init ci co k s p d 1 bias use_bn eps act rate
  = Ok (dws_block_of ci co k s p d bias use_bn eps act rate).
Proof.
  intros Hci Hr. unfold DwsConvBlock1d.init, mask_conv1d1.
  rewrite (MaskConv1d_init_Ok ci ci k s p d ci bias true Hci)
    by (apply Z.mod_same; lia).
  cbn [mbind Res_bind].
  rewrite (MaskConv1d_init_Ok ci co 1 1 0 1 1 bias true) by (lia || apply Z.mod_1_r).
  cbn [mbind Res_bind]. rewrite bool_decide_eq_false_2 by lia. cbn [mbind Res_bind].
  rewrite (dropout_opt_Ok rate Hr). reflexivity.
Qed.

(** The pointwise convolution is built before the channel shuffle and checks
    the same divisibility: the error of the shuffle is never raised by a
    block. *)
Lemma DwsConvBlock1d_init_Raise (ci co k s p d g : Z) (bias use_bn : bool)
    (eps rate : float) (act : activation_t) (e : exn) :
  DwsConvBlock1d.init ci co k s p d g bias use_bn eps act rate = Raise e →
  framework_check e.
Proof.
  unfold DwsConvBlock1d.init, mask_conv1d1.
  destruct (MaskConv1d.init ci ci k s p d ci bias true) as [dw|e'] eqn:Hdw;
    [|intros [= <-]; eapply MaskConv1d_init_Raise, Hdw].
  cbn [mbind Res_bind].
  destruct (MaskConv1d.init ci co 1 1 0 1 g bias true) as [pw|e'] eqn:Hpw;
    [|intros [= <-]; eapply MaskConv1d_init_Raise, Hpw].
  cbn [mbind Res_bind].
  apply MaskConv1d_init_inv in Hpw as (_ & Hg & _ & Hco).
  assert ((if bool_decide (1 < g)%Z
           then Some <$> ChannelShuffle1d.init co g else Ok None)
          = Ok (if bool_decide (1 < g)%Z then Some (ChannelShuffle1d.mk g) else None))
    as ->.
  { case_bool_decide; [|reflexivity].
    unfold ChannelShuffle1d.init, py_mod. rewrite bool_decide_eq_false_2 by lia.
    cbn [mbind Res_bind]. rewrite bool_decide_eq_false_2 by (intros H'; apply H', Hco).
    reflexivity. }
  cbn [mbind Res_bind].
  destruct (if rate_nonzero rate then _ else _) as [dr|e'] eqn:Hd; [discriminate|].
  intros [= <-]. apply dropout_opt_Raise in Hd as ->. unfold framework_check. auto.
Qed.

Lemma Block_init_inv (use_dw : bool) (cin cout k s p d : Z) (eps rate : float)
    (act : activation_t) (b : Block.t) :
  Block.init use_dw cin cout k s p d eps rate act = Ok b →
  b = block_of use_dw cin cout k s p d eps rate act.
Proof.
  unfold Block.init, block_of. destruct use_dw.
  - destruct (DwsConvBlock1d.init _ _ _ _ _ _ _ _ _ _ _ _) as [b'|e] eqn:Hb; [|discriminate].
    intros [= <-]. apply DwsConvBlock1d_init_inv in Hb as (-> & _). reflexivity.
  - destruct (MaskConvBlock1d.init _ _ _ _ _ _ _ _ _ _ _ _) as [b'|e] eqn:Hb; [|discriminate].
    intros [= <-]. apply MaskConvBlock1d_init_inv in Hb as ->. reflexivity.
Qed.

Lemma Block_init_Ok (use_dw : bool) (cin cout k s p d : Z) (eps rate : float)
    (act : activation_t) :
  (use_dw = true → 0 < cin)%Z → valid_rate rate →
  Block.init use_dw cin cout k s p d eps rate act
  = Ok (block_of use_dw cin cout k s p d eps rate act).
Proof.
  intros Hci Hr. unfold Block.init, block_of. destruct use_dw.
  - rewrite (DwsConvBlock1d_init_Ok cin cout k s p d false true eps rate act
               (Hci eq_refl) Hr). reflexivity.
  - rewrite (MaskConvBlock1d_init_Ok_1 cin cout k s p d false true eps rate act Hr).
    reflexivity.
Qed.

Lemma Block_init_Raise (use_dw : bool) (cin cout k s p d : Z) (eps rate : float)
    (act : activation_t) (e : exn) :
  Block.init use_dw cin cout k s p d eps rate act = Raise e → framework_check e.
Proof.
  unfold Block.init. destruct use_dw.
  - destruct (DwsConvBlock1d.init _ _ _ _ _ _ _ _ _ _ _ _) as [b'|e'] eqn:Hb; [discriminate|].
    intros [= <-]. eapply DwsConvBlock1d_init_Raise, Hb.
  - destruct (MaskConvBlock1d.init _ _ _ _ _ _ _ _ _ _ _ _) as [b'|e'] eqn:Hb; [discriminate|].
    intros [= <-]. eapply MaskConvBlock1d_init_Raise, Hb.
Qed.

Lemma body_loop_Raise (use_dw : bool) (idxs : list Z) (repeat cin cout k : Z)
    (eps rate : float) (body : DualPathSequential.t Block.t) (e : exn) :
  JasperUnit.body_loop use_dw idxs repeat cin cout k eps rate body = Raise e →
  framework_check e.
Proof.
  revert cin body. induction idxs as [|i idxs IH]; intros cin body;
    cbn [JasperUnit.body_loop]; [discriminate|].
  destruct (Block.init use_dw cin cout k 1 (k / 2) 1 eps _ _) as [b|e'] eqn:Hb.
  - cbn [mbind Res_bind]. apply IH.
  - intros [= <-]. eapply Block_init_Raise, Hb.
Qed.

Lemma body_loop_Ok (idxs : list Z) (repeat cin cout k : Z)
    (eps rate : float) (body : DualPathSequential.t Block.t) :
  valid_rate rate →
  ∃ body', JasperUnit.body_loop false idxs repeat cin cout k eps rate body = Ok body'.
Proof.
  intros Hr. revert cin body.
  induction idxs as [|i idxs IH]; intros cin body; cbn [JasperUnit.body_loop]; [eauto|].
  rewrite Block_init_Ok; [|discriminate|case_bool_decide; [exact Hr|apply valid_rate_0]].
  cbn [mbind Res_bind]. apply IH.
Qed.

(** A 1-dim kernel block without activation and dropout, as the identity
    blocks are, is always built. *)
Lemma mask_conv1d1_block_Ok (cin cout s p : Z) (eps : float) (act : activation_t) :
  mask_conv1d1_block cin cout s p eps 0 act
  = Ok (mask_block_of cin cout 1 s p 1 1 false true eps act 0).
Proof. apply MaskConvBlock1d_init_Ok_1, valid_rate_0. Qed.

Lemma dense_identity_loop_Ok (i : Z) (cs : list Z) (cout : Z) (eps : float)
    (blk : DualPathParallelConcurent.t MaskConvBlock1d.t) :
  ∃ bs, JasperUnit.dense_identity_loop i cs cout eps blk = Ok (blk ++ bs)
        ∧ Forall2 (λ m c, m.2 = mask_block_of c cout 1 1 0 1 1 false true eps None 0) bs cs.
Proof.
  revert i blk. induction cs as [|c cs IH]; intros i blk; cbn [JasperUnit.dense_identity_loop].
  - exists []. rewrite app_nil_r. split; [reflexivity|constructor].
  - rewrite mask_conv1d1_block_Ok. cbn [mbind Res_bind].
    destruct (IH (i + 1)%Z
                (DualPathParallelConcurent.add_module blk (numbered "block" i)
                   (mask_block_of c cout 1 1 0 1 1 false true eps None 0)))
      as (bs & -> & Hbs).
    eexists. unfold DualPathParallelConcurent.add_module. rewrite <- app_assoc.
    split; [reflexivity|]. constructor; [reflexivity|exact Hbs].
Qed.

Lemma JasperUnit_init_Raise (cin : JasperUnit.channels_arg) (cout k : Z) (eps rate : float)
    (repeat : Z) (use_dw use_dr : bool) (e : exn) :
  JasperUnit.init cin cout k eps rate repeat use_dw use_dr = Raise e →
  not_a_check e ∨ framework_check e.
Proof.
  unfold JasperUnit.init, not_a_check.
  assert (∀ c idb,
    (body ← JasperUnit.body_loop use_dw (seqZ 0 repeat) repeat c cout k eps rate [];
     dropout ← (if rate_nonzero rate then Some <$> Dropout.init rate else Ok None);
     Ok (JasperUnit.mk (rate_nonzero rate) use_dr idb body (ReLU.mk true) dropout))
    = Raise e → framework_check e) as Hrest.
  { intros c idb.
    destruct (JasperUnit.body_loop _ _ _ _ _ _ _ _ _) as [body|e'] eqn:Hb;
      [|intros [= <-]; eapply body_loop_Raise, Hb].
    cbn [mbind Res_bind].
    destruct (if rate_nonzero rate then _ else _) as [dr|e'] eqn:Hd; [discriminate|].
    intros [= <-]. apply dropout_opt_Raise in Hd as ->. unfold framework_check. auto. }
  destruct use_dr, cin as [c|cs]; cbn [mbind Res_bind];
    try (intros [= <-]; auto; fail).
  - unfold JasperUnit.dense_identity.
    destruct (dense_identity_loop_Ok 0 cs cout eps []) as (bs & -> & _).
    cbn [mbind Res_bind app].
    destruct (py_index cs (-1)) as [c|e'] eqn:Hc; cbn [mbind Res_bind].
    + intros H. right. eapply Hrest, H.
    + intros [= <-]. left. left. eapply py_index_Raise, Hc.
  - rewrite mask_conv1d1_block_Ok. cbn [mbind Res_bind].
    intros H. right. eapply Hrest, H.
Qed.

Lemma JasperFinalBlock_init_Raise (cin : Z) (channels kernel_sizes : list Z) (eps : float)
    (dropout_rates : list float) (use_dw use_dr : bool) (e : exn) :
  JasperFinalBlock.init cin channels kernel_sizes eps dropout_rates use_dw use_dr = Raise e →
  not_a_check e ∨ framework_check e.
Proof.
  unfold JasperFinalBlock.init, not_a_check.
  destruct (py_index channels (-2)) as [c2|e'] eqn:H1; cbn [mbind Res_bind];
    [|intros [= <-]; left; left; eapply py_index_Raise, H1].
  destruct (py_index kernel_sizes (-2)) as [k2|e'] eqn:H2; cbn [mbind Res_bind];
    [|intros [= <-]; left; left; eapply py_index_Raise, H2].
  destruct (py_index dropout_rates (-2)) as [d2|e'] eqn:H3; cbn [mbind Res_bind];
    [|intros [= <-]; left; left; eapply py_index_Raise, H3].
  destruct (Block.init use_dw cin c2 k2 1 _ 2 eps d2 relu_inplace) as [b|e'] eqn:Hb;
    cbn [mbind Res_bind]; [|intros [= <-]; right; eapply Block_init_Raise, Hb].
  destruct (py_index channels (-1)) as [c1|e'] eqn:H4; cbn [mbind Res_bind];
    [|intros [= <-]; left; left; eapply py_index_Raise, H4].
  destruct (py_index kernel_sizes (-1)) as [k1|e'] eqn:H5; cbn [mbind Res_bind];
    [|intros [= <-]; left; left; eapply py_index_Raise, H5].
  destruct (py_index dropout_rates (-1)) as [d1|e'] eqn:H6; cbn [mbind Res_bind];
    [|intros [= <-]; left; left; eapply py_index_Raise, H6].
  destruct (MaskConvBlock1d.init _ _ _ _ _ _ _ _ _ _ _ _) as [b2|e'] eqn:Hb2;
    cbn [mbind Res_bind]; [discriminate|].
  intros [= <-]. right. eapply MaskConvBlock1d_init_Raise, Hb2.
Qed.

Lemma units_loop_Raise (use_dw use_dr : bool) (eps : float) (repeat i : Z)
    (stages : list (Z * Z * float)) (cin : Z) (cins : list Z)
    (features : DualPathSequential.t Jasper.feature) (e : exn) :
  Jasper.units_loop use_dw use_dr eps repeat i stages cin cins features = Raise e →
  not_a_check e ∨ framework_check e.
Proof.
  revert i cin cins features.
  induction stages as [|[[cout k] rate] stages IH]; intros i cin cins features;
    cbn [Jasper.units_loop]; [discriminate|].
  destruct (JasperUnit.init _ cout k eps rate repeat use_dw use_dr) as [u|e'] eqn:Hu;
    cbn [mbind Res_bind].
  - apply IH.
  - intros [= <-]. eapply JasperUnit_init_Raise, Hu.
Qed.

Lemma conv1d1_Ok (cin cout s : Z) (bias : bool) :
  conv1d1 cin cout s 1 bias = Ok (Conv1d.mk cin cout 1 s 0 1 1 bias).
Proof. apply Conv1d_init_Ok; [lia| |]; apply Z.mod_1_r. Qed.

Lemma Jasper_init_Raise (channels kernel_sizes : list Z) (eps : float)
    (dropout_rates : list float) (repeat : Z) (use_dw use_dr : bool) (cin ncls : Z)
    (e : exn) :
  Jasper.init channels kernel_sizes eps dropout_rates repeat use_dw use_dr cin ncls = Raise e →
  not_a_check e ∨ framework_check e.
Proof.
  unfold Jasper.init.
  destruct (py_index channels 0) as [c0|e'] eqn:H1; cbn [mbind Res_bind];
    [|intros [= <-]; left; left; eapply py_index_Raise, H1].
  destruct (py_index kernel_sizes 0) as [k0|e'] eqn:H2; cbn [mbind Res_bind];
    [|intros [= <-]; left; left; eapply py_index_Raise, H2].
  destruct (py_index dropout_rates 0) as [d0|e'] eqn:H3; cbn [mbind Res_bind];
    [|intros [= <-]; left; left; eapply py_index_Raise, H3].
  destruct (Block.init use_dw cin c0 k0 2 _ 1 eps d0 relu_inplace) as [b|e'] eqn:Hb;
    cbn [mbind Res_bind]; [|intros [= <-]; right; eapply Block_init_Raise, Hb].
  destruct (Jasper.units_loop _ _ _ _ _ _ _ _ _) as [[features c]|e'] eqn:Hu;
    cbn [mbind Res_bind]; [|intros [= <-]; eapply units_loop_Raise, Hu].
  destruct (JasperFinalBlock.init _ _ _ _ _ _ _) as [fb|e'] eqn:Hf; cbn [mbind Res_bind];
    [|intros [= <-]; eapply JasperFinalBlock_init_Raise, Hf].
  destruct (py_index channels (-1)) as [c1|e'] eqn:H4; cbn [mbind Res_bind];
    [|intros [= <-]; left; left; eapply py_index_Raise, H4].
  rewrite conv1d1_Ok. discriminate.
Qed.

Lemma py_index_Ok {A} (l : list A) (i : Z) :
  (- Z.of_nat (length l) ≤ i < Z.of_nat (length l))%Z → ∃ a, py_index l i = Ok a.
Proof.
  intros Hi. unfold py_index. case_bool_decide as Hpos.
  - destruct (lookup_lt_is_Some_2 l (Z.to_nat i)) as [a ->]; [lia|]. cbn. eauto.
  - rewrite bool_decide_eq_true_2 by lia.
    destruct (lookup_lt_is_Some_2 l (Z.to_nat (Z.of_nat (length l) + i))) as [a ->]; [lia|].
    cbn. eauto.
Qed.

Lemma py_index_elem {A} (l : list A) (i : Z) (a : A) : py_index l i = Ok a → a ∈ l.
Proof.
  unfold py_index, or_raise.
  repeat case_bool_decide; repeat case_match; try discriminate;
    intros [= <-]; eapply list_elem_of_lookup_2; eassumption.
Qed.

Lemma JasperUnit_init_plain_Ok (cin cout k : Z) (eps rate : float) (repeat : Z) :
  valid_rate rate →
  ∃ u, JasperUnit.init (JasperUnit.ChInt cin) cout k eps rate repeat false false = Ok u.
Proof.
  intros Hr. unfold JasperUnit.init. rewrite mask_conv1d1_block_Ok. cbn [mbind Res_bind].
  destruct (body_loop_Ok (seqZ 0 repeat) repeat cin cout k eps rate [] Hr) as [b ->].
  cbn [mbind Res_bind]. rewrite (dropout_opt_Ok rate Hr). cbn [mbind Res_bind]. eauto.
Qed.

Lemma units_loop_plain_Ok (eps : float) (repeat i : Z)
    (stages : list (Z * Z * float)) (cin : Z) (cins : list Z)
    (features : DualPathSequential.t Jasper.feature) :
  Forall (λ st, valid_rate st.2) stages →
  ∃ r, Jasper.units_loop false false eps repeat i stages cin cins features = Ok r.
Proof.
  intros Hst. revert i cin cins features.
  induction Hst as [|[[cout k] rate] stages Hr _ IH]; intros i cin cins features;
    cbn [Jasper.units_loop]; [eauto|].
  destruct (JasperUnit_init_plain_Ok cin cout k eps rate repeat Hr) as [u ->].
  cbn [mbind Res_bind]. apply IH.
Qed.

Lemma JasperFinalBlock_init_Ok (cin : Z) (channels kernel_sizes : list Z) (eps : float)
    (rates : list float) (use_dr : bool) :
  (2 ≤ length channels)%nat → (2 ≤ length kernel_sizes)%nat → (2 ≤ length rates)%nat →
  Forall valid_rate rates →
  ∃ f, JasperFinalBlock.init cin channels kernel_sizes eps rates false use_dr = Ok f.
Proof.
  intros Hc Hk Hr Hv. unfold JasperFinalBlock.init. rewrite Forall_forall in Hv.
  destruct (py_index_Ok channels (-2) ltac:(lia)) as [c2 ->]. cbn [mbind Res_bind].
  destruct (py_index_Ok kernel_sizes (-2) ltac:(lia)) as [k2 ->]. cbn [mbind Res_bind].
  destruct (py_index_Ok rates (-2) ltac:(lia)) as [d2 Hd2]. rewrite Hd2.
  cbn [mbind Res_bind].
  rewrite Block_init_Ok; [|discriminate|eapply Hv, py_index_elem, Hd2].
  cbn [mbind Res_bind].
  destruct (py_index_Ok channels (-1) ltac:(lia)) as [c1 ->]. cbn [mbind Res_bind].
  destruct (py_index_Ok kernel_sizes (-1) ltac:(lia)) as [k1 ->]. cbn [mbind Res_bind].
  destruct (py_index_Ok rates (-1) ltac:(lia)) as [d1 Hd1]. rewrite Hd1.
  cbn [mbind Res_bind].
  rewrite MaskConvBlock1d_init_Ok_1 by (eapply Hv, py_index_elem, Hd1).
  cbn [mbind Res_bind]. eauto.
Qed.

Lemma Forall_slice_1_m2 {A} (P : A → Prop) (l : list A) :
  Forall P l → Forall P (slice_1_m2 l).
Proof. intros H. unfold slice_1_m2. apply Forall_take, Forall_drop, H. Qed.

Lemma Forall_zip_rates {A B} (P : float → Prop) (l1 : list A) (l2 : list B)
    (l3 : list float) :
  Forall P l3 → Forall (λ st, P st.2) (zip (zip l1 l2) l3).
Proof.
  intros H. revert l1 l2. induction H as [|d l3 Hd _ IH]; intros l1 l2.
  - destruct (zip l1 l2); constructor.
  - destruct l1 as [|a l1]; [constructor|]. destruct l2 as [|b l2]; [constructor|].
    cbn. constructor; [exact Hd|apply IH].
Qed.

(** In the plain scheme a model is built from any three tables of two
    entries or more whose dropout rates the framework accepts. *)
Lemma Jasper_init_plain_Ok (channels kernel_sizes : list Z) (eps : float)
    (rates : list float) (repeat : Z) (cin ncls : Z) :
  (2 ≤ length channels)%nat → (2 ≤ length kernel_sizes)%nat → (2 ≤ length rates)%nat →
  Forall valid_rate rates →
  ∃ net, Jasper.init channels kernel_sizes eps rates repeat false false cin ncls = Ok net.
Proof.
  intros Hc Hk Hr Hv. unfold Jasper.init.
  destruct (py_index_Ok channels 0 ltac:(lia)) as [c0 ->]. cbn [mbind Res_bind].
  destruct (py_index_Ok kernel_sizes 0 ltac:(lia)) as [k0 ->]. cbn [mbind Res_bind].
  destruct (py_index_Ok rates 0 ltac:(lia)) as [d0 Hd0]. rewrite Hd0. cbn [mbind Res_bind].
  rewrite Block_init_Ok;
    [|discriminate|eapply (proj1 (Forall_forall _ _) Hv), py_index_elem, Hd0].
  cbn [mbind Res_bind].
  destruct (units_loop_plain_Ok eps repeat 0
              (zip (zip (slice_1_m2 channels) (slice_1_m2 kernel_sizes)) (slice_1_m2 rates))
              c0 []
              (DualPathSequential.add_module [] "init_block"
                 (Jasper.FBlock (block_of false cin c0 k0 2 (k0 / 2) 1 eps d0 relu_inplace)))
              (Forall_zip_rates _ _ _ _ (Forall_slice_1_m2 _ _ Hv)))
    as [[features cu] ->].
  cbn [mbind Res_bind].
  destruct (JasperFinalBlock_init_Ok cu channels kernel_sizes eps rates false
              Hc Hk Hr Hv) as [f ->].
  cbn [mbind Res_bind].
  destruct (py_index_Ok channels (-1) ltac:(lia)) as [c1 ->]. cbn [mbind Res_bind].
  rewrite conv1d1_Ok. cbn [mbind Res_bind]. eauto.
Qed.

Lemma shuffle_error_not_framework :
  ¬ framework_check (ValueError "channels must be divisible by groups").
Proof. unfold framework_check, Dropout.range_error. intros [H|[H|[H|H]]]; discriminate. Qed.

(** C8. [ChannelShuffle1d(channels, groups)] with [channels] not divisible by
    the (non-zero) group count fails with the [ValueError] "channels must be
    divisible by groups", and builds the layer otherwise.  It is the only
    check that the file writes out, not the only validation that its
    constructors perform: [MaskConv1d] runs the constructor of [nn.Conv1d],
    which checks [groups] and the divisibility of both channel counts, and
    the blocks and units build [nn.Dropout], which refuses a rate outside
    [0, 1].  For sizes that can be allocated (positive channel counts and
    kernel sizes) these are the only errors of the two block classes: in [DwsConvBlock1d] the pointwise convolution is built before
    the channel shuffle and refuses what the shuffle would refuse, so the
    error of the shuffle never comes out of a block.  With the default
    [groups = 1] and a dropout rate the framework accepts every block is
    built; [JasperUnit], [JasperFinalBlock] and [Jasper] fail only where
    an argument list is too short or has the wrong type, or with one of the
    framework's errors. *)
Theorem ChannelShuffle1d_init_check (channels groups : Z) :
  groups ≠ 0%Z →
  (channels mod groups ≠ 0 →
   ChannelShuffle1d.init channels groups
   = Raise (ValueError "channels must be divisible by groups"))%Z
  ∧ ((channels mod groups = 0)%Z →
     ChannelShuffle1d.init channels groups = Ok (ChannelShuffle1d.mk groups))
  ∧ ¬ framework_check (ValueError "channels must be divisible by groups")
  ∧ (∀ cin cout k s p d g bias use_mask e,
       positive_sizes [cin; cout; k] →
       MaskConv1d.init cin cout k s p d g bias use_mask = Raise e → framework_check e)
  ∧ (∀ cin cout k s p d g bias use_bn eps act rate e,
       positive_sizes [cin; cout; k] →
       MaskConvBlock1d.init cin cout k s p d g bias use_bn eps act rate = Raise e →
       framework_check e)
  ∧ (∀ cin cout k s p d g bias use_bn eps act rate e,
       positive_sizes [cin; cout; k] →
       DwsConvBlock1d.init cin cout k s p d g bias use_bn eps act rate = Raise e →
       framework_check e)
  ∧ (∀ cin cout k s p d g bias use_bn eps act rate,
       positive_sizes [cin; cout; k] →
       (0 < g)%Z → (cin mod g = 0)%Z → (cout mod g ≠ 0)%Z →
       DwsConvBlock1d.init cin cout k s p d g bias use_bn eps act rate
       = Raise (ValueError "out_channels must be divisible by groups"))
  ∧ (∀ use_dw cin cout k s p d eps rate act,
       positive_sizes [cin; cout; k] → valid_rate rate →
       ∃ b, Block.init use_dw cin cout k s p d eps rate act = Ok b)
  ∧ (∀ cin cout k eps rate repeat use_dw use_dr e,
       positive_sizes (cout :: k :: channels_of cin) →
       JasperUnit.init cin cout k eps rate repeat use_dw use_dr = Raise e →
       not_a_check e ∨ framework_check e)
  ∧ (∀ cin channels kernel_sizes eps dropout_rates use_dw use_dr e,
       positive_sizes (cin :: channels ++ kernel_sizes) →
       JasperFinalBlock.init cin channels kernel_sizes eps dropout_rates use_dw use_dr
       = Raise e → not_a_check e ∨ framework_check e)
  ∧ (∀ channels kernel_sizes eps dropout_rates repeat use_dw use_dr cin ncls e,
       positive_sizes (cin :: ncls :: channels ++ kernel_sizes) →
       Jasper.init channels kernel_sizes eps dropout_rates repeat use_dw use_dr cin ncls
       = Raise e → not_a_check e ∨ framework_check e).
Proof.
  intros Hg.
  split; [|split; [|split; [|split; [|split; [|split; [|split; [|split;
    [|split; [|split]]]]]]]]].
  - intros Hm. unfold ChannelShuffle1d.init, py_mod.
    rewrite bool_decide_eq_false_2 by done. cbn.
    rewrite bool_decide_eq_true_2 by done. reflexivity.
  - intros Hm. unfold ChannelShuffle1d.init, py_mod.
    rewrite bool_decide_eq_false_2 by done. cbn.
    rewrite bool_decide_eq_false_2 by (intros ?; done). reflexivity.
  - apply shuffle_error_not_framework.
  - intros. eapply MaskConv1d_init_Raise; eassumption.
  - intros. eapply MaskConvBlock1d_init_Raise; eassumption.
  - intros. eapply DwsConvBlock1d_init_Raise; eassumption.
  - intros cin cout k s p d g bias use_bn eps act rate Hpos Hg' Hin Hout.
    apply Forall_cons in Hpos as [Hci _].
    unfold DwsConvBlock1d.init, mask_conv1d1.
    rewrite (MaskConv1d_init_Ok cin cin k s p d cin bias true Hci)
      by (apply Z.mod_same; lia).
    cbn [mbind Res_bind]. unfold MaskConv1d.init, Conv1d.init.
    rewrite (bool_decide_eq_false_2 (g ≤ 0)%Z) by lia.
    rewrite (bool_decide_eq_false_2 (cin mod g ≠ 0)%Z) by (intros H; apply H, Hin).
    rewrite (bool_decide_eq_true_2 (cout mod g ≠ 0)%Z) by exact Hout. reflexivity.
  - intros use_dw cin cout k s p d eps rate act Hpos Hr. eexists.
    apply Forall_cons in Hpos as [Hci _].
    apply Block_init_Ok; [intros _; exact Hci|exact Hr].
  - intros. eapply JasperUnit_init_Raise; eassumption.
  - intros. eapply JasperFinalBlock_init_Raise; eassumption.
  - intros. eapply Jasper_init_Raise; eassumption.
Qed.

Lemma ChannelShuffle1d_init_check_witness :
  ChannelShuffle1d.init 5 2 = Raise (ValueError "channels must be divisible by groups")
  ∧ ChannelShuffle1d.init 6 2 = Ok (ChannelShuffle1d.mk 2).
Proof.
  split.
  - apply (proj1 (ChannelShuffle1d_init_check 5 2 ltac:(lia))). vm_compute. discriminate.
  - apply (proj1 (proj2 (ChannelShuffle1d_init_check 6 2 ltac:(lia)))). reflexivity.
Defined.

(** Layer constructors that refuse their arguments without the check of
    [ChannelShuffle1d]: a depthwise-separable block of 5 output channels in
    2 groups fails in the pointwise convolution, before the shuffle is
    built; a block with a dropout rate of 1.5 and a masked convolution of 4
    input channels in 3 groups fail in the framework. *)
Lemma ChannelShuffle1d_init_not_the_only_check :
  DwsConvBlock1d.init 4 5 3 1 1 1 2 false true 1e-3 relu_inplace 0
  = Raise (ValueError "out_channels must be divisible by groups")
  ∧ MaskConvBlock1d.init 4 4 3 1 1 1 1 false true 1e-3 relu_inplace 1.5
    = Raise (ValueError "dropout probability has to be between 0 and 1")
  ∧ MaskConv1d.init 4 4 3 1 1 1 3 false true
    = Raise (ValueError "in_channels must be divisible by groups").
Proof. repeat split; vm_compute; reflexivity. Qed.

(** ** The module tree of a Jasper model *)

Lemma tree_all_NN (Q : nn_module → bool) c w b (ch : list (string * nn_module)) :
  tree_all Q (NN c w b ch) = Q (NN c w b ch) && forallb (λ nc, tree_all Q nc.2) ch.
Proof.
  cbn [tree_all]. f_equal.
  induction ch as [|[n m] ch IH]; [reflexivity|].
  cbn [forallb snd]. rewrite <- IH. reflexivity.
Qed.

Lemma named_modules_NN (prefix : string) c w b (ch : list (string * nn_module)) :
  named_modules prefix (NN c w b ch)
  = (prefix, NN c w b ch)
    :: mjoin ((λ nc, named_modules (sub_prefix prefix nc.1) nc.2) <$> ch).
Proof.
  cbn [named_modules]. f_equal.
  induction ch as [|[n m] ch IH]; [reflexivity|].
  cbn [fmap list_fmap mjoin list_join fst snd]. f_equal. exact IH.
Qed.

(** Induction on module trees: the children of a node satisfy the property. *)
Fixpoint nn_module_tree_ind (Q : nn_module → Prop)
    (step : ∀ c w b ch, Forall (λ nc, Q nc.2) ch → Q (NN c w b ch))
    (m : nn_module) : Q m :=
  match m with
  | NN c w b ch =>
      step c w b ch
        ((fix go (ch : list (string * nn_module)) : Forall (λ nc, Q nc.2) ch :=
            match ch with
            | [] => @List.Forall_nil _ _
            | nc :: ch' =>
                @List.Forall_cons _ _ nc ch'
                  (nn_module_tree_ind Q step nc.2) (go ch')
            end) ch)
  end.

Lemma named_modules_all (Q : nn_module → bool) (m : nn_module) :
  ∀ prefix, tree_all Q m = true → Forall (λ nm, Q nm.2 = true) (named_modules prefix m).
Proof.
  induction m as [c w b ch IH] using nn_module_tree_ind. intros prefix.
  rewrite tree_all_NN, named_modules_NN, andb_true_iff, forallb_forall.
  intros [Hq Hch]. constructor; [exact Hq|].
  apply Forall_join, Forall_fmap, Forall_forall. intros nc Hnc.
  rewrite Forall_forall in IH. apply (IH nc Hnc). apply Hch.
  apply list_elem_of_In, Hnc.
Qed.

Lemma tree_all_container {M} (Q : nn_module → bool) (c : cls) (f : M → nn_module)
    (l : list (string * M)) :
  Q (NN c false false []) = true → (∀ w b ch ch', Q (NN c w b ch) = Q (NN c w b ch')) →
  (∀ m, tree_all Q (f m) = true) →
  tree_all Q (container_module c f l) = true.
Proof.
  intros Hq Hch Hf. unfold container_module. rewrite tree_all_NN, andb_true_iff.
  split; [rewrite <- Hq; apply Hch|].
  apply forallb_forall. intros nc Hnc.
  apply list_elem_of_In, list_elem_of_fmap in Hnc as ([n m] & -> & _). apply Hf.
Qed.

Lemma mask_block_module_ok (b : MaskConvBlock1d.t) :
  tree_all not_conv2d (mask_block_module b) = true.
Proof. destruct b as [? ? ? ? [?|] [?|] [?|]]; reflexivity. Qed.

Lemma dws_block_module_ok (b : DwsConvBlock1d.t) :
  tree_all not_conv2d (dws_block_module b) = true.
Proof. destruct b as [? ? ? ? ? ? [?|] [?|] [?|] [?|]]; reflexivity. Qed.

Lemma block_module_ok (b : Block.t) : tree_all not_conv2d (block_module b) = true.
Proof. destruct b; [apply mask_block_module_ok | apply dws_block_module_ok]. Qed.

Lemma unit_module_ok (u : JasperUnit.t) : tree_all not_conv2d (unit_module u) = true.
Proof.
  unfold unit_module. rewrite tree_all_NN, andb_true_iff. split; [reflexivity|].
  rewrite forallb_app. cbn [forallb snd]. rewrite !andb_true_iff. repeat split.
  - destruct (JasperUnit.identity_block u) as [b|bs].
    + apply mask_block_module_ok.
    + apply tree_all_container; [reflexivity | reflexivity | apply mask_block_module_ok].
  - apply tree_all_container; [reflexivity | reflexivity | apply block_module_ok].
  - destruct (JasperUnit.dropout u); reflexivity.
Qed.

Lemma final_block_module_ok (f : JasperFinalBlock.t) :
  tree_all not_conv2d (final_block_module f) = true.
Proof.
  unfold final_block_module. rewrite tree_all_NN. cbn [forallb snd].
  rewrite block_module_ok, mask_block_module_ok. reflexivity.
Qed.

Lemma jasper_module_ok (net : Jasper.t) : tree_all not_conv2d (jasper_module net) = true.
Proof.
  unfold jasper_module. rewrite tree_all_NN. cbn [forallb snd].
  rewrite tree_all_container; [reflexivity | reflexivity | reflexivity |].
  intros [b|u|f]; [apply block_module_ok | apply unit_module_ok | apply final_block_module_ok].
Qed.

Lemma init_module_other {P G} (kaiming_uniform_ : P → G → P * G) (constant_ : P → Z → P)
    (nm : string * nn_module) (st : param_state) :
  isinstance nm.2 C_Conv2d = false → init_module kaiming_uniform_ constant_ nm st = st.
Proof. destruct nm as [name m]. unfold init_module. cbn. intros ->. reflexivity. Qed.

(** C6. [_init_params] changes parameters of [nn.Conv2d] modules only: for
    such a module the weight is redrawn by [kaiming_uniform_] and the bias is
    set to 0, any other module is left as it is.  No module of a Jasper model
    is an [nn.Conv2d] (the convolutions are [MaskConv1d] and [nn.Conv1d]), so
    [_init_params] leaves the parameters and the random generator of every
    Jasper model unchanged. *)
Theorem Jasper_init_params_unchanged {P G} (kaiming_uniform_ : P → G → P * G)
    (constant_ : P → Z → P) (net : Jasper.t) (st : @param_state P G) :
  _init_params kaiming_uniform_ constant_ net st = st
  ∧ Forall (λ nm, isinstance nm.2 C_Conv2d = false) (named_modules "" (jasper_module net))
  ∧ (∀ nm, isinstance nm.2 C_Conv2d = false →
           init_module kaiming_uniform_ constant_ nm st = st)
  ∧ (∀ w b g,
       init_module kaiming_uniform_ constant_ ("conv", NN C_Conv2d true true [])
         ([("conv.weight", w); ("conv.bias", b)], g)
       = ([("conv.weight", (kaiming_uniform_ w g).1); ("conv.bias", constant_ b 0%Z)],
          (kaiming_uniform_ w g).2)).
Proof.
  assert (Forall (λ nm, isinstance nm.2 C_Conv2d = false)
            (named_modules "" (jasper_module net))) as Hall.
  { eapply Forall_impl; [apply (named_modules_all not_conv2d), jasper_module_ok|].
    intros nm. unfold not_conv2d. apply negb_true_iff. }
  split; [|split; [exact Hall|split]].
  - unfold _init_params. induction Hall as [|nm l Hnm _ IH]; [reflexivity|].
    cbn [foldl]. rewrite init_module_other by exact Hnm. exact IH.
  - intros nm. apply init_module_other.
  - intros w b g. vm_compute.
    destruct (kaiming_uniform_ w g) as [w' g']. reflexivity.
Qed.

(** ** get_jasper: the version string and the per-stage tables *)

Lemma is_digit_not_space (c : ascii) : is_digit c = true → is_space c = false.
Proof. destruct c as [[|] [|] [|] [|] [|] [|] [|] [|]]; (discriminate || reflexivity). Qed.

Lemma is_digit_not_x (c : ascii) : is_digit c = true → Ascii.eqb c "x" = false.
Proof. destruct c as [[|] [|] [|] [|] [|] [|] [|] [|]]; (discriminate || reflexivity). Qed.

Lemma is_digit_no_sign {A} (c : ascii) (l : list ascii) (f g : list ascii → A) (h : A) :
  is_digit c = true →
  match c :: l with
  | "+"%char :: l' => f l'
  | "-"%char :: l' => g l'
  | _ => h
  end = h.
Proof. destruct c as [[|] [|] [|] [|] [|] [|] [|] [|]]; (discriminate || reflexivity). Qed.

Lemma string_of_uint_digits (d : Decimal.uint) : digits (NilEmpty.string_of_uint d).
Proof. unfold digits. induction d; cbn; constructor; done. Qed.

Lemma decimal_digits (n : N) : digits (decimal n) ∧ decimal n ≠ EmptyString.
Proof.
  unfold decimal, NilZero.string_of_uint.
  destruct (N.to_uint n) as [| d | d | d | d | d | d | d | d | d | d ]; split;
    solve [ discriminate | apply string_of_uint_digits | repeat constructor ].
Qed.

Lemma split_on_digits (s : string) : digits s → split_on "x" s = [s].
Proof.
  unfold digits. induction s as [|c s IH]; cbn; [reflexivity|].
  intros Hs. apply Forall_cons in Hs as [Hc Hs].
  rewrite (is_digit_not_x c Hc), (IH Hs). reflexivity.
Qed.

Lemma split_on_version (s1 s2 : string) :
  digits s1 → digits s2 → split_on "x" (s1 +:+ "x" +:+ s2) = [s1; s2].
Proof.
  unfold digits. intros H1 H2. induction s1 as [|c s1 IH].
  - change (EmptyString +:+ "x" +:+ s2) with (String "x" s2). cbn.
    rewrite (split_on_digits s2 H2). reflexivity.
  - change (String c s1 +:+ "x" +:+ s2) with (String c (s1 +:+ "x" +:+ s2)).
    apply Forall_cons in H1 as [Hc H1]. cbn.
    rewrite (is_digit_not_x c Hc), (IH H1). reflexivity.
Qed.

Lemma drop_spaces_digit (c : ascii) (l : list ascii) :
  is_digit c = true → drop_spaces (c :: l) = c :: l.
Proof. intros Hc. cbn. rewrite (is_digit_not_space c Hc). reflexivity. Qed.

Lemma digits_ok_digits (b : bool) (l : list ascii) :
  Forall (λ c, is_digit c = true) l → (l = [] → b = true) → digits_ok b l = true.
Proof.
  intros Hl. revert b. induction Hl as [|c l Hc _ IH]; intros b Hb; cbn.
  - apply Hb. reflexivity.
  - rewrite Hc. apply IH. reflexivity.
Qed.

Lemma filter_digits (l : list ascii) :
  Forall (λ c, is_digit c = true) l → filter (λ c, is_digit c = true) l = l.
Proof.
  induction 1 as [|c l Hc _ IH]; [reflexivity|].
  rewrite filter_cons_True by exact Hc. rewrite IH. reflexivity.
Qed.

Lemma py_int_decimal (n : N) : py_int (decimal n) = Ok (Z.of_N n).
Proof.
  destruct (decimal_digits n) as [Hd Hne]. unfold digits in Hd. unfold py_int.
  destruct (list_ascii_of_string (decimal n)) as [|c l] eqn:Hl.
  { exfalso. apply Hne. rewrite <- (string_of_list_ascii_of_string (decimal n)), Hl.
    reflexivity. }
  pose proof Hd as Hd'. apply Forall_cons in Hd' as [Hc _].
  rewrite (drop_spaces_digit c l Hc).
  assert (reverse (drop_spaces (reverse (c :: l))) = c :: l) as ->.
  { assert (Forall (λ c, is_digit c = true) (reverse (c :: l))) as Hr
      by (apply Forall_reverse, Hd).
    destruct (reverse (c :: l)) as [|c' l'] eqn:Hrev.
    - apply (f_equal length) in Hrev. rewrite length_reverse in Hrev. discriminate.
    - apply Forall_cons in Hr as [Hc' _].
      rewrite (drop_spaces_digit c' l' Hc'), <- Hrev. apply reverse_involutive. }
  rewrite (is_digit_no_sign c l _ _ _ Hc).
  rewrite (digits_ok_digits false (c :: l) Hd) by discriminate.
  rewrite (filter_digits (c :: l) Hd), <- Hl, string_of_list_ascii_of_string.
  unfold decimal. rewrite NilZero.usu.
  - rewrite DecimalN.Unsigned.of_to. f_equal. lia.
  - destruct n as [|p]; [discriminate|]. apply DecimalPos.Unsigned.to_uint_nonnil.
Qed.

Lemma stage_repeat_Ok (m : Z) :
  (int64_min ≤ m ≤ int64_max)%Z → stage_repeat m = Ok [1; m; m; m; m; m; 1; 1]%Z.
Proof.
  intros Hm. unfold stage_repeat. rewrite bool_decide_eq_true_2 by exact Hm. cbn.
  replace (1 * m)%Z with m by lia.
  rewrite (wrap64_small m Hm). reflexivity.
Qed.

Lemma expand_stage_repeat {A} (a0 a1 a2 a3 a4 a5 a6 a7 : A) (m : Z) :
  expand [a0; a1; a2; a3; a4; a5; a6; a7] [1; m; m; m; m; m; 1; 1]%Z
  = expand_stages (Z.to_nat m) [a0; a1; a2; a3; a4; a5; a6; a7].
Proof.
  unfold expand, expand_stages. cbn.
  change (Z.to_nat 1) with 1%nat. cbn.
  rewrite !app_nil_r, <- !app_assoc. reflexivity.
Qed.

(** The arguments computed for the version string of [B] blocks and [R]
    repeats. *)
Lemma get_jasper_args_decimal (B R : N) :
  (Z.of_N B / 5 ≤ int64_max)%Z →
  get_jasper_args (version_string B R)
  = Ok {| a_channels := expand_stages (N.to_nat (B / 5)) channels_per_stage;
          a_kernel_sizes := expand_stages (N.to_nat (B / 5)) kernel_sizes_per_stage;
          a_dropout_rates := expand_stages (N.to_nat (B / 5)) dropout_rates_per_stage;
          a_repeat := Z.of_N R;
          a_use_dw := false;
          a_use_dr := false |}.
Proof.
  intros HB.
  unfold get_jasper_args, version_string.
  rewrite split_on_version by apply decimal_digits.
  cbn [mapM]. rewrite !py_int_decimal. cbn -[expand stage_repeat].
  rewrite stage_repeat_Ok; cycle 1.
  { split; [|exact HB]. unfold int64_min.
    apply Z.le_trans with 0%Z; [lia|]. apply Z.div_pos; lia. }
  cbn -[expand]. unfold channels_per_stage, kernel_sizes_per_stage, dropout_rates_per_stage.
  rewrite !expand_stage_repeat.
  replace (Z.to_nat (Z.of_N B / 5)) with (N.to_nat (B / 5)); [reflexivity|].
  change 5%Z with (Z.of_N 5). rewrite <- N2Z.inj_div.
  generalize (B / 5)%N. intros m. lia.
Qed.

Lemma length_expand_stages {A} (n : nat) (a0 a1 a2 a3 a4 a5 a6 a7 : A) :
  (2 ≤ length (expand_stages n [a0; a1; a2; a3; a4; a5; a6; a7]))%nat.
Proof. unfold expand_stages. rewrite !length_app. cbn. lia. Qed.

Lemma Forall_expand_stages {A} (P : A → Prop) (n : nat) (table : list A) :
  Forall P table → Forall P (expand_stages n table).
Proof.
  intros H. unfold expand_stages. rewrite !Forall_app. repeat split.
  - apply Forall_take, H.
  - apply Forall_join, Forall_fmap.
    eapply Forall_impl; [apply Forall_take, Forall_drop, H|].
    intros a Ha. cbn. apply Forall_replicate, Ha.
  - apply Forall_drop, H.
Qed.

(** The model of a version string is built without error. *)
Lemma get_jasper_build_Ok (B R : N) (eps : float) (cin ncls : Z) :
  (Z.of_N B / 5 ≤ int64_max)%Z →
  ∃ a net,
    get_jasper_args (version_string B R) = Ok a
    ∧ Jasper.init (a_channels a) (a_kernel_sizes a) eps (a_dropout_rates a) (a_repeat a)
        (a_use_dw a) (a_use_dr a) cin ncls = Ok net
    ∧ a_use_dw a = false ∧ a_use_dr a = false ∧ a_repeat a = Z.of_N R
    ∧ Forall odd_kernel (a_kernel_sizes a).
Proof.
  intros HB. eexists. 
  destruct (Jasper_init_plain_Ok
              (expand_stages (N.to_nat (B / 5)) channels_per_stage)
              (expand_stages (N.to_nat (B / 5)) kernel_sizes_per_stage) eps
              (expand_stages (N.to_nat (B / 5)) dropout_rates_per_stage)
              (Z.of_N R) cin ncls) as [net Hnet];
    try apply length_expand_stages.
  { apply Forall_expand_stages. repeat constructor. }
  exists net. split; [apply get_jasper_args_decimal, HB|]. cbn -[expand_stages].
  split; [exact Hnet|]. repeat split.
  apply Forall_expand_stages. repeat constructor; unfold odd_kernel; norm_pow2; done.
Qed.

(** C5. For a version string ["BxR"] made of the decimal numerals of [B] and
    [R], [get_jasper] computes [main_stage_repeat = B // 5] (a value that
    fits the int64 array [stage_repeat]) and expands the 8-entry channel,
    kernel-size and dropout tables by repeating the entries of the five
    middle stages [main_stage_repeat] times, the first stage and the last
    two stages staying singletons; [repeat] is [R]; the depthwise and the
    dense-residual flags are [False], in particular for 5x3, 10x4, 10x5. *)
Theorem get_jasper_args_version (B R : N) :
  (Z.of_N B / 5 ≤ int64_max)%Z →
  let main_stage_repeat := N.to_nat (B / 5) in
  get_jasper_args (version_string B R)
  = Ok {| a_channels := expand_stages main_stage_repeat channels_per_stage;
          a_kernel_sizes := expand_stages main_stage_repeat kernel_sizes_per_stage;
          a_dropout_rates := expand_stages main_stage_repeat dropout_rates_per_stage;
          a_repeat := Z.of_N R;
          a_use_dw := false;
          a_use_dr := false |}
  ∧ Forall (λ v, (λ a, (a_use_dw a, a_use_dr a)) <$> get_jasper_args v = Ok (false, false))
      ["5x3"; "10x4"; "10x5"].
Proof.
  intros HB n. split; [apply get_jasper_args_decimal, HB|].
  repeat constructor.
Qed.

Lemma get_jasper_args_version_witness :
  get_jasper_args "10x4"
  = Ok {| a_channels := [256; 256; 256; 384; 384; 512; 512; 640; 640; 768; 768; 896; 1024]%Z;
          a_kernel_sizes := [11; 11; 11; 13; 13; 17; 17; 21; 21; 25; 25; 29; 1]%Z;
          a_dropout_rates := [0.2; 0.2; 0.2; 0.2; 0.2; 0.2; 0.2; 0.3; 0.3; 0.3; 0.3; 0.4; 0.4]%float;
          a_repeat := 4;
          a_use_dw := false;
          a_use_dr := false |}.
Proof.
  exact (proj1 (get_jasper_args_version 10 4 ltac:(vm_compute; discriminate))).
Defined.

(** ** get_jasper: the check of [model_name] *)


(** ** The models of the named versions

    The embedding of the constructors reproduces the parameter counts that
    [_test] asserts for 64 audio features and 29 classes. *)

Lemma calc_width_named (download_model : Jasper.t → string → string → Res Jasper.t)
    (root : string) :
  let kw := mk_kwargs (Some 64%Z) (Some 29%Z) in
  _calc_width <$> (jasper5x3 download_model false root kw).1 = Ok 107681053%Z
  ∧ _calc_width <$> (jasper10x4 download_model false root kw).1 = Ok 261393693%Z
  ∧ _calc_width <$> (jasper10x5 download_model false root kw).1 = Ok 322286877%Z.
Proof. repeat split; vm_compute; reflexivity. Qed.

(** ** Row-major offsets *)

Lemma ravel3 (B C T b c t : nat) :
  Tensor.ravel [B; C; T] [b; c; t] = ((b * C + c) * T + t)%nat.
Proof. cbn. lia. Qed.

Lemma offset3_div (C T b c t : nat) :
  (c < C)%nat → (t < T)%nat → (((b * C + c) * T + t) / (C * T) = b)%nat.
Proof.
  intros Hc Ht.
  assert ((c + 1) * T ≤ C * T)%nat by (apply Nat.mul_le_mono_r; lia).
  symmetry. apply (Nat.div_unique _ _ _ (c * T + t)); lia.
Qed.

Lemma offset3_mod (C T b c t : nat) :
  (t < T)%nat → (((b * C + c) * T + t) mod T = t)%nat.
Proof.
  intros Ht. symmetry. apply (Nat.mod_unique _ _ (b * C + c)); lia.
Qed.

Lemma offset3_lt (B C T b c t : nat) :
  (b < B)%nat → (c < C)%nat → (t < T)%nat → ((b * C + c) * T + t < B * C * T)%nat.
Proof.
  intros Hb Hc Ht.
  assert ((c + 1) * T ≤ C * T)%nat by (apply Nat.mul_le_mono_r; lia).
  assert ((b + 1) * (C * T) ≤ B * (C * T))%nat by (apply Nat.mul_le_mono_r; lia).
  lia.
Qed.

Lemma get3 {V} (x : Tensor.t V) (B C T b c t : nat) :
  Tensor.shape x = [B; C; T] → (b < B)%nat → (c < C)%nat → (t < T)%nat →
  Tensor.get x [b; c; t] = Tensor.data x !! ((b * C + c) * T + t)%nat.
Proof.
  intros Hs Hb Hc Ht. unfold Tensor.get. rewrite Hs, ravel3.
  rewrite bool_decide_eq_true_2 by (repeat constructor; assumption). reflexivity.
Qed.

(** ** MaskConv1d.forward: the mask *)

Lemma make_mask_fits (B C T : nat) (x_len : list Z) :
  length x_len = B →
  mask_fits (Z.of_nat <$> [B; C; T]) (MaskConv1d.make_mask (Z.of_nat T) x_len) = true.
Proof.
  intros Hl. unfold mask_fits, MaskConv1d.make_mask. cbn.
  rewrite length_fmap, Hl, andb_true_iff. split.
  - apply bool_decide_eq_true_2. left. reflexivity.
  - apply forallb_forall. intros row Hrow.
    apply list_elem_of_In, list_elem_of_fmap in Hrow as (l & -> & _).
    apply bool_decide_eq_true_2. left. rewrite length_fmap, length_seqZ. lia.
Qed.


(** ** Multi-indices and offsets *)

Lemma numel_cons (d : nat) (s : list nat) : Tensor.numel (d :: s) = (d * Tensor.numel s)%nat.
Proof. reflexivity. Qed.

Lemma ravel_lt (s idx : list nat) :
  Forall2 lt idx s → (Tensor.ravel s idx < Tensor.numel s)%nat.
Proof.
  induction 1 as [|i d idx s Hi _ IH]; [cbn; lia|].
  cbn [Tensor.ravel]. rewrite numel_cons.
  assert ((i + 1) * Tensor.numel s ≤ d * Tensor.numel s)%nat
    by (apply Nat.mul_le_mono_r; lia).
  lia.
Qed.

Lemma unravel_ravel (s idx : list nat) :
  Forall2 lt idx s → Tensor.unravel s (Tensor.ravel s idx) = idx.
Proof.
  induction 1 as [|i d idx s Hi Hidx IH]; [reflexivity|].
  cbn [Tensor.ravel Tensor.unravel].
  pose proof (ravel_lt s idx Hidx) as Hr.
  assert ((i * Tensor.numel s + Tensor.ravel s idx) / Tensor.numel s = i)%nat as ->.
  { symmetry. apply (Nat.div_unique _ _ _ (Tensor.ravel s idx)); lia. }
  assert ((i * Tensor.numel s + Tensor.ravel s idx) mod Tensor.numel s
          = Tensor.ravel s idx)%nat as ->.
  { symmetry. apply (Nat.mod_unique _ _ i); lia. }
  rewrite IH. reflexivity.
Qed.

Lemma unravel_lt (s : list nat) (k : nat) :
  (k < Tensor.numel s)%nat → Forall2 lt (Tensor.unravel s k) s.
Proof.
  revert k. induction s as [|d s IH]; intros k Hk; [constructor|].
  rewrite numel_cons in Hk. cbn [Tensor.unravel].
  assert (0 < Tensor.numel s)%nat as Hn by (destruct (Tensor.numel s); lia).
  constructor.
  - apply Nat.Div0.div_lt_upper_bound. lia.
  - apply IH, Nat.mod_upper_bound. lia.
Qed.

Lemma ravel_unravel (s : list nat) (k : nat) :
  (k < Tensor.numel s)%nat → Tensor.ravel s (Tensor.unravel s k) = k.
Proof.
  revert k. induction s as [|d s IH]; intros k Hk; [cbn in *; lia|].
  rewrite numel_cons in Hk. cbn [Tensor.unravel Tensor.ravel].
  assert (0 < Tensor.numel s)%nat as Hn by (destruct (Tensor.numel s); lia).
  rewrite IH by (apply Nat.mod_upper_bound; lia).
  pose proof (Nat.div_mod_eq k (Tensor.numel s)). lia.
Qed.

Lemma swap12_lt (a b c d A B C D : nat) :
  Forall2 lt [a; b; c; d] [A; B; C; D] → Forall2 lt [a; c; b; d] [A; C; B; D].
Proof.
  intros H. repeat match goal with H : Forall2 _ _ _ |- _ => inversion H; subst; clear H end.
  repeat constructor; assumption.
Qed.

Lemma unravel4 (A B C D k : nat) :
  ∃ a b c d, Tensor.unravel [A; B; C; D] k = [a; b; c; d].
Proof. cbn. eauto. Qed.

(** ** The index permutation of the channel shuffle *)

Lemma shuffle_index_lt (g cpg j : nat) :
  (0 < g)%nat → (j < g * cpg)%nat → (shuffle_index (g * cpg) g j < g * cpg)%nat.
Proof.
  intros Hg Hj. unfold shuffle_index.
  assert (g * cpg / g = cpg)%nat as E1 by (rewrite Nat.mul_comm; apply Nat.div_mul; lia).
  rewrite E1.
  assert (j mod g < g)%nat by (apply Nat.mod_upper_bound; lia).
  assert (j / g < cpg)%nat by (apply Nat.Div0.div_lt_upper_bound; lia).
  assert ((j mod g + 1) * cpg ≤ g * cpg)%nat by (apply Nat.mul_le_mono_r; lia).
  lia.
Qed.

Lemma shuffle_index_inverse (g cpg j : nat) :
  (0 < g)%nat → (0 < cpg)%nat → (j < g * cpg)%nat →
  shuffle_index (g * cpg) cpg (shuffle_index (g * cpg) g j) = j.
Proof.
  intros Hg Hc Hj. unfold shuffle_index.
  assert (g * cpg / g = cpg)%nat as E1 by (rewrite Nat.mul_comm; apply Nat.div_mul; lia).
  assert (g * cpg / cpg = g)%nat as E2 by (apply Nat.div_mul; lia).
  rewrite E1, E2.
  assert (j / g < cpg)%nat as Hq by (apply Nat.Div0.div_lt_upper_bound; lia).
  assert ((j mod g * cpg + j / g) mod cpg = j / g)%nat as ->.
  { symmetry. apply (Nat.mod_unique _ _ (j mod g)); lia. }
  assert ((j mod g * cpg + j / g) / cpg = j mod g)%nat as ->.
  { symmetry. apply (Nat.div_unique _ _ _ (j / g)); lia. }
  pose proof (Nat.div_mod_eq j g). lia.
Qed.

(** ** Views *)

Lemma prodZ_of_nat (s : list nat) : prodZ (Z.of_nat <$> s) = Z.of_nat (Tensor.numel s).
Proof.
  induction s as [|d s IH]; [reflexivity|].
  cbn [fmap list_fmap prodZ foldr]. rewrite numel_cons, Nat2Z.inj_mul.
  fold (prodZ (Z.of_nat <$> s)). rewrite IH. reflexivity.
Qed.

Lemma view_shape_of_nat (n : nat) (s : list nat) :
  Tensor.numel s = n → view_shape (Z.of_nat n) (Z.of_nat <$> s) = Ok (Z.of_nat <$> s).
Proof.
  intros Hn. unfold view_shape.
  assert (forallb (λ d, bool_decide (0 ≤ d)%Z) (Z.of_nat <$> s) = true) as ->.
  { apply forallb_forall. intros d Hd.
    apply list_elem_of_In, list_elem_of_fmap in Hd as (k & -> & _).
    apply bool_decide_eq_true_2. lia. }
  rewrite bool_decide_eq_true_2; [reflexivity|].
  rewrite prodZ_of_nat, Hn. reflexivity.
Qed.

Lemma to_nat_of_nat_list (s : list nat) : Z.to_nat <$> (Z.of_nat <$> s) = s.
Proof.
  induction s as [|d s IH]; [reflexivity|].
  cbn [fmap list_fmap]. rewrite Nat2Z.id. f_equal. exact IH.
Qed.


(** ** Tensors of values

    The statements about the entries of tensors are made for the instance
    [value_ops], for any type of entries and any numerical kernels. *)

Section Values.
Context {V : Type}.
Variable zero : V.
Variable conv1d_v : Conv1d.t → Tensor.t V → Res (Tensor.t V).
Variable batch_norm_v : BatchNorm1d.t → Tensor.t V → Res (Tensor.t V).
Variable relu_v : ReLU.t → Tensor.t V → Tensor.t V.
Variable dropout_v : Dropout.t → Tensor.t V → Tensor.t V.
Variable add_v : Tensor.t V → Tensor.t V → Res (Tensor.t V).
Variable stack_sum_v : list (Tensor.t V) → Res (Tensor.t V).

#[local] Instance values : TensorOps (Tensor.t V) :=
  value_ops zero conv1d_v batch_norm_v relu_v dropout_v add_v stack_sum_v.

(** *** MaskConv1d.forward: the masked input *)

Lemma mask_at_make_mask (T : nat) (x_len : list Z) (b t : nat) (l : Z) :
  x_len !! b = Some l → (t < T)%nat →
  mask_at (MaskConv1d.make_mask (Z.of_nat T) x_len) b t = bool_decide (l ≤ Z.of_nat t)%Z.
Proof.
  intros Hl Ht. unfold mask_at.
  assert (MaskConv1d.make_mask (Z.of_nat T) x_len
            !! (if bool_decide (length (MaskConv1d.make_mask (Z.of_nat T) x_len) = 1%nat)
                then 0%nat else b)
          = Some ((λ t, bool_decide (l ≤ t)%Z) <$> seqZ 0 (Z.of_nat T))) as ->.
  { assert (length (MaskConv1d.make_mask (Z.of_nat T) x_len) = length x_len) as ->
      by apply length_fmap.
    case_bool_decide as Hone.
    - assert (b = 0%nat) as -> by (apply lookup_lt_Some in Hl; lia).
      unfold MaskConv1d.make_mask. rewrite list_lookup_fmap, Hl. reflexivity.
    - unfold MaskConv1d.make_mask. rewrite list_lookup_fmap, Hl. reflexivity. }
  cbn. rewrite length_fmap, length_seqZ.
  case_bool_decide as Hone.
  - assert (t = 0%nat) as -> by lia.
    rewrite list_lookup_fmap, lookup_seqZ_lt by lia. reflexivity.
  - rewrite list_lookup_fmap, lookup_seqZ_lt by lia. cbn.
    rewrite ?Z.add_0_l. reflexivity.
Qed.

(** C2. For a batch [x] of shape [(B, C, T)] with one declared length per
    sample, [MaskConv1d.forward] with [use_mask] enabled applies the
    convolution to a tensor [xm] of the same shape in which, for every sample
    [b], every channel and every time position [t], the entry is zero when
    [t] is at or beyond the length declared for [b], and is the entry of [x]
    otherwise. *)
Theorem MaskConv1d_forward_masks (c : Conv1d.t) (x : Tensor.t V) (x_len : list Z)
    (B C T : nat) :
  Tensor.shape x = [B; C; T] → Tensor.wf x → length x_len = B →
  ∃ xm : Tensor.t V,
    MaskConv1d.forward (MaskConv1d.mk c true) x (LTensor x_len)
    = (ls ← mapM (MaskConv1d.update_len c) x_len; y ← conv1d_v c xm; Ok (y, LTensor ls))
    ∧ Tensor.shape xm = [B; C; T] ∧ Tensor.wf xm
    ∧ ∀ (b ch t : nat) (l : Z),
        x_len !! b = Some l → (ch < C)%nat → (t < T)%nat →
        Tensor.get xm [b; ch; t]
        = if bool_decide (l ≤ Z.of_nat t)%Z then Some zero else Tensor.get x [b; ch; t].
Proof.
  intros Hs Hwf Hl.
  set (mask := MaskConv1d.make_mask (Z.of_nat T) x_len).
  set (xm := Tensor.mk [B; C; T]
               (imap (λ k v, if mask_at mask (k / (C * T)) (k mod T) then zero else v)
                  (Tensor.data x))).
  exists xm. split; [|split; [reflexivity|split]].
  - unfold MaskConv1d.forward, size_at. cbn. rewrite Hs. cbn.
    unfold masked_fill_v. rewrite Hs.
    rewrite (make_mask_fits B C T x_len Hl). cbn. fold mask. fold xm.
    destruct (mapM (MaskConv1d.update_len c) x_len) as [ls|e]; cbn; [|reflexivity].
    destruct (conv1d_v c xm); reflexivity.
  - unfold Tensor.wf, xm. cbn [Tensor.data Tensor.shape].
    rewrite length_imap. rewrite Hwf, Hs. reflexivity.
  - intros b ch t l Hb Hch Ht.
    assert (b < B)%nat as HbB by (apply lookup_lt_Some in Hb; lia).
    rewrite (get3 xm B C T) by (done || lia).
    rewrite (get3 x B C T) by (done || lia).
    unfold xm. cbn [Tensor.data]. rewrite list_lookup_imap.
    rewrite offset3_div, offset3_mod by lia.
    unfold mask. rewrite (mask_at_make_mask T x_len b t l Hb Ht).
    destruct (lookup_lt_is_Some_2 (Tensor.data x) ((b * C + ch) * T + t)) as [v Hv].
    { rewrite Hwf, Hs. cbn. pose proof (offset3_lt B C T b ch t HbB Hch Ht). lia. }
    rewrite Hv. cbn. case_bool_decide; reflexivity.
Qed.

(** *** ChannelShuffle1d.forward *)

Lemma view_v_of_nat (x : Tensor.t V) (s : list nat) :
  Tensor.numel s = Tensor.numel (Tensor.shape x) →
  view_v x (Z.of_nat <$> s) = Ok (Tensor.mk s (Tensor.data x)).
Proof.
  intros Hn. unfold view_v. rewrite (view_shape_of_nat _ s Hn). cbn.
  rewrite to_nat_of_nat_list. reflexivity.
Qed.

Lemma shuffle_forward_value (x : Tensor.t V) (B g cpg T : nat) :
  Tensor.shape x = [B; g * cpg; T]%nat → (0 < g)%nat →
  ChannelShuffle1d.forward (ChannelShuffle1d.mk (Z.of_nat g)) x
  = Ok (Tensor.mk [B; g * cpg; T]%nat (shuffled zero B g cpg T (Tensor.data x))).
Proof.
  intros Hs Hg. unfold ChannelShuffle1d.forward. cbn [size values value_ops].
  rewrite Hs. cbn [fmap list_fmap ChannelShuffle1d.unpack3 mbind Res_bind
                   ChannelShuffle1d.groups].
  unfold py_floordiv. rewrite bool_decide_eq_false_2 by lia.
  cbn [mbind Res_bind].
  assert (Z.of_nat (g * cpg) / Z.of_nat g = Z.of_nat cpg)%Z as ->.
  { rewrite Nat2Z.inj_mul, Z.mul_comm. apply Z.div_mul. lia. }
  cbn [view values value_ops].
  change [Z.of_nat B; Z.of_nat g; Z.of_nat cpg; Z.of_nat T]
    with (Z.of_nat <$> [B; g; cpg; T]).
  rewrite view_v_of_nat by (rewrite Hs; cbn; lia).
  cbn [mbind Res_bind transpose_contiguous values value_ops].
  unfold transpose_contiguous_v. cbn [Tensor.shape Tensor.data].
  change (transpose_shape 1 2 [B; g; cpg; T]) with (Ok [B; cpg; g; T] : Res (list nat)).
  cbn [mbind Res_bind].
  change [Z.of_nat B; Z.of_nat (g * cpg); Z.of_nat T]
    with (Z.of_nat <$> [B; (g * cpg)%nat; T]).
  rewrite view_v_of_nat by (cbn; lia).
  reflexivity.
Qed.

Lemma shuffled_length (B g cpg T : nat) (d : list V) :
  length (shuffled zero B g cpg T d) = Tensor.numel [B; cpg; g; T].
Proof. unfold shuffled. rewrite length_fmap, length_seq. reflexivity. Qed.

Lemma shuffled_lookup (B g cpg T : nat) (d : list V) (k : nat) :
  (k < Tensor.numel [B; cpg; g; T])%nat →
  shuffled zero B g cpg T d !! k
  = Some (default zero
            (d !! Tensor.ravel [B; g; cpg; T]
                    (swap 1 2 (Tensor.unravel [B; cpg; g; T] k)))).
Proof.
  intros Hk. unfold shuffled. rewrite list_lookup_fmap, lookup_seq_lt by exact Hk.
  reflexivity.
Qed.

Lemma shuffled_get (x : Tensor.t V) (B g cpg T b j t : nat) :
  Tensor.shape x = [B; g * cpg; T]%nat → Tensor.wf x → (0 < g)%nat →
  (b < B)%nat → (j < g * cpg)%nat → (t < T)%nat →
  Tensor.get (Tensor.mk [B; g * cpg; T]%nat (shuffled zero B g cpg T (Tensor.data x)))
    [b; j; t]
  = Tensor.get x [b; shuffle_index (g * cpg) g j; t].
Proof.
  intros Hs Hwf Hg Hb Hj Ht.
  pose proof (shuffle_index_lt g cpg j Hg Hj) as Hsj.
  rewrite (get3 _ B (g * cpg) T b j t) by (done || lia).
  rewrite (get3 x B (g * cpg) T) by (done || lia).
  cbn [Tensor.data].
  pose proof (offset3_lt B (g * cpg) T b j t Hb Hj Ht) as Hk.
  rewrite shuffled_lookup by (cbn; lia).
  assert (j mod g < g)%nat as Hr by (apply Nat.mod_upper_bound; lia).
  assert (j / g < cpg)%nat as Hq by (apply Nat.Div0.div_lt_upper_bound; lia).
  pose proof (Nat.div_mod_eq j g) as Hdm.
  assert (((b * (g * cpg) + j) * T + t)%nat
          = Tensor.ravel [B; cpg; g; T] [b; j / g; j mod g; t]) as ->.
  { cbn. lia. }
  rewrite unravel_ravel by (repeat constructor; assumption).
  change (swap 1 2 [b; j / g; j mod g; t]) with [b; j mod g; j / g; t].
  assert (Tensor.ravel [B; g; cpg; T] [b; j mod g; j / g; t]
          = ((b * (g * cpg) + shuffle_index (g * cpg) g j) * T + t)%nat) as ->.
  { unfold shuffle_index.
    assert (g * cpg / g = cpg)%nat as -> by (rewrite Nat.mul_comm; apply Nat.div_mul; lia).
    cbn. lia. }
  destruct (lookup_lt_is_Some_2 (Tensor.data x)
              ((b * (g * cpg) + shuffle_index (g * cpg) g j) * T + t)) as [v Hv].
  { rewrite Hwf, Hs. cbn.
    pose proof (offset3_lt B (g * cpg) T b (shuffle_index (g * cpg) g j) t Hb Hsj Ht). lia. }
  rewrite Hv. reflexivity.
Qed.

Lemma shuffled_shuffled (B g cpg T : nat) (d : list V) :
  length d = Tensor.numel [B; g; cpg; T] →
  shuffled zero B cpg g T (shuffled zero B g cpg T d) = d.
Proof.
  intros Hd. apply list_eq. intros i.
  destruct (decide (i < Tensor.numel [B; g; cpg; T])%nat) as [Hi|Hi].
  - rewrite shuffled_lookup by exact Hi.
    destruct (unravel4 B g cpg T i) as (a & b & c & e & Hu).
    pose proof (unravel_lt [B; g; cpg; T] i Hi) as Hlt. rewrite Hu in Hlt.
    pose proof (ravel_unravel [B; g; cpg; T] i Hi) as Hru. rewrite Hu in Hru.
    rewrite Hu. change (swap 1 2 [a; b; c; e]) with [a; c; b; e].
    apply swap12_lt in Hlt.
    rewrite shuffled_lookup by (apply ravel_lt, Hlt).
    rewrite unravel_ravel by exact Hlt.
    change (swap 1 2 [a; c; b; e]) with [a; b; c; e]. rewrite Hru.
    destruct (lookup_lt_is_Some_2 d i) as [v Hv]; [lia|].
    rewrite Hv. reflexivity.
  - rewrite !(proj2 (lookup_ge_None _ _)); [reflexivity | lia |].
    rewrite shuffled_length. lia.
Qed.

(** C4. For [c] channels in [g] groups, [c] divisible by [g], the forward pass
    of [ChannelShuffle1d] moves whole channels: the entry of the output at
    batch index [b], channel [j] and time [t] is the entry of the input at
    [b], channel [shuffle_index c g j] and [t], the same channel map for
    every [b] and [t].  The channel map is a bijection of the channel
    indices, with inverse [shuffle_index c (c // g)]; and the shuffle for
    [(c, c // g)] applied to the result of the shuffle for [(c, g)] gives the
    input back. *)
Theorem ChannelShuffle1d_forward_permutation (x : Tensor.t V) (B C T g : nat) :
  Tensor.shape x = [B; C; T] → Tensor.wf x → (0 < C)%nat → (0 < g)%nat → (C mod g = 0)%nat →
  let s1 := ChannelShuffle1d.mk (Z.of_nat g) in
  let s2 := ChannelShuffle1d.mk (Z.of_nat C / Z.of_nat g) in
  ChannelShuffle1d.init (Z.of_nat C) (Z.of_nat g) = Ok s1
  ∧ ChannelShuffle1d.init (Z.of_nat C) (Z.of_nat C / Z.of_nat g) = Ok s2
  ∧ (∃ y : Tensor.t V,
       ChannelShuffle1d.forward s1 x = Ok y
       ∧ Tensor.shape y = [B; C; T] ∧ Tensor.wf y
       ∧ (∀ b j t : nat, (b < B)%nat → (j < C)%nat → (t < T)%nat →
            Tensor.get y [b; j; t] = Tensor.get x [b; shuffle_index C g j; t])
       ∧ ChannelShuffle1d.forward s2 y = Ok x)
  ∧ (∀ j : nat, (j < C)%nat →
       (shuffle_index C g j < C)%nat
       ∧ shuffle_index C (C / g) (shuffle_index C g j) = j
       ∧ shuffle_index C g (shuffle_index C (C / g) j) = j)
  ∧ (∀ i j : nat, (i < C)%nat → (j < C)%nat →
       shuffle_index C g i = shuffle_index C g j → i = j)
  ∧ (∀ i : nat, (i < C)%nat → ∃ j : nat, (j < C)%nat ∧ shuffle_index C g j = i).
Proof.
  intros Hs Hwf HC Hg Hmod s1 s2.
  set (cpg := (C / g)%nat).
  assert (C = g * cpg)%nat as HCg by (apply Nat.Div0.div_exact; exact Hmod).
  clearbody cpg.
  assert (0 < cpg)%nat as Hcpg by (destruct cpg; lia).
  assert (Z.of_nat C / Z.of_nat g = Z.of_nat cpg)%Z as HZ.
  { rewrite HCg, Nat2Z.inj_mul, Z.mul_comm. apply Z.div_mul. lia. }
  assert (∀ j, (j < C)%nat →
            (shuffle_index C g j < C)%nat
            ∧ shuffle_index C cpg (shuffle_index C g j) = j
            ∧ shuffle_index C g (shuffle_index C cpg j) = j) as Hinv.
  { intros j Hj. rewrite HCg in *. split; [apply shuffle_index_lt; lia|]. split.
    - apply shuffle_index_inverse; lia.
    - rewrite (Nat.mul_comm g cpg). apply shuffle_index_inverse; lia. }
  unfold s2. rewrite HZ. clear s2.
  split; [|split; [|split; [|split; [exact Hinv|split]]]].
  - unfold ChannelShuffle1d.init, py_mod. rewrite bool_decide_eq_false_2 by lia. cbn.
    rewrite bool_decide_eq_false_2; [reflexivity|].
    intros Hne. apply Hne. rewrite <- Nat2Z.inj_mod, Hmod. reflexivity.
  - unfold ChannelShuffle1d.init, py_mod. rewrite bool_decide_eq_false_2 by lia. cbn.
    rewrite bool_decide_eq_false_2; [reflexivity|].
    intros Hne. apply Hne. rewrite HCg, Nat2Z.inj_mul. apply Z.mod_mul. lia.
  - exists (Tensor.mk [B; C; T] (shuffled zero B g cpg T (Tensor.data x))).
    split; [|split; [reflexivity|split; [|split]]].
    + unfold s1. rewrite HCg in Hs |- *. apply shuffle_forward_value; assumption.
    + unfold Tensor.wf. cbn [Tensor.data Tensor.shape]. rewrite shuffled_length, HCg.
      cbn. lia.
    + intros b j t Hb Hj Ht. rewrite HCg in Hs, Hj |- *. apply shuffled_get; assumption.
    + rewrite (shuffle_forward_value _ B cpg g T);
        [|cbn; rewrite HCg; f_equal; f_equal; lia | exact Hcpg].
      cbn [Tensor.data]. rewrite shuffled_shuffled.
      * destruct x as [sx dx]. cbn in Hs |- *. rewrite Hs, HCg, (Nat.mul_comm cpg g). reflexivity.
      * rewrite Hwf, Hs, HCg. cbn. lia.
  - intros i j Hi Hj Heq.
    rewrite <- (proj1 (proj2 (Hinv i Hi))), <- (proj1 (proj2 (Hinv j Hj))), Heq.
    reflexivity.
  - intros i Hi. exists (shuffle_index C cpg i). split; [|apply Hinv, Hi].
    rewrite HCg in Hi |- *. rewrite (Nat.mul_comm g cpg). apply shuffle_index_lt; lia.
Qed.
End Values.


Lemma MaskConv1d_forward_masks_witness :
  let ops := value_ops 0%Z (λ _ x, Ok x) (λ _ x, Ok x) (λ _ x, x) (λ _ x, x)
               (λ x _, Ok x) (λ _, Raise RuntimeError) in
  let x := Tensor.mk [2; 2; 3]%nat [1; 2; 3; 4; 5; 6; 7; 8; 9; 10; 11; 12]%Z in
  ∃ xm : Tensor.t Z,
    MaskConv1d.forward (H := ops) (MaskConv1d.mk (Conv1d.mk 2 2 1 1 0 1 1 false) true) x
      (LTensor [2; 0]%Z)
    = Ok (xm, LTensor [2; 0]%Z)
    ∧ Tensor.get xm [0; 1; 2]%nat = Some 0%Z
    ∧ Tensor.get xm [0; 1; 1]%nat = Some 5%Z
    ∧ Tensor.get xm [1; 0; 0]%nat = Some 0%Z.
Proof.
  intros ops x.
  destruct (MaskConv1d_forward_masks 0%Z (λ _ x, Ok x) (λ _ x, Ok x) (λ _ x, x) (λ _ x, x)
              (λ x _, Ok x) (λ _, Raise RuntimeError)
              (Conv1d.mk 2 2 1 1 0 1 1 false) x [2; 0]%Z 2 2 3
              eq_refl eq_refl eq_refl) as (xm & Hfwd & _ & _ & Hget).
  exists xm. split; [exact Hfwd|]. split; [|split].
  - exact (Hget 0 1 2 2%Z eq_refl ltac:(lia) ltac:(lia))%nat.
  - exact (Hget 0 1 1 2%Z eq_refl ltac:(lia) ltac:(lia))%nat.
  - exact (Hget 1 0 0 0%Z eq_refl ltac:(lia) ltac:(lia))%nat.
Defined.

Lemma ChannelShuffle1d_forward_permutation_witness :
  let ops := value_ops 0%Z (λ _ x, Ok x) (λ _ x, Ok x) (λ _ x, x) (λ _ x, x)
               (λ x _, Ok x) (λ _, Raise RuntimeError) in
  let x := Tensor.mk [2; 6; 2]%nat (Z.of_nat <$> seq 0 24) in
  ∃ y : Tensor.t Z,
    ChannelShuffle1d.forward (H := ops) (ChannelShuffle1d.mk 3) x = Ok y
    ∧ Tensor.get y [1; 4; 0]%nat = Tensor.get x [1; 3; 0]%nat
    ∧ ChannelShuffle1d.forward (H := ops) (ChannelShuffle1d.mk 2) y = Ok x.
Proof.
  intros ops x.
  destruct (ChannelShuffle1d_forward_permutation 0%Z (λ _ x, Ok x) (λ _ x, Ok x)
              (λ _ x, x) (λ _ x, x) (λ x _, Ok x) (λ _, Raise RuntimeError)
              x 2 6 2 3 eq_refl eq_refl ltac:(lia) ltac:(lia) eq_refl)
    as (_ & _ & (y & H1 & _ & _ & H2 & H3) & _).
  exists y. split; [exact H1|]. split; [|exact H3].
  apply (H2 1 4 0)%nat; lia.
Defined.

(** ** The mode of a built model *)

Lemma train_list_id {M} (f : M → M) (l : list (string * M)) :
  Forall (λ nm, f nm.2 = nm.2) l → prod_map id f <$> l = l.
Proof.
  induction 1 as [|[n m] l Hm _ IH]; [reflexivity|].
  cbn in Hm |- *. rewrite Hm, IH. reflexivity.
Qed.

Lemma mask_block_of_train_true (ci co k s p d g : Z) (bias use_bn : bool) (eps rate : float)
    (act : activation_t) :
  MaskConvBlock1d.train true (mask_block_of ci co k s p d g bias use_bn eps act rate)
  = mask_block_of ci co k s p d g bias use_bn eps act rate.
Proof.
  unfold MaskConvBlock1d.train, mask_block_of.
  destruct use_bn, (rate_nonzero rate); reflexivity.
Qed.

Lemma block_of_train_true (use_dw : bool) (ci co k s p d : Z) (eps rate : float)
    (act : activation_t) :
  Block.train true (block_of use_dw ci co k s p d eps rate act)
  = block_of use_dw ci co k s p d eps rate act.
Proof.
  unfold block_of. destruct use_dw; cbn [Block.train].
  - unfold DwsConvBlock1d.train, dws_block_of. destruct (rate_nonzero rate); reflexivity.
  - rewrite mask_block_of_train_true. reflexivity.
Qed.

Lemma body_loop_train_true (use_dw : bool) (idxs : list Z) (repeat cin cout k : Z)
    (eps rate : float) (body body' : DualPathSequential.t Block.t) :
  Forall (λ nm, Block.train true nm.2 = nm.2) body →
  JasperUnit.body_loop use_dw idxs repeat cin cout k eps rate body = Ok body' →
  Forall (λ nm, Block.train true nm.2 = nm.2) body'.
Proof.
  revert cin body. induction idxs as [|i idxs IH]; intros cin body Hb;
    cbn [JasperUnit.body_loop].
  - intros [= <-]. exact Hb.
  - destruct (Block.init use_dw cin cout k 1 (k / 2) 1 eps _ _) as [b|e] eqn:Hinit;
      [|discriminate].
    cbn [mbind Res_bind]. apply IH.
    unfold DualPathSequential.add_module. apply Forall_app. split; [exact Hb|].
    constructor; [|constructor]. cbn [snd].
    apply Block_init_inv in Hinit as ->. apply block_of_train_true.
Qed.

Lemma JasperUnit_init_train_true (ch : JasperUnit.channels_arg) (cout k : Z)
    (eps rate : float) (repeat : Z) (use_dw use_dr : bool) (u : JasperUnit.t) :
  JasperUnit.init ch cout k eps rate repeat use_dw use_dr = Ok u →
  JasperUnit.train true u = u.
Proof.
  unfold JasperUnit.init.
  match goal with |- context [mbind _ ?m] =>
    destruct m as [[idb c]|e] eqn:Hid; [|discriminate] end.
  cbn [mbind Res_bind].
  destruct (JasperUnit.body_loop _ _ _ _ _ _ _ _ _) as [body|e] eqn:Hbody; [|discriminate].
  cbn [mbind Res_bind].
  destruct (if rate_nonzero rate then _ else _) as [dr|e] eqn:Hd; [|discriminate].
  cbn [mbind Res_bind]. intros [= <-].
  apply body_loop_train_true in Hbody; [|constructor].
  apply dropout_opt_inv in Hd as (-> & _).
  unfold JasperUnit.train.
  cbn [JasperUnit.use_dropout JasperUnit.use_dr JasperUnit.identity_block JasperUnit.body
       JasperUnit.activ JasperUnit.dropout].
  unfold DualPathSequential.train. rewrite (train_list_id _ body Hbody).
  assert (match idb with
          | JasperUnit.IdPlain b => JasperUnit.IdPlain (MaskConvBlock1d.train true b)
          | JasperUnit.IdDense bs =>
              JasperUnit.IdDense
                (DualPathParallelConcurent.train MaskConvBlock1d.train true bs)
          end = idb) as ->.
  { destruct use_dr, ch as [c'|cs]; try discriminate.
    - unfold JasperUnit.dense_identity in Hid.
      destruct (dense_identity_loop_Ok 0 cs cout eps []) as (bs & Hbs & Hall).
      rewrite Hbs in Hid. cbn [mbind Res_bind app] in Hid.
      destruct (py_index cs (-1)); [|discriminate]. cbn in Hid. injection Hid as <- _.
      unfold DualPathParallelConcurent.train. f_equal. apply train_list_id.
      clear -Hall. induction Hall as [|m c' bs cs Hm _ IH]; constructor; [|exact IH].
      rewrite Hm. apply mask_block_of_train_true.
    - rewrite mask_conv1d1_block_Ok in Hid. cbn in Hid. injection Hid as <- _.
      rewrite mask_block_of_train_true. reflexivity. }
  destruct (rate_nonzero rate); reflexivity.
Qed.

Lemma units_loop_train_true (use_dw use_dr : bool) (eps : float) (repeat i : Z)
    (stages : list (Z * Z * float)) (cin cout : Z) (cins : list Z)
    (features features' : DualPathSequential.t Jasper.feature) :
  Forall (λ nm, Jasper.feature_train true nm.2 = nm.2) features →
  Jasper.units_loop use_dw use_dr eps repeat i stages cin cins features
  = Ok (features', cout) →
  Forall (λ nm, Jasper.feature_train true nm.2 = nm.2) features'.
Proof.
  revert i cin cins features.
  induction stages as [|[[c k] rate] stages IH]; intros i cin cins features Hf;
    cbn [Jasper.units_loop].
  - intros [= <- <-]. exact Hf.
  - destruct (JasperUnit.init _ c k eps rate repeat use_dw use_dr) as [u|e] eqn:Hu;
      [|discriminate].
    cbn [mbind Res_bind]. apply IH.
    unfold DualPathSequential.add_module. apply Forall_app. split; [exact Hf|].
    constructor; [|constructor]. cbn [snd Jasper.feature_train].
    rewrite (JasperUnit_init_train_true _ _ _ _ _ _ _ _ _ Hu). reflexivity.
Qed.

Lemma JasperFinalBlock_init_train_true (cin : Z) (channels kernel_sizes : list Z)
    (eps : float) (rates : list float) (use_dw use_dr : bool) (f : JasperFinalBlock.t) :
  JasperFinalBlock.init cin channels kernel_sizes eps rates use_dw use_dr = Ok f →
  JasperFinalBlock.train true f = f.
Proof.
  unfold JasperFinalBlock.init.
  destruct (py_index channels (-2)) as [c2|e]; [|discriminate]. cbn [mbind Res_bind].
  destruct (py_index kernel_sizes (-2)) as [k2|e]; [|discriminate]. cbn [mbind Res_bind].
  destruct (py_index rates (-2)) as [d2|e]; [|discriminate]. cbn [mbind Res_bind].
  destruct (Block.init _ _ _ _ _ _ _ _ _ _) as [b1|e] eqn:Hb1; [|discriminate].
  cbn [mbind Res_bind].
  destruct (py_index channels (-1)) as [c1|e]; [|discriminate]. cbn [mbind Res_bind].
  destruct (py_index kernel_sizes (-1)) as [k1|e]; [|discriminate]. cbn [mbind Res_bind].
  destruct (py_index rates (-1)) as [d1|e]; [|discriminate]. cbn [mbind Res_bind].
  destruct (MaskConvBlock1d.init _ _ _ _ _ _ _ _ _ _ _ _) as [b2|e] eqn:Hb2; [|discriminate].
  cbn [mbind Res_bind]. intros [= <-].
  apply Block_init_inv in Hb1 as ->. apply MaskConvBlock1d_init_inv in Hb2 as ->.
  unfold JasperFinalBlock.train.
  cbn [JasperFinalBlock.use_dr JasperFinalBlock.conv1 JasperFinalBlock.conv2].
  rewrite block_of_train_true, mask_block_of_train_true. reflexivity.
Qed.

(** The constructor returns the model in training mode. *)
Lemma Jasper_init_train_true (channels kernel_sizes : list Z) (eps : float)
    (rates : list float) (repeat : Z) (use_dw use_dr : bool) (cin ncls : Z) (net : Jasper.t) :
  Jasper.init channels kernel_sizes eps rates repeat use_dw use_dr cin ncls = Ok net →
  Jasper.train true net = net.
Proof.
  unfold Jasper.init.
  destruct (py_index channels 0) as [c0|e]; [|discriminate]. cbn [mbind Res_bind].
  destruct (py_index kernel_sizes 0) as [k0|e]; [|discriminate]. cbn [mbind Res_bind].
  destruct (py_index rates 0) as [d0|e]; [|discriminate]. cbn [mbind Res_bind].
  destruct (Block.init _ _ _ _ _ _ _ _ _ _) as [b0|e] eqn:Hb0; [|discriminate].
  cbn [mbind Res_bind].
  destruct (Jasper.units_loop _ _ _ _ _ _ _ _ _) as [[fs cu]|e] eqn:Hunits; [|discriminate].
  cbn [mbind Res_bind].
  destruct (JasperFinalBlock.init _ _ _ _ _ _ _) as [f|e] eqn:Hf; [|discriminate].
  cbn [mbind Res_bind].
  destruct (py_index channels (-1)) as [cl|e]; [|discriminate]. cbn [mbind Res_bind].
  destruct (conv1d1 cl ncls 1 1 true) as [out|e]; [|discriminate]. cbn [mbind Res_bind].
  intros [= <-].
  apply units_loop_train_true in Hunits.
  2:{ constructor; [|constructor]. cbn [snd Jasper.feature_train].
      apply Block_init_inv in Hb0 as ->. rewrite block_of_train_true. reflexivity. }
  unfold Jasper.train.
  cbn [Jasper.in_size Jasper.num_classes Jasper.features Jasper.output].
  unfold DualPathSequential.train. rewrite train_list_id; [reflexivity|].
  unfold DualPathSequential.add_module. apply Forall_app. split; [exact Hunits|].
  constructor; [|constructor]. cbn [snd Jasper.feature_train].
  rewrite (JasperFinalBlock_init_train_true _ _ _ _ _ _ _ _ Hf). reflexivity.
Qed.

(** ** Shapes through the model *)

Lemma update_len_Ok (c : Conv1d.t) (l : Z) :
  valid_conv c → ∃ l', MaskConv1d.update_len c l = Ok l'.
Proof.
  unfold valid_conv, MaskConv1d.update_len.
  destruct c as [ci co k s p d g b]; simpl.
  intros (Hk & Hs & Hp & Hd). norm_pow2.
  assert (0 ≤ d * (k - 1) ≤ 2147483647 * 2147483646)%Z as Hdk by nia.
  rewrite !scalar64_small by (unfold int64_min, int64_max; norm_pow2; lia). cbn.
  rewrite bool_decide_eq_false_2 by lia. eauto.
Qed.

Lemma mapM_update_len_Ok (c : Conv1d.t) (ls : list Z) :
  valid_conv c →
  ∃ ls', mapM (MaskConv1d.update_len c) ls = Ok ls' ∧ length ls' = length ls.
Proof.
  intros Hc. induction ls as [|l ls (ls' & IH & Hlen)]; [exists []; done|].
  destruct (update_len_Ok c l Hc) as [l' Hl'].
  exists (l' :: ls'). cbn. rewrite Hl'. cbn. rewrite IH. cbn. rewrite Hlen. done.
Qed.

Lemma make_mask_fits_shape (B C t : Z) (x_len : list Z) :
  (0 ≤ t)%Z → lens_fit B x_len →
  mask_fits [B; C; t] (MaskConv1d.make_mask t x_len) = true.
Proof.
  intros Ht Hfit. unfold mask_fits, MaskConv1d.make_mask.
  rewrite length_fmap, andb_true_iff. split.
  - apply bool_decide_eq_true_2. destruct Hfit as [H|H]; [left; exact H|right; lia].
  - apply forallb_forall. intros row Hrow.
    apply list_elem_of_In, list_elem_of_fmap in Hrow as (l & -> & _).
    apply bool_decide_eq_true_2. left. rewrite length_fmap, length_seqZ. lia.
Qed.

(** A masked convolution on shapes: the time axis follows the output-size
    rule of the convolution, the batch and its lengths stay aligned. *)
Lemma MaskConv1d_forward_shape (c : Conv1d.t) (B t : Z) (x_len : list Z) :
  valid_conv c → (0 ≤ t)%Z → lens_fit B x_len →
  ∃ x_len', length x_len' = length x_len ∧
    MaskConv1d.forward (MaskConv1d.mk c true) [B; Conv1d.in_channels c; t] (LTensor x_len)
    = (t' ← conv1d_out_size c t; Ok ([B; Conv1d.out_channels c; t'], LTensor x_len')).
Proof.
  intros Hc Ht Hfit.
  destruct (mapM_update_len_Ok c x_len Hc) as (ls' & Hls & Hlen).
  exists ls'. split; [exact Hlen|].
  unfold MaskConv1d.forward, size_at.
  cbn -[mask_fits MaskConv1d.make_mask mapM conv1d_out_size].
  rewrite (make_mask_fits_shape B (Conv1d.in_channels c) t x_len Ht Hfit).
  cbn -[mapM conv1d_out_size]. rewrite Hls. cbn -[conv1d_out_size].
  rewrite bool_decide_eq_true_2 by reflexivity.
  destruct (conv1d_out_size c t); reflexivity.
Qed.

(** A block in the mode [tr]: batch normalization refuses a single value
    per channel in training mode. *)
Lemma MaskConvBlock1d_forward_shape (tr : bool) (cin cout k s p d : Z) (eps rate : float)
    (act : activation_t) (B t : Z) (x_len : list Z) :
  valid_conv (Conv1d.mk cin cout k s p d 1 false) → (0 ≤ t)%Z → lens_fit B x_len →
  ∃ x_len', length x_len' = length x_len ∧
    MaskConvBlock1d.forward
      (MaskConvBlock1d.train tr
         (mask_block_of cin cout k s p d 1 false true eps act rate))
      [B; cin; t] (LTensor x_len)
    = (t' ← conv1d_out_size (Conv1d.mk cin cout k s p d 1 false) t;
       if tr && bool_decide (B * t' = 1)%Z then Raise batch_norm_training_error
       else Ok ([B; cout; t'], LTensor x_len')).
Proof.
  intros Hc Ht Hfit.
  destruct (MaskConv1d_forward_shape _ B t x_len Hc Ht Hfit) as (ls' & Hlen & Hfwd).
  exists ls'. split; [exact Hlen|].
  unfold MaskConvBlock1d.forward, MaskConvBlock1d.train, mask_block_of.
  cbn [MaskConvBlock1d.conv MaskConvBlock1d.use_bn MaskConvBlock1d.bn
       MaskConvBlock1d.activate MaskConvBlock1d.activ MaskConvBlock1d.use_dropout
       MaskConvBlock1d.dropout].
  cbn [Conv1d.in_channels Conv1d.out_channels] in Hfwd.
  rewrite Hfwd.
  destruct (conv1d_out_size _ t) as [t'|e]; [|reflexivity].
  cbn [mbind Res_bind fmap option_fmap option_map attr or_raise F_batch_norm shape_ops].
  unfold batch_norm_shape.
  cbn [BatchNorm1d.train BatchNorm1d.training BatchNorm1d.num_features].
  destruct (tr && bool_decide (B * t' = 1)%Z); [reflexivity|].
  rewrite bool_decide_eq_true_2 by reflexivity. cbn [mbind Res_bind].
  destruct act as [f|], (rate_nonzero rate); reflexivity.
Qed.

Lemma conv1d_out_size_same (cin cout k : Z) (t : Z) :
  odd_kernel k → (1 ≤ t)%Z →
  conv1d_out_size (Conv1d.mk cin cout k 1 (k / 2) 1 1 false) t = Ok t.
Proof.
  unfold odd_kernel. intros [Hk Hodd] Ht. unfold conv1d_out_size. cbn.
  pose proof (Z.div_mod k 2 ltac:(lia)) as Hdm.
  rewrite bool_decide_eq_true_2 by lia. f_equal.
  rewrite Z.div_1_r. lia.
Qed.

Lemma valid_conv_same (cin cout k : Z) :
  odd_kernel k → valid_conv (Conv1d.mk cin cout k 1 (k / 2) 1 1 false).
Proof.
  unfold odd_kernel, valid_conv. intros [Hk Hodd]. cbn. norm_pow2.
  pose proof (Z.div_mod k 2 ltac:(lia)). lia.
Qed.

(** A block of stride 1 with an odd kernel and padding [kernel // 2] keeps
    the time axis. *)
Lemma batch_fits_false (tr : bool) (B t : Z) :
  batch_fits tr B t → tr && bool_decide (B * t = 1)%Z = false.
Proof.
  unfold batch_fits. intros H. destruct tr; [|reflexivity].
  cbn. apply bool_decide_eq_false_2, H. reflexivity.
Qed.

Lemma same_block_keeps_time (tr : bool) (cin cout k : Z) (eps rate : float)
    (act : activation_t) :
  odd_kernel k →
  keeps_time tr MaskConvBlock1d.forward
    (MaskConvBlock1d.train tr
       (mask_block_of cin cout k 1 (k / 2) 1 1 false true eps act rate)) cin cout.
Proof.
  intros Hk B t x_len Ht Hbn Hfit.
  destruct (MaskConvBlock1d_forward_shape tr cin cout k 1 (k / 2) 1 eps rate act B t x_len
              (valid_conv_same cin cout k Hk) ltac:(lia) Hfit) as (ls' & Hlen & Hfwd).
  exists ls'. rewrite Hfwd, (conv1d_out_size_same cin cout k t Hk Ht).
  cbn [mbind Res_bind]. rewrite (batch_fits_false tr B t Hbn). done.
Qed.

Lemma DualPathSequential_forward_app {M T}
    (fwd : M → T → len_arg T → Res (T * len_arg T)) (l1 l2 : list (string * M))
    (x : T) (x_len : len_arg T) :
  DualPathSequential.forward fwd (l1 ++ l2) x x_len
  = ('(y, y_len) ← DualPathSequential.forward fwd l1 x x_len;
     DualPathSequential.forward fwd l2 y y_len).
Proof.
  revert x x_len. induction l1 as [|[n m] l1 IH]; intros x x_len; cbn; [reflexivity|].
  destruct (fwd m x x_len) as [[y y_len]|e]; cbn; [apply IH|reflexivity].
Qed.

Lemma lens_fit_length (B : Z) (l l' : list Z) :
  length l' = length l → lens_fit B l → lens_fit B l'.
Proof. unfold lens_fit. intros ->. done. Qed.

Lemma chain_keeps_time {M} (tr : bool)
    (fwd : M → list Z → len_arg (list Z) → Res (list Z * len_arg (list Z)))
    (c1 c2 : Z) (l : list (string * M)) :
  chain tr fwd c1 c2 l → keeps_time tr (DualPathSequential.forward fwd) l c1 c2.
Proof.
  induction 1 as [c|c1 c2 c3 name m rest Hm _ IH]; intros B t x_len Ht Hbn Hfit.
  - exists x_len. done.
  - destruct (Hm B t x_len Ht Hbn Hfit) as (l1 & Hfwd & Hlen).
    destruct (IH B t l1 Ht Hbn (lens_fit_length B _ _ Hlen Hfit)) as (l2 & Hfwd2 & Hlen2).
    exists l2. cbn. rewrite Hfwd. cbn. rewrite Hfwd2. split; [reflexivity|congruence].
Qed.

Lemma body_loop_chain (tr : bool) (idxs : list Z) (repeat cin cout k : Z)
    (eps rate : float) (body body' : DualPathSequential.t Block.t) :
  odd_kernel k →
  JasperUnit.body_loop false idxs repeat cin cout k eps rate body = Ok body' →
  ∃ bs, body' = body ++ bs
        ∧ chain tr Block.forward cin (match idxs with [] => cin | _ => cout end)
            (DualPathSequential.train Block.train tr bs).
Proof.
  intros Hk. revert cin body.
  induction idxs as [|i idxs IH]; intros cin body; cbn [JasperUnit.body_loop].
  - intros [= <-]. exists []. rewrite app_nil_r. split; [reflexivity|constructor].
  - destruct (Block.init false cin cout k 1 (k / 2) 1 eps _ _) as [b|e] eqn:Hb;
      [|discriminate].
    cbn [mbind Res_bind]. intros Hloop. apply IH in Hloop as (bs & -> & Hbs).
    eexists. unfold DualPathSequential.add_module. rewrite <- app_assoc.
    split; [reflexivity|]. cbn. econstructor.
    + apply Block_init_inv in Hb as ->. cbn [block_of Block.train].
      apply (same_block_keeps_time tr cin cout k), Hk.
    + destruct idxs; exact Hbs.
Qed.

Lemma broadcast_same (s : list Z) : broadcast s s = Ok s.
Proof.
  unfold broadcast.
  assert (∀ l, broadcast_rev l l = Ok l) as ->.
  { induction l as [|x l IH]; [reflexivity|].
    cbn. rewrite bool_decide_eq_true_2 by reflexivity. cbn. rewrite IH. reflexivity. }
  cbn. rewrite reverse_involutive. reflexivity.
Qed.

(** A unit of the plain scheme with at least one body block keeps the time
    axis. *)
Lemma JasperUnit_keeps_time (tr : bool) (cin cout k : Z) (eps rate : float) (repeat : Z)
    (u : JasperUnit.t) :
  odd_kernel k → (1 ≤ repeat)%Z →
  JasperUnit.init (JasperUnit.ChInt cin) cout k eps rate repeat false false = Ok u →
  keeps_time tr JasperUnit.forward (JasperUnit.train tr u) cin cout.
Proof.
  intros Hk Hrep. unfold JasperUnit.init.
  rewrite mask_conv1d1_block_Ok. cbn [mbind Res_bind].
  destruct (JasperUnit.body_loop _ _ _ _ _ _ _ _ _) as [body|e] eqn:Hbody;
    cbn [mbind Res_bind]; [|discriminate].
  destruct (if rate_nonzero rate then _ else _) as [dr|e] eqn:Hd; [|discriminate].
  cbn [mbind Res_bind]. intros [= <-].
  apply dropout_opt_inv in Hd as (-> & _).
  apply (body_loop_chain tr) in Hbody as (bs & -> & Hbs); [|exact Hk].
  rewrite seqZ_cons in Hbs by lia.
  apply chain_keeps_time in Hbs.
  intros B t x_len Ht Hbn Hfit. unfold JasperUnit.forward, JasperUnit.train.
  cbn [JasperUnit.use_dr JasperUnit.identity_block JasperUnit.body JasperUnit.activ
       JasperUnit.use_dropout JasperUnit.dropout app mbind Res_bind].
  assert (odd_kernel 1) as H1 by (unfold odd_kernel; norm_pow2; done).
  destruct (same_block_keeps_time tr cin cout 1 eps 0 None H1 B t x_len Ht Hbn Hfit)
    as (li & Hid & _).
  change (1 / 2)%Z with 0%Z in Hid. rewrite Hid. cbn [mbind Res_bind].
  destruct (Hbs B t x_len Ht Hbn Hfit) as (lb & Hfwd & Hlen).
  rewrite Hfwd. cbn [mbind Res_bind].
  cbn [t_add shape_ops]. rewrite broadcast_same. cbn [mbind Res_bind].
  exists lb. destruct (rate_nonzero rate); cbn; done.
Qed.

Lemma train_app {M} (f : bool → M → M) (tr : bool) (l1 l2 : DualPathSequential.t M) :
  DualPathSequential.train f tr (l1 ++ l2)
  = DualPathSequential.train f tr l1 ++ DualPathSequential.train f tr l2.
Proof. unfold DualPathSequential.train. apply fmap_app. Qed.

Lemma units_loop_chain (tr : bool) (eps : float) (repeat i : Z)
    (stages : list (Z * Z * float))
    (cin cout : Z) (cins : list Z) (features features' : DualPathSequential.t Jasper.feature) :
  Forall (λ st, odd_kernel st.1.2) stages → (1 ≤ repeat)%Z →
  Jasper.units_loop false false eps repeat i stages cin cins features = Ok (features', cout) →
  ∃ us, features' = features ++ us
        ∧ chain tr Jasper.feature_forward cin cout
            (DualPathSequential.train Jasper.feature_train tr us).
Proof.
  intros Hst Hrep. revert i cin cins features.
  induction Hst as [|[[c k] rate] stages Hk _ IH]; intros i cin cins features.
  - cbn. intros [= <- <-]. exists []. rewrite app_nil_r. split; [reflexivity|constructor].
  - cbn [Jasper.units_loop].
    destruct (JasperUnit.init _ c k eps rate repeat false false) as [u|e] eqn:Hu;
      [|discriminate].
    cbn [mbind Res_bind]. intros Hloop.
    apply IH in Hloop as (us & -> & Hus).
    exists ((numbered "unit" i, Jasper.FUnit u) :: us).
    unfold DualPathSequential.add_module. rewrite <- app_assoc.
    split; [reflexivity|]. cbn. econstructor; [|exact Hus].
    apply (JasperUnit_keeps_time tr cin c k eps rate repeat u Hk Hrep Hu).
Qed.

(** The first block of the final block: dilation 2, padding
    [2 * kernel // 2 - 1], stride 1. *)
Lemma dilated_block_keeps_time (tr : bool) (cin cout k : Z) (eps rate : float)
    (act : activation_t) :
  odd_kernel k →
  keeps_time tr MaskConvBlock1d.forward
    (MaskConvBlock1d.train tr
       (mask_block_of cin cout k 1 (2 * k / 2 - 1) 2 1 false true eps act rate)) cin cout.
Proof.
  intros [Hk Hodd] B t x_len Ht Hbn Hfit.
  assert (2 * k / 2 = k)%Z as Hdiv by (rewrite Z.mul_comm; apply Z.div_mul; lia).
  assert (valid_conv (Conv1d.mk cin cout k 1 (2 * k / 2 - 1) 2 1 false)) as Hc.
  { unfold valid_conv. cbn. rewrite Hdiv. norm_pow2. lia. }
  destruct (MaskConvBlock1d_forward_shape tr cin cout k 1 (2 * k / 2 - 1) 2 eps rate act
              B t x_len Hc ltac:(lia) Hfit) as (ls' & Hlen & Hfwd).
  exists ls'. rewrite Hfwd. split; [|exact Hlen].
  unfold conv1d_out_size. cbn. rewrite Hdiv.
  rewrite bool_decide_eq_true_2 by (norm_pow2; lia). cbn [mbind Res_bind].
  rewrite Z.div_1_r.
  replace (t + 2 * (k - 1) - 2 * (k - 1) - 1 + 1)%Z with t by lia.
  rewrite (batch_fits_false tr B t Hbn). reflexivity.
Qed.

Lemma JasperFinalBlock_keeps_time (tr : bool) (cin cout : Z)
    (channels kernel_sizes : list Z)
    (eps : float) (rates : list float) (f : JasperFinalBlock.t) :
  Forall odd_kernel kernel_sizes → py_index channels (-1) = Ok cout →
  JasperFinalBlock.init cin channels kernel_sizes eps rates false false = Ok f →
  keeps_time tr JasperFinalBlock.forward (JasperFinalBlock.train tr f) cin cout.
Proof.
  intros Hks Hcout. unfold JasperFinalBlock.init.
  destruct (py_index channels (-2)) as [c2|e]; [|discriminate]. cbn [mbind Res_bind].
  destruct (py_index kernel_sizes (-2)) as [k2|e] eqn:Hk2; [|discriminate].
  cbn [mbind Res_bind].
  destruct (py_index rates (-2)) as [d2|e]; [|discriminate]. cbn [mbind Res_bind].
  destruct (Block.init false cin c2 k2 1 _ 2 eps d2 relu_inplace) as [b1|e] eqn:Hb1;
    [|discriminate].
  cbn [mbind Res_bind]. rewrite Hcout. cbn [mbind Res_bind].
  destruct (py_index kernel_sizes (-1)) as [k1|e] eqn:Hk1; [|discriminate].
  cbn [mbind Res_bind].
  destruct (py_index rates (-1)) as [d1|e]; [|discriminate]. cbn [mbind Res_bind].
  destruct (MaskConvBlock1d.init _ _ _ _ _ _ _ _ _ _ _ _) as [b2|e] eqn:Hb2; [|discriminate].
  cbn [mbind Res_bind]. intros [= <-].
  apply Block_init_inv in Hb1 as ->. apply MaskConvBlock1d_init_inv in Hb2 as ->.
  rewrite Forall_forall in Hks.
  pose proof (Hks k2 (py_index_elem _ _ _ Hk2)) as Hodd2.
  pose proof (Hks k1 (py_index_elem _ _ _ Hk1)) as Hodd1.
  intros B t x_len Ht Hbn Hfit. unfold JasperFinalBlock.forward, JasperFinalBlock.train.
  cbn [JasperFinalBlock.use_dr JasperFinalBlock.conv1 JasperFinalBlock.conv2
       mbind Res_bind Block.forward Block.train block_of].
  destruct (dilated_block_keeps_time tr cin c2 k2 eps d2 relu_inplace Hodd2 B t x_len Ht
              Hbn Hfit) as (l1 & Hf1 & Hl1).
  rewrite Hf1. cbn [mbind Res_bind].
  destruct (same_block_keeps_time tr c2 cout k1 eps d1 relu_inplace Hodd1 B t l1 Ht Hbn
              (lens_fit_length B _ _ Hl1 Hfit)) as (l2 & Hf2 & Hl2).
  rewrite Hf2. cbn [mbind Res_bind].
  exists l2. split; [reflexivity|congruence].
Qed.

(** The initial block: stride 2, odd kernel, padding [kernel // 2]. *)
Lemma init_block_forward_shape (tr : bool) (cin cout k : Z) (eps rate : float)
    (act : activation_t) (B t : Z) (x_len : list Z) :
  odd_kernel k → (0 ≤ t)%Z → lens_fit B x_len →
  ∃ x_len', length x_len' = length x_len ∧
    MaskConvBlock1d.forward
      (MaskConvBlock1d.train tr
         (mask_block_of cin cout k 2 (k / 2) 1 1 false true eps act rate))
      [B; cin; t] (LTensor x_len)
    = if bool_decide (1 ≤ t)%Z then
        if tr && bool_decide (B * ((t - 1) / 2 + 1) = 1)%Z
        then Raise batch_norm_training_error
        else Ok ([B; cout; (t - 1) / 2 + 1]%Z, LTensor x_len')
      else Raise RuntimeError.
Proof.
  intros [Hk Hodd] Ht Hfit.
  pose proof (Z.div_mod k 2 ltac:(lia)) as Hdm.
  assert (valid_conv (Conv1d.mk cin cout k 2 (k / 2) 1 1 false)) as Hc.
  { unfold valid_conv. cbn. norm_pow2. lia. }
  destruct (MaskConvBlock1d_forward_shape tr cin cout k 2 (k / 2) 1 eps rate act
              B t x_len Hc Ht Hfit) as (ls' & Hlen & Hfwd).
  exists ls'. split; [exact Hlen|]. rewrite Hfwd.
  unfold conv1d_out_size. cbn.
  case_bool_decide as H1.
  - rewrite bool_decide_eq_true_2 by (norm_pow2; lia). cbn [mbind Res_bind].
    replace (t + 2 * (k / 2) - 1 * (k - 1) - 1)%Z with (t - 1)%Z by lia. reflexivity.
  - rewrite bool_decide_eq_false_2 by lia. reflexivity.
Qed.

Lemma Forall_zip_kernels {A B} (P : Z → Prop) (l1 : list A) (l2 : list Z) (l3 : list B) :
  Forall P l2 → Forall (λ st, P st.1.2) (zip (zip l1 l2) l3).
Proof.
  intros H. revert l1 l3. induction H as [|k l2 Hk _ IH]; intros l1 l3.
  - destruct l1; constructor.
  - destruct l1 as [|a l1]; [constructor|]. destruct l3 as [|b l3]; [constructor|].
    cbn. constructor; [exact Hk|apply IH].
Qed.

Lemma halved_pos (L : Z) : (1 ≤ L)%Z → (1 ≤ (L - 1) / 2 + 1)%Z.
Proof. intros HL. assert (0 ≤ (L - 1) / 2)%Z by (apply Z.div_pos; lia). lia. Qed.

(** The time axis through a model of the plain scheme whose kernel sizes
    are odd, in the mode [tr]: halved (rounding up) by the initial block of
    stride 2, kept by the units, the final block and the output convolution.
    In training mode the batch normalization of the initial block refuses a
    single value per channel. *)
Lemma Jasper_forward_shape (tr : bool) (channels kernel_sizes : list Z) (eps : float)
    (rates : list float) (repeat cin ncls : Z) (net : Jasper.t) (B L : Z) (x_len : list Z) :
  Jasper.init channels kernel_sizes eps rates repeat false false cin ncls = Ok net →
  Forall odd_kernel kernel_sizes → (1 ≤ repeat)%Z → (0 ≤ L)%Z → lens_fit B x_len →
  ∃ x_len', length x_len' = length x_len ∧
    Jasper.forward (Jasper.train tr net) [B; cin; L] (LTensor x_len)
    = if bool_decide (1 ≤ L)%Z then
        if tr && bool_decide (B * ((L - 1) / 2 + 1) = 1)%Z
        then Raise batch_norm_training_error
        else Ok ([B; ncls; (L - 1) / 2 + 1]%Z, LTensor x_len')
      else Raise RuntimeError.
Proof.
  intros Hinit Hks Hrep HL Hfit. revert Hinit. unfold Jasper.init.
  destruct (py_index channels 0) as [c0|e]; [|discriminate]. cbn [mbind Res_bind].
  destruct (py_index kernel_sizes 0) as [k0|e] eqn:Hk0; [|discriminate].
  cbn [mbind Res_bind].
  destruct (py_index rates 0) as [d0|e]; [|discriminate]. cbn [mbind Res_bind].
  destruct (Block.init false cin c0 k0 2 _ 1 eps d0 relu_inplace) as [b0|e] eqn:Hb0;
    [|discriminate].
  cbn [mbind Res_bind].
  destruct (Jasper.units_loop _ _ _ _ _ _ _ _ _) as [[features cu]|e] eqn:Hunits;
    [|discriminate].
  cbn [mbind Res_bind].
  destruct (JasperFinalBlock.init _ _ _ _ _ _ _) as [f|e] eqn:Hfinal; [|discriminate].
  cbn [mbind Res_bind].
  destruct (py_index channels (-1)) as [cout|e] eqn:Hcout; [|discriminate].
  cbn [mbind Res_bind]. rewrite conv1d1_Ok. cbn [mbind Res_bind]. intros [= <-].
  apply Block_init_inv in Hb0 as ->.
  apply (units_loop_chain tr) in Hunits as (us & -> & Hus);
    [|apply Forall_zip_kernels, Forall_slice_1_m2, Hks|exact Hrep].
  apply chain_keeps_time in Hus.
  pose proof (JasperFinalBlock_keeps_time tr cu cout channels kernel_sizes eps rates f
                Hks Hcout Hfinal) as Hf.
  pose proof (proj1 (Forall_forall _ _) Hks k0 (py_index_elem _ _ _ Hk0)) as Hodd0.
  destruct (init_block_forward_shape tr cin c0 k0 eps d0 relu_inplace B L x_len Hodd0 HL
              Hfit) as (l0 & Hl0 & Hfwd0).
  unfold Jasper.forward, Jasper.train. cbn [Jasper.features Jasper.output].
  unfold DualPathSequential.add_module.
  rewrite !train_app. rewrite !DualPathSequential_forward_app.
  cbn [app DualPathSequential.train fmap list_fmap prod_map fst snd id
       Jasper.feature_train DualPathSequential.forward Jasper.feature_forward
       Block.forward Block.train block_of mbind Res_bind].
  rewrite Hfwd0. case_bool_decide as H1; [|exists x_len; done].
  destruct (tr && bool_decide (B * ((L - 1) / 2 + 1) = 1)%Z) eqn:Hbn;
    [exists x_len; done|].
  cbn [mbind Res_bind].
  pose proof (halved_pos L H1) as Ht1.
  assert (batch_fits tr B ((L - 1) / 2 + 1)) as Hfits.
  { intros ->. cbn in Hbn. apply bool_decide_eq_false_1 in Hbn. exact Hbn. }
  destruct (Hus B ((L - 1) / 2 + 1)%Z l0 Ht1 Hfits (lens_fit_length B _ _ Hl0 Hfit))
    as (l1 & Hfwd1 & Hl1).
  change (list_fmap _ _ (prod_map id (Jasper.feature_train tr)) us)
    with (DualPathSequential.train Jasper.feature_train tr us).
  rewrite Hfwd1. cbn [mbind Res_bind].
  destruct (Hf B ((L - 1) / 2 + 1)%Z l1 Ht1 Hfits
              (lens_fit_length B _ _ (eq_trans Hl1 Hl0) Hfit)) as (l2 & Hfwd2 & Hl2).
  rewrite Hfwd2. cbn [mbind Res_bind].
  exists l2. split; [congruence|].
  cbn [F_conv1d shape_ops]. unfold conv1d_shape, conv1d_out_size.
  cbn [Conv1d.in_channels Conv1d.out_channels Conv1d.kernel_size Conv1d.stride
       Conv1d.padding Conv1d.dilation].
  rewrite bool_decide_eq_true_2 by reflexivity.
  rewrite bool_decide_eq_true_2 by lia. cbn [mbind Res_bind].
  rewrite Z.div_1_r.
  replace ((L - 1) / 2 + 1 + 2 * 0 - 1 * (1 - 1) - 1 + 1)%Z with ((L - 1) / 2 + 1)%Z by lia.
  reflexivity.
Qed.

Lemma halved_length (L : Z) :
  ((L - 1) / 2 + 1 = L / 2 ∨ (L - 1) / 2 + 1 = L / 2 + 1)%Z.
Proof.
  pose proof (Z.div_mod L 2 ltac:(lia)). pose proof (Z.mod_pos_bound L 2 ltac:(lia)).
  pose proof (Z.div_mod (L - 1) 2 ltac:(lia)).
  pose proof (Z.mod_pos_bound (L - 1) 2 ltac:(lia)). lia.
Qed.

Lemma halved_one (B L : Z) :
  (1 ≤ B)%Z → (1 ≤ L)%Z → (B * ((L - 1) / 2 + 1) = 1)%Z → (B = 1 ∧ L ≤ 2)%Z.
Proof.
  intros HB HL H. pose proof (halved_pos L HL) as Ht.
  assert (B = 1)%Z as -> by nia. split; [reflexivity|].
  pose proof (Z.div_mod (L - 1) 2 ltac:(lia)).
  pose proof (Z.mod_pos_bound (L - 1) 2 ltac:(lia)). lia.
Qed.

(** C3. A model built by [get_jasper] for a version string ["BxR"] with
    [R ≥ 1], in particular by [jasper5x3], [jasper10x4] or [jasper10x5] (a
    stride-2 initial block, units of stride 1 and padding [kernel // 2], a
    final block of dilation 2 and matching padding), with a positive number
    of input channels and of classes, maps a batch of [B ≥ 1] feature
    tensors with [L ≥ 1] time steps, together with one length per sample,
    to logits whose time dimension is [L // 2] or [L // 2 + 1].  This holds
    of the model put in evaluation mode, as [_test] does, for every such
    batch; of the model as [get_jasper] returns it, in training mode, for
    every such batch but a single sample of one or two time steps, which the
    batch normalization of the initial block refuses for having one value
    per channel.  An input without time steps is refused in both modes by
    the convolution of the initial block. *)
Theorem jasper_output_time_length
    (download_model : Jasper.t → string → string → Res Jasper.t)
    (blocks repeat : N) (bn_eps : float) (model_name : option string) (root : string)
    (kw : kwargs) (B L : Z) (x_len : list Z) :
  (Z.of_N blocks / 5 ≤ int64_max)%Z → (1 ≤ repeat)%N →
  (0 < default 64 (kw_in_channels kw))%Z → (0 < default 29 (kw_num_classes kw))%Z →
  (1 ≤ B)%Z → (0 ≤ L)%Z → lens_fit B x_len →
  ∃ net : Jasper.t,
    get_jasper download_model (version_string blocks repeat) bn_eps model_name false root kw
    = (Ok net, [])
    ∧ match Jasper.forward (Jasper.eval net)
              [B; default 64%Z (kw_in_channels kw); L] (LTensor x_len) with
      | Ok (y, _) =>
          (1 ≤ L)%Z ∧
          ∃ t', y = [B; default 29%Z (kw_num_classes kw); t']
                ∧ (t' = L / 2 ∨ t' = L / 2 + 1)%Z
      | Raise _ => L = 0%Z
      end
    ∧ match Jasper.forward net [B; default 64%Z (kw_in_channels kw); L] (LTensor x_len) with
      | Ok (y, _) =>
          (1 ≤ L)%Z ∧ ¬ (B = 1 ∧ L ≤ 2)%Z ∧
          ∃ t', y = [B; default 29%Z (kw_num_classes kw); t']
                ∧ (t' = L / 2 ∨ t' = L / 2 + 1)%Z
      | Raise e =>
          L = 0%Z ∨ (B = 1 ∧ 1 ≤ L ≤ 2 ∧ e = batch_norm_training_error)%Z
      end.
Proof.
  intros Hb Hrep _ _ HB HL Hfit.
  destruct (get_jasper_build_Ok blocks repeat bn_eps (default 64%Z (kw_in_channels kw))
              (default 29%Z (kw_num_classes kw)) Hb)
    as (a & net & Ha & Hnet & Hdw & Hdr & Hr & Hk).
  exists net. split.
  { unfold get_jasper. rewrite Ha. cbn [mbind Res_bind]. rewrite Hnet. reflexivity. }
  pose proof (Jasper_init_train_true _ _ _ _ _ _ _ _ _ net Hnet) as Htrain.
  rewrite Hdw, Hdr in Hnet. split.
  - unfold Jasper.eval.
    destruct (Jasper_forward_shape false _ _ _ _ _ _ _ net B L x_len Hnet Hk ltac:(lia) HL
                Hfit) as (ls' & _ & ->).
    case_bool_decide as H1; [|lia]. cbn [andb].
    split; [exact H1|]. eexists. split; [reflexivity|apply halved_length].
  - replace (Jasper.forward net) with (Jasper.forward (Jasper.train true net))
      by (rewrite Htrain; reflexivity).
    destruct (Jasper_forward_shape true _ _ _ _ _ _ _ net B L x_len Hnet Hk ltac:(lia) HL
                Hfit) as (ls' & _ & ->).
    case_bool_decide as H1; [|left; lia]. cbn [andb].
    case_bool_decide as H2.
    + right. destruct (halved_one B L HB H1 H2). repeat split; [done|lia|lia].
    + split; [exact H1|]. split.
      * intros [-> HL2]. apply H2.
        assert (L = 1 ∨ L = 2)%Z as [-> | ->] by lia; reflexivity.
      * eexists. split; [reflexivity|apply halved_length].
Qed.

(** [jasper5x3] on 101 time steps: 51 = 101 // 2 + 1 time steps of logits,
    in either mode. *)
Lemma jasper_output_time_length_witness :
  ∃ net : Jasper.t,
    jasper5x3 (λ net _ _, Ok net) false default_root (mk_kwargs (Some 64%Z) (Some 29%Z))
    = (Ok net, [])
    ∧ match Jasper.forward (Jasper.eval net) [1; 64; 101]%Z (LTensor [99]%Z) with
      | Ok (y, _) =>
          (1 ≤ 101)%Z ∧ ∃ t', y = [1; 29; t']%Z ∧ (t' = 101 / 2 ∨ t' = 101 / 2 + 1)%Z
      | Raise _ => 101%Z = 0%Z
      end
    ∧ match Jasper.forward net [1; 64; 101]%Z (LTensor [99]%Z) with
      | Ok (y, _) =>
          (1 ≤ 101)%Z ∧ ¬ (1 = 1 ∧ 101 ≤ 2)%Z ∧
          ∃ t', y = [1; 29; t']%Z ∧ (t' = 101 / 2 ∨ t' = 101 / 2 + 1)%Z
      | Raise e =>
          101%Z = 0%Z ∨ (1 = 1 ∧ 1 ≤ 101 ≤ 2 ∧ e = batch_norm_training_error)%Z
      end.
Proof.
  exact (jasper_output_time_length (λ net _ _, Ok net) 5 3 1e-3 (Some "jasper5x3")
           default_root (mk_kwargs (Some 64%Z) (Some 29%Z)) 1 101 [99]%Z
           ltac:(vm_compute; discriminate) ltac:(lia) ltac:(cbn; lia) ltac:(cbn; lia)
           ltac:(lia) ltac:(lia) (or_introl eq_refl)).
Defined.

(** * Further properties *)

(** ** Masking: what the convolution sees *)

Lemma offset3_split (B C T k : nat) :
  (k < B * C * T)%nat →
  ∃ b c t, (b < B)%nat ∧ (c < C)%nat ∧ (t < T)%nat ∧ k = ((b * C + c) * T + t)%nat.
Proof.
  intros Hk.
  assert (0 < C * T)%nat as HCT by (destruct (C * T)%nat eqn:E; [nia|lia]).
  assert (0 < T)%nat as HT by (destruct T; [lia|lia]).
  exists (k / (C * T))%nat, ((k mod (C * T)) / T)%nat, ((k mod (C * T)) mod T)%nat.
  pose proof (Nat.div_mod_eq k (C * T)) as H1.
  pose proof (Nat.div_mod_eq (k mod (C * T)) T) as H2.
  pose proof (Nat.mod_upper_bound k (C * T) ltac:(lia)) as H3.
  repeat split.
  - apply Nat.Div0.div_lt_upper_bound. lia.
  - apply Nat.Div0.div_lt_upper_bound. lia.
  - apply Nat.mod_upper_bound. lia.
  - lia.
Qed.

Section Masking.
Context {V : Type}.
Variable zero : V.
Variable conv1d_v : Conv1d.t → Tensor.t V → Res (Tensor.t V).
Variable batch_norm_v : BatchNorm1d.t → Tensor.t V → Res (Tensor.t V).
Variable relu_v : ReLU.t → Tensor.t V → Tensor.t V.
Variable dropout_v : Dropout.t → Tensor.t V → Tensor.t V.
Variable add_v : Tensor.t V → Tensor.t V → Res (Tensor.t V).
Variable stack_sum_v : list (Tensor.t V) → Res (Tensor.t V).

#[local] Abbreviation ops :=
  (value_ops zero conv1d_v batch_norm_v relu_v dropout_v add_v stack_sum_v).

(** The buffer that the convolution receives. *)
Lemma MaskConv1d_forward_value (c : Conv1d.t) (x : Tensor.t V) (x_len : list Z)
    (B C T : nat) :
  Tensor.shape x = [B; C; T] → length x_len = B →
  MaskConv1d.forward (H := ops) (MaskConv1d.mk c true) x (LTensor x_len)
  = (ls ← mapM (MaskConv1d.update_len c) x_len;
     y ← conv1d_v c
           (Tensor.mk [B; C; T]
              (imap (λ k v, if mask_at (MaskConv1d.make_mask (Z.of_nat T) x_len)
                                 (k / (C * T)) (k mod T)
                            then zero else v) (Tensor.data x)));
     Ok (y, LTensor ls)).
Proof.
  intros Hs Hl. unfold MaskConv1d.forward, size_at. cbn. rewrite Hs. cbn.
  unfold masked_fill_v. rewrite Hs.
  rewrite (make_mask_fits B C T x_len Hl). cbn.
  destruct (mapM (MaskConv1d.update_len c) x_len) as [ls|e]; cbn; [|reflexivity].
  destruct (conv1d_v c _); reflexivity.
Qed.

Lemma masked_entry (x : Tensor.t V) (x_len : list Z) (B C T b ch t : nat) (l : Z) :
  Tensor.shape x = [B; C; T] → x_len !! b = Some l → (ch < C)%nat → (t < T)%nat →
  imap (λ k v, if mask_at (MaskConv1d.make_mask (Z.of_nat T) x_len) (k / (C * T)) (k mod T)
               then zero else v) (Tensor.data x) !! ((b * C + ch) * T + t)%nat
  = (λ v, if bool_decide (l ≤ Z.of_nat t)%Z then zero else v)
      <$> Tensor.data x !! ((b * C + ch) * T + t)%nat.
Proof.
  intros Hs Hb Hch Ht. rewrite list_lookup_imap.
  rewrite offset3_div, offset3_mod by lia.
  rewrite (mask_at_make_mask T x_len b t l Hb Ht). reflexivity.
Qed.

Lemma masked_data_agree (x x' : Tensor.t V) (x_len : list Z) (B C T : nat) :
  Tensor.shape x = [B; C; T] → Tensor.shape x' = [B; C; T] →
  Tensor.wf x → Tensor.wf x' → length x_len = B →
  (∀ (b ch t : nat) (l : Z),
     x_len !! b = Some l → (ch < C)%nat → (t < T)%nat → (Z.of_nat t < l)%Z →
     Tensor.get x [b; ch; t] = Tensor.get x' [b; ch; t]) →
  imap (λ k v, if mask_at (MaskConv1d.make_mask (Z.of_nat T) x_len) (k / (C * T)) (k mod T)
               then zero else v) (Tensor.data x)
  = imap (λ k v, if mask_at (MaskConv1d.make_mask (Z.of_nat T) x_len) (k / (C * T)) (k mod T)
                 then zero else v) (Tensor.data x').
Proof.
  intros Hs Hs' Hwf Hwf' Hl Hagree. apply list_eq. intros k.
  destruct (decide (k < B * C * T)%nat) as [Hk|Hk].
  - destruct (offset3_split B C T k Hk) as (b & ch & t & Hb & Hch & Ht & ->).
    destruct (lookup_lt_is_Some_2 x_len b ltac:(lia)) as [l Hbl].
    rewrite (masked_entry x x_len B C T b ch t l Hs Hbl Hch Ht).
    rewrite (masked_entry x' x_len B C T b ch t l Hs' Hbl Hch Ht).
    case_bool_decide as Hlt.
    + destruct (lookup_lt_is_Some_2 (Tensor.data x) ((b * C + ch) * T + t)) as [v ->].
      { rewrite Hwf, Hs. cbn. lia. }
      destruct (lookup_lt_is_Some_2 (Tensor.data x') ((b * C + ch) * T + t)) as [v' ->].
      { rewrite Hwf', Hs'. cbn. lia. }
      reflexivity.
    + rewrite <- (get3 x B C T b ch t Hs Hb Hch Ht).
      rewrite <- (get3 x' B C T b ch t Hs' Hb Hch Ht).
      rewrite (Hagree b ch t l Hbl Hch Ht ltac:(lia)). reflexivity.
  - rewrite !(proj2 (lookup_ge_None _ _)); [reflexivity | |];
      rewrite length_imap; [rewrite Hwf', Hs'|rewrite Hwf, Hs]; cbn; lia.
Qed.

Lemma masked_data_full (dx : list V) (x_len : list Z) (B C T : nat) :
  length dx = (B * C * T)%nat → length x_len = B →
  Forall (λ l, Z.of_nat T ≤ l)%Z x_len →
  imap (λ k v, if mask_at (MaskConv1d.make_mask (Z.of_nat T) x_len) (k / (C * T)) (k mod T)
               then zero else v) dx
  = dx.
Proof.
  intros Hd Hl Hfull. apply list_eq. intros k.
  destruct (decide (k < B * C * T)%nat) as [Hk|Hk].
  - destruct (offset3_split B C T k Hk) as (b & ch & t & Hb & Hch & Ht & ->).
    destruct (lookup_lt_is_Some_2 x_len b ltac:(lia)) as [l Hbl].
    pose proof (masked_entry (Tensor.mk [B; C; T] dx) x_len B C T b ch t l eq_refl
                  Hbl Hch Ht) as E.
    cbn [Tensor.data] in E. rewrite E.
    rewrite Forall_forall in Hfull.
    pose proof (Hfull l (list_elem_of_lookup_2 _ _ _ Hbl)).
    rewrite bool_decide_eq_false_2 by lia.
    destruct (dx !! _); reflexivity.
  - rewrite !(proj2 (lookup_ge_None _ _)); [reflexivity | |]; rewrite ?length_imap; lia.
Qed.

(** X1. Padding cannot leak into the convolution: two batches of the same
    shape that agree at every position before the declared length of its
    sample give the same result of [MaskConv1d.forward] with [use_mask],
    whatever they hold at and beyond the declared lengths. *)
Theorem MaskConv1d_forward_ignores_padding (c : Conv1d.t) (x x' : Tensor.t V)
    (x_len : list Z) (B C T : nat) :
  Tensor.shape x = [B; C; T] → Tensor.shape x' = [B; C; T] →
  Tensor.wf x → Tensor.wf x' → length x_len = B →
  (∀ (b ch t : nat) (l : Z),
     x_len !! b = Some l → (ch < C)%nat → (t < T)%nat → (Z.of_nat t < l)%Z →
     Tensor.get x [b; ch; t] = Tensor.get x' [b; ch; t]) →
  MaskConv1d.forward (H := ops) (MaskConv1d.mk c true) x (LTensor x_len)
  = MaskConv1d.forward (H := ops) (MaskConv1d.mk c true) x' (LTensor x_len).
Proof.
  intros Hs Hs' Hwf Hwf' Hl Hagree.
  rewrite (MaskConv1d_forward_value c x x_len B C T Hs Hl).
  rewrite (MaskConv1d_forward_value c x' x_len B C T Hs' Hl).
  rewrite (masked_data_agree x x' x_len B C T Hs Hs' Hwf Hwf' Hl Hagree).
  reflexivity.
Qed.

(** X2. A batch whose samples are all declared at least as long as the time
    axis is convolved as it is: [MaskConv1d.forward] with [use_mask] gives the
    convolution of [x] itself, next to the updated lengths. *)
Theorem MaskConv1d_forward_full_length (c : Conv1d.t) (x : Tensor.t V) (x_len : list Z)
    (B C T : nat) :
  Tensor.shape x = [B; C; T] → Tensor.wf x → length x_len = B →
  Forall (λ l, Z.of_nat T ≤ l)%Z x_len →
  MaskConv1d.forward (H := ops) (MaskConv1d.mk c true) x (LTensor x_len)
  = (ls ← mapM (MaskConv1d.update_len c) x_len; y ← conv1d_v c x; Ok (y, LTensor ls)).
Proof.
  intros Hs Hwf Hl Hfull.
  rewrite (MaskConv1d_forward_value c x x_len B C T Hs Hl).
  rewrite (masked_data_full (Tensor.data x) x_len B C T); [|rewrite Hwf, Hs; cbn; lia|done|done].
  destruct x as [sx dx]. cbn in Hs |- *. subst sx. reflexivity.
Qed.

End Masking.

Lemma MaskConv1d_forward_ignores_padding_witness :
  let ops := value_ops 0%Z (λ _ x, Ok x) (λ _ x, Ok x) (λ _ x, x) (λ _ x, x)
               (λ x _, Ok x) (λ _, Raise RuntimeError) in
  MaskConv1d.forward (H := ops) (MaskConv1d.mk (Conv1d.mk 2 2 1 1 0 1 1 false) true)
    (Tensor.mk [1; 2; 3]%nat [1; 2; 3; 4; 5; 6]%Z) (LTensor [2]%Z)
  = MaskConv1d.forward (H := ops) (MaskConv1d.mk (Conv1d.mk 2 2 1 1 0 1 1 false) true)
      (Tensor.mk [1; 2; 3]%nat [1; 2; 70; 4; 5; 80]%Z) (LTensor [2]%Z).
Proof.
  intros ops.
  apply (MaskConv1d_forward_ignores_padding 0%Z (λ _ x, Ok x) (λ _ x, Ok x) (λ _ x, x)
           (λ _ x, x) (λ x _, Ok x) (λ _, Raise RuntimeError)
           (Conv1d.mk 2 2 1 1 0 1 1 false)
           (Tensor.mk [1; 2; 3]%nat [1; 2; 3; 4; 5; 6]%Z)
           (Tensor.mk [1; 2; 3]%nat [1; 2; 70; 4; 5; 80]%Z) [2]%Z 1 2 3
           eq_refl eq_refl eq_refl eq_refl eq_refl).
  intros b ch t l Hb Hch Ht Hlt.
  destruct b as [|b]; [|destruct b; discriminate]. injection Hb as <-.
  destruct ch as [|[|ch]]; [| |lia]; (destruct t as [|[|t]]; [reflexivity|reflexivity|lia]).
Defined.

Lemma MaskConv1d_forward_full_length_witness :
  let ops := value_ops 0%Z (λ _ x, Ok x) (λ _ x, Ok x) (λ _ x, x) (λ _ x, x)
               (λ x _, Ok x) (λ _, Raise RuntimeError) in
  MaskConv1d.forward (H := ops) (MaskConv1d.mk (Conv1d.mk 2 2 1 1 0 1 1 false) true)
    (Tensor.mk [2; 2; 3]%nat [1; 2; 3; 4; 5; 6; 7; 8; 9; 10; 11; 12]%Z) (LTensor [3; 5]%Z)
  = Ok (Tensor.mk [2; 2; 3]%nat [1; 2; 3; 4; 5; 6; 7; 8; 9; 10; 11; 12]%Z, LTensor [3; 5]%Z).
Proof.
  intros ops.
  refine (eq_trans
    (MaskConv1d_forward_full_length 0%Z (λ _ x, Ok x) (λ _ x, Ok x) (λ _ x, x)
       (λ _ x, x) (λ x _, Ok x) (λ _, Raise RuntimeError)
       (Conv1d.mk 2 2 1 1 0 1 1 false)
       (Tensor.mk [2; 2; 3]%nat [1; 2; 3; 4; 5; 6; 7; 8; 9; 10; 11; 12]%Z) [3; 5]%Z 2 2 3
       eq_refl eq_refl eq_refl _) _).
  - repeat constructor; lia.
  - reflexivity.
Defined.

(** ** ChannelShuffle1d: trivial groups, and shapes *)

Section ShuffleEdges.
Context {V : Type}.
Variable zero : V.
Variable conv1d_v : Conv1d.t → Tensor.t V → Res (Tensor.t V).
Variable batch_norm_v : BatchNorm1d.t → Tensor.t V → Res (Tensor.t V).
Variable relu_v : ReLU.t → Tensor.t V → Tensor.t V.
Variable dropout_v : Dropout.t → Tensor.t V → Tensor.t V.
Variable add_v : Tensor.t V → Tensor.t V → Res (Tensor.t V).
Variable stack_sum_v : list (Tensor.t V) → Res (Tensor.t V).

#[local] Abbreviation ops :=
  (value_ops zero conv1d_v batch_norm_v relu_v dropout_v add_v stack_sum_v).

Lemma shuffled_one_group (B C T : nat) (d : list V) :
  length d = Tensor.numel [B; C; T] → shuffled zero B 1 C T d = d.
Proof.
  intros Hd. apply list_eq. intros k.
  destruct (decide (k < Tensor.numel [B; C; 1; T])%nat) as [Hk|Hk].
  - rewrite shuffled_lookup by exact Hk.
    destruct (unravel4 B C 1 T k) as (a & b & c & e & Hu).
    pose proof (unravel_lt [B; C; 1; T] k Hk) as Hlt. rewrite Hu in Hlt.
    pose proof (ravel_unravel [B; C; 1; T] k Hk) as Hru. rewrite Hu in Hru.
    rewrite Hu. change (swap 1 2 [a; b; c; e]) with [a; c; b; e].
    assert (c = 0)%nat as ->.
    { repeat match goal with H : Forall2 _ _ _ |- _ => inversion H; subst; clear H end. lia. }
    assert (Tensor.ravel [B; 1; C; T] [a; 0; b; e] = k)%nat as ->.
    { rewrite <- Hru. cbn. lia. }
    destruct (lookup_lt_is_Some_2 d k) as [v ->]; [cbn in *; lia|]. reflexivity.
  - rewrite !(proj2 (lookup_ge_None _ _)); [reflexivity | cbn in *; lia |].
    rewrite shuffled_length. lia.
Qed.

Lemma shuffled_all_groups (B C T : nat) (d : list V) :
  length d = Tensor.numel [B; C; T] → shuffled zero B C 1 T d = d.
Proof.
  intros Hd.
  rewrite <- (shuffled_one_group B C T d Hd) at 1.
  apply shuffled_shuffled. rewrite Hd. cbn. lia.
Qed.

(** X3. With a single group, and with as many groups as channels, the
    forward pass of [ChannelShuffle1d] returns its input unchanged; so a
    [DwsConvBlock1d] loses nothing by skipping the shuffle for [groups = 1]. *)
Theorem ChannelShuffle1d_forward_trivial_groups (x : Tensor.t V) (B C T : nat) :
  Tensor.shape x = [B; C; T] → Tensor.wf x → (0 < C)%nat →
  ChannelShuffle1d.forward (H := ops) (ChannelShuffle1d.mk 1) x = Ok x
  ∧ ChannelShuffle1d.forward (H := ops) (ChannelShuffle1d.mk (Z.of_nat C)) x = Ok x.
Proof.
  intros Hs Hwf HC. destruct x as [sx dx]. cbn in Hs. subst sx.
  unfold Tensor.wf in Hwf. cbn [Tensor.data Tensor.shape] in Hwf. split.
  - pose proof (shuffle_forward_value zero conv1d_v batch_norm_v relu_v dropout_v add_v
                  stack_sum_v (Tensor.mk [B; C; T] dx) B 1 C T) as E.
    rewrite Nat.mul_1_l in E. specialize (E eq_refl ltac:(lia)).
    cbn [Tensor.data] in E. rewrite (shuffled_one_group B C T dx Hwf) in E. exact E.
  - pose proof (shuffle_forward_value zero conv1d_v batch_norm_v relu_v dropout_v add_v
                  stack_sum_v (Tensor.mk [B; C; T] dx) B C 1 T) as E.
    rewrite Nat.mul_1_r in E. specialize (E eq_refl HC).
    cbn [Tensor.data] in E. rewrite (shuffled_all_groups B C T dx Hwf) in E. exact E.
Qed.
End ShuffleEdges.

Lemma ChannelShuffle1d_forward_trivial_groups_witness :
  let ops := value_ops 0%Z (λ _ x, Ok x) (λ _ x, Ok x) (λ _ x, x) (λ _ x, x)
               (λ x _, Ok x) (λ _, Raise RuntimeError) in
  let x := Tensor.mk [2; 3; 2]%nat (Z.of_nat <$> seq 0 12) in
  ChannelShuffle1d.forward (H := ops) (ChannelShuffle1d.mk 1) x = Ok x
  ∧ ChannelShuffle1d.forward (H := ops) (ChannelShuffle1d.mk 3) x = Ok x.
Proof.
  intros ops x.
  exact (ChannelShuffle1d_forward_trivial_groups 0%Z (λ _ x, Ok x) (λ _ x, Ok x)
           (λ _ x, x) (λ _ x, x) (λ x _, Ok x) (λ _, Raise RuntimeError) x 2 3 2
           eq_refl eq_refl ltac:(lia)).
Defined.

(** On shapes: the two views of the forward pass. *)
Lemma prodZ4 (a b c d : Z) : prodZ [a; b; c; d] = (a * b * c * d)%Z.
Proof. cbn. lia. Qed.

Lemma prodZ3 (a b c : Z) : prodZ [a; b; c] = (a * b * c)%Z.
Proof. cbn. lia. Qed.

Lemma view_shape_nonneg (n : Z) (dims : list Z) :
  Forall (λ d, 0 ≤ d)%Z dims →
  view_shape n dims = if bool_decide (prodZ dims = n) then Ok dims else Raise RuntimeError.
Proof.
  intros Hd. unfold view_shape.
  destruct (forallb _ dims) eqn:E; [reflexivity|].
  exfalso. apply not_true_iff_false in E. apply E.
  apply forallb_forall. intros d Hin. apply bool_decide_eq_true_2.
  rewrite Forall_forall in Hd. apply Hd. apply list_elem_of_In. exact Hin.
Qed.

(** X4. The forward pass of [ChannelShuffle1d] reads the channel count off its
    input: on a non-empty batch it keeps the shape when the channels of the
    input are divisible by [groups], and fails in its first [view] otherwise,
    whatever channel count the constructor was given. *)
Theorem ChannelShuffle1d_forward_shape (g B C T : Z) :
  (0 < g)%Z → (0 < B)%Z → (0 ≤ C)%Z → (0 < T)%Z →
  ChannelShuffle1d.forward (ChannelShuffle1d.mk g) [B; C; T]
  = if bool_decide (C mod g = 0)%Z then Ok [B; C; T] else Raise RuntimeError.
Proof.
  intros Hg HB HC HT. unfold ChannelShuffle1d.forward. cbn [size shape_ops].
  cbn [ChannelShuffle1d.unpack3 mbind Res_bind ChannelShuffle1d.groups].
  unfold py_floordiv. rewrite bool_decide_eq_false_2 by lia. cbn [mbind Res_bind].
  cbn [view shape_ops transpose_contiguous].
  pose proof (Z.div_mod C g ltac:(lia)) as Hdm.
  pose proof (Z.mod_pos_bound C g Hg) as Hmod.
  assert (0 ≤ C / g)%Z as Hq by (apply Z.div_pos; lia).
  rewrite view_shape_nonneg by (repeat constructor; lia).
  rewrite prodZ4, prodZ3.
  destruct (decide (C mod g = 0)%Z) as [Hdiv|Hdiv].
  - rewrite (bool_decide_eq_true_2 (C mod g = 0)%Z) by exact Hdiv.
    assert (g * (C / g) = C)%Z as Hgc by lia.
    assert (B * g * (C / g) * T = B * C * T)%Z as E1
      by (transitivity (B * (g * (C / g)) * T)%Z; [ring | rewrite Hgc; reflexivity]).
    assert (B * C * T = B * (C / g) * g * T)%Z as E2 by (rewrite <- E1; ring).
    rewrite bool_decide_eq_true_2 by exact E1.
    cbn [mbind Res_bind].
    change (transpose_shape 1 2 [B; g; (C / g)%Z; T])
      with (Ok [B; (C / g)%Z; g; T] : Res (list Z)).
    cbn [mbind Res_bind].
    rewrite view_shape_nonneg by (repeat constructor; lia).
    rewrite prodZ4, prodZ3.
    rewrite bool_decide_eq_true_2 by exact E2.
    reflexivity.
  - rewrite (bool_decide_eq_false_2 (C mod g = 0)%Z) by exact Hdiv.
    rewrite bool_decide_eq_false_2; [reflexivity|].
    intros Heq. apply Hdiv.
    assert (B * T * (g * (C / g)) = B * T * C)%Z as H1.
    { transitivity (B * g * (C / g) * T)%Z; [ring|]. rewrite Heq. ring. }
    apply Z.mul_reg_l in H1; [lia|].
    apply Z.neq_mul_0. lia.
Qed.

Lemma ChannelShuffle1d_forward_shape_witness :
  ChannelShuffle1d.forward (ChannelShuffle1d.mk 4) [2; 6; 5]%Z = Raise RuntimeError
  ∧ ChannelShuffle1d.forward (ChannelShuffle1d.mk 3) [2; 6; 5]%Z = Ok [2; 6; 5]%Z.
Proof.
  split.
  - exact (ChannelShuffle1d_forward_shape 4 2 6 5 ltac:(lia) ltac:(lia) ltac:(lia) ltac:(lia)).
  - exact (ChannelShuffle1d_forward_shape 3 2 6 5 ltac:(lia) ltac:(lia) ltac:(lia) ltac:(lia)).
Defined.

(** ** The depthwise-separable block against the plain block *)

Lemma wrap64_range (z : Z) : len_in_int64 (wrap64 z).
Proof.
  unfold len_in_int64, int64_min, int64_max, wrap64. norm_pow2.
  pose proof (Z.mod_pos_bound (z + 9223372036854775808) 18446744073709551616 ltac:(lia)).
  lia.
Qed.

Lemma wrap64_add_l (a b : Z) : wrap64 (wrap64 a + b) = wrap64 (a + b).
Proof.
  unfold wrap64. f_equal.
  replace ((a + 2 ^ 63) mod 2 ^ 64 - 2 ^ 63 + b + 2 ^ 63)%Z
    with ((a + 2 ^ 63) mod 2 ^ 64 + b)%Z by lia.
  rewrite Zplus_mod_idemp_l. f_equal. lia.
Qed.

Lemma update_len_int64 (c : Conv1d.t) (l l' : Z) :
  MaskConv1d.update_len c l = Ok l' → len_in_int64 l'.
Proof.
  unfold MaskConv1d.update_len.
  destruct (scalar64 (2 * _)) as [a|]; [|discriminate]. cbn [mbind Res_bind].
  destruct (scalar64 (_ * _)) as [b|]; [|discriminate]. cbn [mbind Res_bind].
  destruct (scalar64 _) as [s|]; [|discriminate]. cbn [mbind Res_bind].
  case_bool_decide; [discriminate|]. intros [= <-]. apply wrap64_range.
Qed.

(** The update of a 1-dim kernel of stride 1 changes no length. *)
Lemma update_len_pointwise (ci co g : Z) (b : bool) (l : Z) :
  len_in_int64 l → MaskConv1d.update_len (Conv1d.mk ci co 1 1 0 1 g b) l = Ok l.
Proof.
  intros Hl. unfold MaskConv1d.update_len.
  cbn [Conv1d.padding Conv1d.dilation Conv1d.kernel_size Conv1d.stride].
  change (2 * 0)%Z with 0%Z. change (1 * (1 - 1))%Z with 0%Z.
  rewrite !scalar64_small by (unfold int64_min, int64_max; norm_pow2; lia).
  cbn [mbind Res_bind]. rewrite bool_decide_eq_false_2 by lia.
  rewrite Z.div_1_r, Z.add_0_r, (wrap64_small l) by exact Hl.
  rewrite Z.sub_0_r, (wrap64_small l) by exact Hl.
  rewrite (wrap64_small (wrap64 (l - 1))) by apply wrap64_range.
  rewrite wrap64_add_l. replace (l - 1 + 1)%Z with l by lia.
  rewrite (wrap64_small l) by exact Hl. reflexivity.
Qed.

Lemma mapM_update_len_int64 (c : Conv1d.t) (ls ls' : list Z) :
  mapM (MaskConv1d.update_len c) ls = Ok ls' →
  Forall len_in_int64 ls' ∧ length ls' = length ls.
Proof.
  revert ls'. induction ls as [|l ls IH]; intros ls'; cbn.
  - intros [= <-]. split; [constructor|reflexivity].
  - destruct (MaskConv1d.update_len c l) as [l1|] eqn:Hl; [|discriminate].
    cbn [mbind Res_bind].
    destruct (mapM _ ls) as [ls1|]; [|discriminate]. cbn [mbind Res_bind mret Res_ret].
    intros [= <-]. destruct (IH ls1 eq_refl) as [IH1 IH2].
    split; [constructor; [eapply update_len_int64, Hl|exact IH1]|cbn; congruence].
Qed.

Lemma conv1d_out_size_pos (c : Conv1d.t) (t t' : Z) :
  conv1d_out_size c t = Ok t' → (1 ≤ t')%Z.
Proof.
  unfold conv1d_out_size. case_bool_decide as H; [|discriminate]. intros [= <-].
  destruct H as (Hs & _ & _ & _ & Hn).
  assert (0 ≤ (t + 2 * Conv1d.padding c
               - Conv1d.dilation c * (Conv1d.kernel_size c - 1) - 1) / Conv1d.stride c)%Z
    by (apply Z.div_pos; lia).
  lia.
Qed.

Lemma mask_fits_next (B C C' t t' : Z) (ls ls' : list Z) :
  mask_fits [B; C; t] (MaskConv1d.make_mask t ls) = true →
  length ls' = length ls → (0 ≤ t')%Z →
  mask_fits [B; C'; t'] (MaskConv1d.make_mask t' ls') = true.
Proof.
  unfold mask_fits, MaskConv1d.make_mask. rewrite !length_fmap.
  intros H Hlen Ht'. apply andb_true_iff in H as [H _].
  apply andb_true_iff. split; [rewrite Hlen; exact H|].
  apply forallb_forall. intros row Hrow.
  apply list_elem_of_In, list_elem_of_fmap in Hrow as (l & -> & _).
  apply bool_decide_eq_true_2. left. rewrite length_fmap, length_seqZ. lia.
Qed.

(** The pointwise convolution of the depthwise-separable block, after a
    masked convolution: only the channels change. *)
Lemma pointwise_after (ci co g : Z) (b : bool) (B C t t' : Z) (ls ls' : list Z) :
  mask_fits [B; C; t] (MaskConv1d.make_mask t ls) = true →
  length ls' = length ls → Forall len_in_int64 ls' → (1 ≤ t')%Z →
  MaskConv1d.forward (MaskConv1d.mk (Conv1d.mk ci co 1 1 0 1 g b) true)
    [B; ci; t'] (LTensor ls')
  = Ok ([B; co; t'], LTensor ls').
Proof.
  intros Hfit Hlen Hls Ht'.
  unfold MaskConv1d.forward, size_at.
  cbn -[mask_fits MaskConv1d.make_mask mapM MaskConv1d.update_len conv1d_out_size].
  rewrite (mask_fits_next B C ci t t' ls ls' Hfit Hlen ltac:(lia)).
  cbn -[mapM MaskConv1d.update_len conv1d_out_size].
  rewrite (mapM_Res_Ok _ id).
  2:{ eapply Forall_impl; [exact Hls|]. intros l Hl. apply update_len_pointwise, Hl. }
  rewrite list_fmap_id. cbn -[conv1d_out_size].
  rewrite bool_decide_eq_true_2 by reflexivity.
  unfold conv1d_out_size. cbn. rewrite bool_decide_eq_true_2 by lia. cbn.
  rewrite Z.div_1_r.
  replace (t' + 2 * 0 - 1 * (1 - 1) - 1 + 1)%Z with t' by lia. reflexivity.
Qed.

(** The two blocks that [Block.init] builds from the same arguments, in the
    same mode. *)
Lemma DwsConvBlock1d_forward_as_plain (tr : bool) (cin cout k s p d : Z) (eps rate : float)
    (act : activation_t) :
  same_forward DwsConvBlock1d.forward MaskConvBlock1d.forward
    (DwsConvBlock1d.train tr (dws_block_of cin cout k s p d false true eps act rate))
    (MaskConvBlock1d.train tr (mask_block_of cin cout k s p d 1 false true eps act rate)).
Proof.
  intros x x_len.
  unfold DwsConvBlock1d.forward, MaskConvBlock1d.forward, DwsConvBlock1d.train,
    MaskConvBlock1d.train, dws_block_of, mask_block_of.
  cbn [DwsConvBlock1d.dw_conv DwsConvBlock1d.pw_conv DwsConvBlock1d.use_channel_shuffle
       DwsConvBlock1d.use_bn DwsConvBlock1d.activate DwsConvBlock1d.use_dropout
       DwsConvBlock1d.bn DwsConvBlock1d.activ DwsConvBlock1d.dropout
       DwsConvBlock1d.shuffle
       MaskConvBlock1d.conv MaskConvBlock1d.use_bn MaskConvBlock1d.activate
       MaskConvBlock1d.use_dropout MaskConvBlock1d.bn MaskConvBlock1d.activ
       MaskConvBlock1d.dropout].
  set (pw := MaskConv1d.forward (MaskConv1d.mk (Conv1d.mk cin cout 1 1 0 1 1 false) true)).
  unfold MaskConv1d.forward, size_at.
  cbn [MaskConv1d.use_mask MaskConv1d.conv].
  destruct x_len as [ls|l|ls y yl]; cbn [MaskConv1d.to_long MaskConv1d.rows mbind Res_bind];
    [|destruct (or_raise IndexError (size x !! 2%nat)); cbn [mbind Res_bind]; reflexivity
     |reflexivity].
  destruct (or_raise IndexError (size x !! 2%nat)) as [t|e] eqn:Ht; [|reflexivity].
  cbn [mbind Res_bind masked_fill shape_ops].
  destruct (mask_fits x (MaskConv1d.make_mask t ls)) eqn:Hfit; [|reflexivity].
  cbn [mbind Res_bind].
  change (MaskConv1d.update_len (Conv1d.mk cin cin k s p d cin false))
    with (MaskConv1d.update_len (Conv1d.mk cin cout k s p d 1 false)).
  destruct (mapM _ ls) as [ls'|e] eqn:Hls; [|reflexivity].
  cbn [mbind Res_bind F_conv1d shape_ops].
  destruct x as [|B [|ch [|t0 [|? ?]]]]; try discriminate Hfit.
  cbn in Ht. injection Ht as ->.
  unfold conv1d_shape.
  cbn [Conv1d.in_channels Conv1d.out_channels].
  case_bool_decide as Hch; [subst ch|reflexivity].
  change (conv1d_out_size (Conv1d.mk cin cin k s p d cin false) t)
    with (conv1d_out_size (Conv1d.mk cin cout k s p d 1 false) t).
  destruct (conv1d_out_size _ t) as [t'|e] eqn:Ht'; [|reflexivity].
  cbn [mbind Res_bind].
  apply mapM_update_len_int64 in Hls as [Hint Hlen].
  subst pw.
  rewrite (pointwise_after cin cout 1 false B cin t t' ls ls' Hfit Hlen Hint
             (conv1d_out_size_pos _ _ _ Ht')).
  reflexivity.
Qed.

(** The two blocks of [Block.init], in the mode [tr]. *)
Lemma block_of_same_forward (tr : bool) (cin cout k s p d : Z) (eps rate : float)
    (act : activation_t) :
  same_forward Block.forward Block.forward
    (Block.train tr (block_of true cin cout k s p d eps rate act))
    (Block.train tr (block_of false cin cout k s p d eps rate act)).
Proof. intros x x_len. apply DwsConvBlock1d_forward_as_plain. Qed.

(** X5. On shapes and lengths the depthwise-separable block cannot be told
    from the plain block built from the same arguments: [Block.forward]
    returns the same shape and the same lengths, or raises the same
    exception, for either choice of [use_dw]. *)
Theorem Block_forward_use_dw (cin cout k s p d : Z) (eps rate : float)
    (act : activation_t) (b1 b2 : Block.t) (x : list Z) (x_len : len_arg (list Z)) :
  Block.init true cin cout k s p d eps rate act = Ok b1 →
  Block.init false cin cout k s p d eps rate act = Ok b2 →
  Block.forward b1 x x_len = Block.forward b2 x x_len.
Proof.
  intros H1 H2. apply Block_init_inv in H1 as ->. apply Block_init_inv in H2 as ->.
  rewrite <- (block_of_train_true true), <- (block_of_train_true false).
  apply block_of_same_forward.
Qed.

Lemma Block_forward_use_dw_witness :
  Block.forward
    (Block.Dws (DwsConvBlock1d.mk true true false false
       (MaskConv1d.mk (Conv1d.mk 64 64 11 2 5 1 64 false) true)
       (MaskConv1d.mk (Conv1d.mk 64 256 1 1 0 1 1 false) true)
       None (Some (BatchNorm1d.mk 256 1e-3 true)) (Some (ReLU.mk true)) None))
    [2; 64; 100]%Z (LTensor [100; 77]%Z)
  = Ok ([2; 256; 50]%Z, LTensor [50; 39]%Z).
Proof.
  refine (eq_trans (Block_forward_use_dw 64 256 11 2 5 1 1e-3 0 relu_inplace _ _
                      [2; 64; 100]%Z (LTensor [100; 77]%Z) eq_refl eq_refl) _).
  vm_compute. reflexivity.
Defined.

(** ** The flag [use_dw] through the model *)

Lemma Block_init_same_forward (tr : bool) (cin cout k s p d : Z) (eps rate : float)
    (act : activation_t) (b1 b2 : Block.t) :
  Block.init true cin cout k s p d eps rate act = Ok b1 →
  Block.init false cin cout k s p d eps rate act = Ok b2 →
  same_forward Block.forward Block.forward (Block.train tr b1) (Block.train tr b2).
Proof.
  intros H1 H2. apply Block_init_inv in H1 as ->. apply Block_init_inv in H2 as ->.
  apply block_of_same_forward.
Qed.

(** Two containers whose children agree pairwise. *)
Lemma DualPathSequential_same_forward {M}
    (fwd : M → list Z → len_arg (list Z) → Res (list Z * len_arg (list Z)))
    (l1 l2 : DualPathSequential.t M) :
  Forall2 (λ m1 m2, same_forward fwd fwd m1.2 m2.2) l1 l2 →
  same_forward (DualPathSequential.forward fwd) (DualPathSequential.forward fwd) l1 l2.
Proof.
  induction 1 as [|[n1 m1] [n2 m2] l1 l2 Hm _ IH]; intros x x_len; [reflexivity|].
  cbn [DualPathSequential.forward]. cbn in Hm. rewrite (Hm x x_len).
  destruct (fwd m2 x x_len) as [[y y_len]|e]; cbn [mbind Res_bind]; [apply IH|reflexivity].
Qed.

(** Two containers, in the mode [tr], whose children agree pairwise in that
    mode. *)
Lemma DualPathSequential_train_same_forward {M} (train_child : bool → M → M)
    (fwd : M → list Z → len_arg (list Z) → Res (list Z * len_arg (list Z)))
    (tr : bool) (l1 l2 : DualPathSequential.t M) :
  Forall2 (λ m1 m2, same_forward fwd fwd (train_child tr m1.2) (train_child tr m2.2)) l1 l2 →
  same_forward (DualPathSequential.forward fwd) (DualPathSequential.forward fwd)
    (DualPathSequential.train train_child tr l1) (DualPathSequential.train train_child tr l2).
Proof.
  intros H. apply DualPathSequential_same_forward. unfold DualPathSequential.train.
  apply Forall2_fmap. eapply Forall2_impl; [exact H|].
  intros [n1 m1] [n2 m2] Hm. exact Hm.
Qed.

Lemma body_loop_same_forward (tr : bool) (idxs : list Z) (repeat cin cout k : Z)
    (eps rate : float) (body1 body2 body1' body2' : DualPathSequential.t Block.t) :
  Forall2 (λ m1 m2, same_forward Block.forward Block.forward
                      (Block.train tr m1.2) (Block.train tr m2.2)) body1 body2 →
  JasperUnit.body_loop true idxs repeat cin cout k eps rate body1 = Ok body1' →
  JasperUnit.body_loop false idxs repeat cin cout k eps rate body2 = Ok body2' →
  Forall2 (λ m1 m2, same_forward Block.forward Block.forward
                      (Block.train tr m1.2) (Block.train tr m2.2)) body1' body2'.
Proof.
  revert cin body1 body2.
  induction idxs as [|i idxs IH]; intros cin body1 body2 Hb; cbn [JasperUnit.body_loop].
  - intros [= <-] [= <-]. exact Hb.
  - destruct (Block.init true _ _ _ _ _ _ _ _ _) as [b1|e] eqn:H1; [|discriminate].
    destruct (Block.init false _ _ _ _ _ _ _ _ _) as [b2|e] eqn:H2; [|discriminate].
    cbn [mbind Res_bind]. apply IH.
    unfold DualPathSequential.add_module. apply Forall2_app; [exact Hb|].
    constructor; [|constructor]. cbn.
    apply (Block_init_same_forward tr _ _ _ _ _ _ _ _ _ _ _ H1 H2).
Qed.

Lemma JasperUnit_init_same_forward (tr : bool) (ch : JasperUnit.channels_arg) (cout k : Z)
    (eps rate : float) (repeat : Z) (use_dr : bool) (u1 u2 : JasperUnit.t) :
  JasperUnit.init ch cout k eps rate repeat true use_dr = Ok u1 →
  JasperUnit.init ch cout k eps rate repeat false use_dr = Ok u2 →
  same_forward JasperUnit.forward JasperUnit.forward
    (JasperUnit.train tr u1) (JasperUnit.train tr u2).
Proof.
  unfold JasperUnit.init.
  match goal with |- context [mbind _ ?m] =>
    destruct m as [[idb c]|e]; [|discriminate] end.
  cbn [mbind Res_bind].
  destruct (JasperUnit.body_loop true _ _ _ _ _ _ _ _) as [body1|e] eqn:H1; [|discriminate].
  destruct (JasperUnit.body_loop false _ _ _ _ _ _ _ _) as [body2|e] eqn:H2; [|discriminate].
  cbn [mbind Res_bind].
  destruct (if rate_nonzero rate then _ else _) as [dr|e]; [|discriminate].
  cbn [mbind Res_bind]. intros [= <-] [= <-].
  pose proof (DualPathSequential_train_same_forward Block.train Block.forward tr body1 body2
                (body_loop_same_forward tr _ _ _ _ _ _ _ [] [] _ _ (List.Forall2_nil _)
                   H1 H2))
    as Hbody.
  intros x x_len. unfold JasperUnit.forward, JasperUnit.train.
  cbn [JasperUnit.use_dr JasperUnit.identity_block JasperUnit.body JasperUnit.activ
       JasperUnit.use_dropout JasperUnit.dropout].
  destruct use_dr.
  - destruct x_len as [l|l|l y yl]; cbn [mbind Res_bind]; [|reflexivity|];
      (destruct idb as [ib|bs]; cbn [mbind Res_bind]; [reflexivity|]);
      (destruct (DualPathParallelConcurent.forward _ _ _ _) as [[idn ?]|e];
         cbn [mbind Res_bind]; [|reflexivity]);
      (destruct (stack_sum idn) as [idt|e]; cbn [mbind Res_bind]; [|reflexivity]);
      rewrite (Hbody x (LTensor l)); reflexivity.
  - destruct idb as [ib|bs]; cbn [mbind Res_bind]; [|reflexivity].
    destruct (MaskConvBlock1d.forward _ x x_len) as [[idt ?]|e]; cbn [mbind Res_bind];
      [|reflexivity].
    rewrite (Hbody x x_len). reflexivity.
Qed.

Lemma units_loop_same_forward (tr use_dr : bool) (eps : float) (repeat i : Z)
    (stages : list (Z * Z * float)) (cin : Z) (cins : list Z)
    (f1 f2 f1' f2' : DualPathSequential.t Jasper.feature) (c1 c2 : Z) :
  Forall2 (λ m1 m2, same_forward Jasper.feature_forward Jasper.feature_forward
                      (Jasper.feature_train tr m1.2) (Jasper.feature_train tr m2.2))
    f1 f2 →
  Jasper.units_loop true use_dr eps repeat i stages cin cins f1 = Ok (f1', c1) →
  Jasper.units_loop false use_dr eps repeat i stages cin cins f2 = Ok (f2', c2) →
  c1 = c2 ∧
  Forall2 (λ m1 m2, same_forward Jasper.feature_forward Jasper.feature_forward
                      (Jasper.feature_train tr m1.2) (Jasper.feature_train tr m2.2))
    f1' f2'.
Proof.
  revert i cin cins f1 f2.
  induction stages as [|[[c k] rate] stages IH]; intros i cin cins f1 f2 Hf;
    cbn [Jasper.units_loop].
  - intros [= <- <-] [= <- <-]. split; [reflexivity|exact Hf].
  - destruct (JasperUnit.init _ c k eps rate repeat true use_dr) as [u1|e] eqn:H1;
      [|discriminate].
    destruct (JasperUnit.init _ c k eps rate repeat false use_dr) as [u2|e] eqn:H2;
      [|discriminate].
    cbn [mbind Res_bind]. apply IH.
    unfold DualPathSequential.add_module. apply Forall2_app; [exact Hf|].
    constructor; [|constructor]. cbn.
    apply (JasperUnit_init_same_forward tr _ _ _ _ _ _ _ _ _ H1 H2).
Qed.

Lemma JasperFinalBlock_init_same_forward (tr : bool) (cin : Z)
    (channels kernel_sizes : list Z)
    (eps : float) (rates : list float) (use_dr : bool) (f1 f2 : JasperFinalBlock.t) :
  JasperFinalBlock.init cin channels kernel_sizes eps rates true use_dr = Ok f1 →
  JasperFinalBlock.init cin channels kernel_sizes eps rates false use_dr = Ok f2 →
  same_forward JasperFinalBlock.forward JasperFinalBlock.forward
    (JasperFinalBlock.train tr f1) (JasperFinalBlock.train tr f2).
Proof.
  unfold JasperFinalBlock.init.
  destruct (py_index channels (-2)) as [c2|e]; [|discriminate]. cbn [mbind Res_bind].
  destruct (py_index kernel_sizes (-2)) as [k2|e]; [|discriminate]. cbn [mbind Res_bind].
  destruct (py_index rates (-2)) as [d2|e]; [|discriminate]. cbn [mbind Res_bind].
  destruct (Block.init true _ _ _ _ _ _ _ _ _) as [b1|e] eqn:H1; [|discriminate].
  destruct (Block.init false _ _ _ _ _ _ _ _ _) as [b2|e] eqn:H2; [|discriminate].
  cbn [mbind Res_bind].
  destruct (py_index channels (-1)) as [c1|e]; [|discriminate]. cbn [mbind Res_bind].
  destruct (py_index kernel_sizes (-1)) as [k1|e]; [|discriminate]. cbn [mbind Res_bind].
  destruct (py_index rates (-1)) as [d1|e]; [|discriminate]. cbn [mbind Res_bind].
  destruct (MaskConvBlock1d.init _ _ _ _ _ _ _ _ _ _ _ _) as [cv2|e]; [|discriminate].
  cbn [mbind Res_bind].
  intros [= <-] [= <-] x x_len. unfold JasperFinalBlock.forward, JasperFinalBlock.train.
  cbn [JasperFinalBlock.use_dr JasperFinalBlock.conv1 JasperFinalBlock.conv2].
  destruct (if use_dr then JasperFinalBlock.getitem0 x_len else Ok x_len) as [l|e];
    cbn [mbind Res_bind]; [|reflexivity].
  rewrite (Block_init_same_forward tr _ _ _ _ _ _ _ _ _ _ _ H1 H2 x l). reflexivity.
Qed.

(** X6. The flag [use_dw] changes no shape and no length: two models built
    by [Jasper] from the same arguments, one with depthwise-separable blocks
    and one with plain blocks, return the same output shape and the same
    lengths, or raise the same exception, on every input shape and every
    length argument, with or without dense residual connections. *)
Theorem Jasper_forward_use_dw (channels kernel_sizes : list Z) (eps : float)
    (rates : list float) (repeat : Z) (use_dr : bool) (cin ncls : Z) (n1 n2 : Jasper.t)
    (x : list Z) (x_len : len_arg (list Z)) :
  Jasper.init channels kernel_sizes eps rates repeat true use_dr cin ncls = Ok n1 →
  Jasper.init channels kernel_sizes eps rates repeat false use_dr cin ncls = Ok n2 →
  Jasper.forward n1 x x_len = Jasper.forward n2 x x_len.
Proof.
  intros Hn1 Hn2.
  rewrite <- (Jasper_init_train_true _ _ _ _ _ _ _ _ _ _ Hn1),
          <- (Jasper_init_train_true _ _ _ _ _ _ _ _ _ _ Hn2).
  revert Hn1 Hn2. unfold Jasper.init.
  destruct (py_index channels 0) as [c0|e]; [|discriminate]. cbn [mbind Res_bind].
  destruct (py_index kernel_sizes 0) as [k0|e]; [|discriminate]. cbn [mbind Res_bind].
  destruct (py_index rates 0) as [d0|e]; [|discriminate]. cbn [mbind Res_bind].
  destruct (Block.init true _ _ _ _ _ _ _ _ _) as [b1|e] eqn:H1; [|discriminate].
  destruct (Block.init false _ _ _ _ _ _ _ _ _) as [b2|e] eqn:H2; [|discriminate].
  cbn [mbind Res_bind].
  destruct (Jasper.units_loop true _ _ _ _ _ _ _ _) as [[fs1 cu1]|e] eqn:Hu1; [|discriminate].
  destruct (Jasper.units_loop false _ _ _ _ _ _ _ _) as [[fs2 cu2]|e] eqn:Hu2; [|discriminate].
  cbn [mbind Res_bind].
  assert (Forall2 (λ m1 m2 : string * Jasper.feature,
                     same_forward Jasper.feature_forward Jasper.feature_forward
                       (Jasper.feature_train true m1.2) (Jasper.feature_train true m2.2))
            (DualPathSequential.add_module [] "init_block" (Jasper.FBlock b1))
            (DualPathSequential.add_module [] "init_block" (Jasper.FBlock b2))) as Hinit.
  { constructor; [|constructor]. cbn.
    exact (Block_init_same_forward true _ _ _ _ _ _ _ _ _ _ _ H1 H2). }
  destruct (units_loop_same_forward true _ _ _ _ _ _ _ _ _ _ _ _ _ Hinit Hu1 Hu2)
    as [<- Hfs].
  destruct (JasperFinalBlock.init _ _ _ _ _ true _) as [fb1|e] eqn:Hf1; [|discriminate].
  destruct (JasperFinalBlock.init _ _ _ _ _ false _) as [fb2|e] eqn:Hf2; [|discriminate].
  cbn [mbind Res_bind].
  destruct (py_index channels (-1)) as [cl|e]; [|discriminate]. cbn [mbind Res_bind].
  destruct (conv1d1 _ _ _ _ _) as [out|e]; [|discriminate]. cbn [mbind Res_bind].
  intros [= <-] [= <-]. unfold Jasper.forward, Jasper.train.
  cbn [Jasper.features Jasper.output].
  rewrite (DualPathSequential_train_same_forward Jasper.feature_train Jasper.feature_forward
             true
             (DualPathSequential.add_module fs1 "final_block" (Jasper.FFinal fb1))
             (DualPathSequential.add_module fs2 "final_block" (Jasper.FFinal fb2))).
  - reflexivity.
  - unfold DualPathSequential.add_module. apply Forall2_app; [exact Hfs|].
    constructor; [|constructor]. cbn.
    exact (JasperFinalBlock_init_same_forward true _ _ _ _ _ _ _ _ Hf1 Hf2).
Qed.

Lemma Jasper_forward_use_dw_witness :
  ∃ n1 : Jasper.t,
    Jasper.init [4; 6; 8; 6; 10]%Z [3; 5; 7; 3; 1]%Z 1e-3 [0.2; 0.2; 0.3; 0.4; 0.4]%float
      2 true true 3 5 = Ok n1
    ∧ Jasper.forward n1 [2; 3; 9]%Z (LTensor [9; 4]%Z)
      = Ok ([2; 5; 5]%Z, LTensor [5; 2]%Z).
Proof.
  eexists. split; [vm_compute; reflexivity|].
  refine (eq_trans (Jasper_forward_use_dw [4; 6; 8; 6; 10]%Z [3; 5; 7; 3; 1]%Z 1e-3
                      [0.2; 0.2; 0.3; 0.4; 0.4]%float 2 true 3 5 _ _
                      [2; 3; 9]%Z (LTensor [9; 4]%Z) eq_refl eq_refl) _).
  vm_compute. reflexivity.
Defined.

(** ** The lengths through the model *)

Lemma MaskConv1d_forward_exact (c : Conv1d.t) (B t : Z) (x_len : list Z) :
  valid_conv c → (0 ≤ t)%Z → lens_fit B x_len → Forall len_in_range x_len →
  MaskConv1d.forward (MaskConv1d.mk c true) [B; Conv1d.in_channels c; t] (LTensor x_len)
  = (t' ← conv1d_out_size c t;
     Ok ([B; Conv1d.out_channels c; t'], LTensor (conv_out_len c <$> x_len))).
Proof.
  intros Hc Ht Hfit Hr.
  unfold MaskConv1d.forward, size_at.
  cbn -[mask_fits MaskConv1d.make_mask mapM conv1d_out_size].
  rewrite (make_mask_fits_shape B (Conv1d.in_channels c) t x_len Ht Hfit).
  cbn -[mapM conv1d_out_size].
  rewrite (mapM_Res_Ok _ (conv_out_len c)).
  2:{ eapply Forall_impl; [exact Hr|]. intros l Hl. apply update_len_formula; assumption. }
  cbn -[conv1d_out_size].
  rewrite bool_decide_eq_true_2 by reflexivity.
  destruct (conv1d_out_size c t); reflexivity.
Qed.

Lemma mask_block_forward_exact (tr : bool) (cin cout k s p d : Z) (eps rate : float)
    (act : activation_t) (B t : Z) (x_len : list Z) :
  valid_conv (Conv1d.mk cin cout k s p d 1 false) → (0 ≤ t)%Z → lens_fit B x_len →
  Forall len_in_range x_len →
  MaskConvBlock1d.forward
    (MaskConvBlock1d.train tr (mask_block_of cin cout k s p d 1 false true eps act rate))
    [B; cin; t] (LTensor x_len)
  = (t' ← conv1d_out_size (Conv1d.mk cin cout k s p d 1 false) t;
     if tr && bool_decide (B * t' = 1)%Z then Raise batch_norm_training_error
     else Ok ([B; cout; t'],
              LTensor (conv_out_len (Conv1d.mk cin cout k s p d 1 false) <$> x_len))).
Proof.
  intros Hc Ht Hfit Hr.
  unfold MaskConvBlock1d.forward, MaskConvBlock1d.train, mask_block_of.
  cbn [MaskConvBlock1d.conv MaskConvBlock1d.use_bn MaskConvBlock1d.bn
       MaskConvBlock1d.activate MaskConvBlock1d.activ MaskConvBlock1d.use_dropout
       MaskConvBlock1d.dropout].
  pose proof (MaskConv1d_forward_exact _ B t x_len Hc Ht Hfit Hr) as Hfwd.
  cbn [Conv1d.in_channels Conv1d.out_channels] in Hfwd. rewrite Hfwd.
  destruct (conv1d_out_size _ t) as [t'|e]; [|reflexivity].
  cbn [mbind Res_bind fmap option_fmap option_map attr or_raise F_batch_norm shape_ops].
  unfold batch_norm_shape.
  cbn [BatchNorm1d.train BatchNorm1d.training BatchNorm1d.num_features].
  destruct (tr && bool_decide (B * t' = 1)%Z); [reflexivity|].
  rewrite bool_decide_eq_true_2 by reflexivity. cbn [mbind Res_bind].
  destruct act as [f|], (rate_nonzero rate); reflexivity.
Qed.

(** A block of either class, in the mode [tr]. *)
Lemma Block_forward_exact (tr use_dw : bool) (cin cout k s p d : Z) (eps rate : float)
    (act : activation_t) (b : Block.t) (B t : Z) (x_len : list Z) :
  Block.init use_dw cin cout k s p d eps rate act = Ok b →
  valid_conv (Conv1d.mk cin cout k s p d 1 false) → (0 ≤ t)%Z → lens_fit B x_len →
  Forall len_in_range x_len →
  Block.forward (Block.train tr b) [B; cin; t] (LTensor x_len)
  = (t' ← conv1d_out_size (Conv1d.mk cin cout k s p d 1 false) t;
     if tr && bool_decide (B * t' = 1)%Z then Raise batch_norm_training_error
     else Ok ([B; cout; t'],
              LTensor (conv_out_len (Conv1d.mk cin cout k s p d 1 false) <$> x_len))).
Proof.
  intros Hb Hc Ht Hfit Hr. apply Block_init_inv in Hb as ->.
  assert (Block.forward (Block.train tr (block_of use_dw cin cout k s p d eps rate act))
            [B; cin; t] (LTensor x_len)
          = MaskConvBlock1d.forward
              (MaskConvBlock1d.train tr
                 (mask_block_of cin cout k s p d 1 false true eps act rate))
              [B; cin; t] (LTensor x_len)) as ->.
  { destruct use_dw; [apply block_of_same_forward|reflexivity]. }
  apply mask_block_forward_exact; assumption.
Qed.

Lemma conv_out_len_same (cin cout k l : Z) :
  odd_kernel k → conv_out_len (Conv1d.mk cin cout k 1 (k / 2) 1 1 false) l = l.
Proof.
  intros [Hk Hodd]. unfold conv_out_len. cbn.
  pose proof (Z.div_mod k 2 ltac:(lia)) as Hdm.
  rewrite Z.div_1_r. lia.
Qed.

Lemma fmap_id_ext (f : Z → Z) (l : list Z) : (∀ x, f x = x) → f <$> l = l.
Proof.
  intros Hf. induction l as [|x l IH]; [reflexivity|]. cbn. rewrite Hf, IH. reflexivity.
Qed.

(** A block of stride 1 with an odd kernel and padding [kernel // 2], of
    either class, keeps the time axis and the lengths. *)
Lemma same_block_keeps_len (tr use_dw : bool) (cin cout k : Z) (eps rate : float)
    (act : activation_t) (b : Block.t) :
  odd_kernel k →
  Block.init use_dw cin cout k 1 (k / 2) 1 eps rate act = Ok b →
  keeps_len tr Block.forward (Block.train tr b) cin cout.
Proof.
  intros Hk Hb B t x_len Ht Hbn Hfit Hr.
  rewrite (Block_forward_exact tr use_dw cin cout k 1 (k / 2) 1 eps rate act b B t x_len Hb
             (valid_conv_same cin cout k Hk) ltac:(lia) Hfit Hr).
  rewrite (conv1d_out_size_same cin cout k t Hk Ht). cbn [mbind Res_bind].
  rewrite (batch_fits_false tr B t Hbn).
  rewrite (fmap_id_ext _ x_len (λ l, conv_out_len_same cin cout k l Hk)). reflexivity.
Qed.

Lemma chain_keeps_len {M} (tr : bool)
    (fwd : M → list Z → len_arg (list Z) → Res (list Z * len_arg (list Z)))
    (c1 c2 : Z) (l : list (string * M)) :
  chain_len tr fwd c1 c2 l → keeps_len tr (DualPathSequential.forward fwd) l c1 c2.
Proof.
  induction 1 as [c|c1 c2 c3 name m rest Hm _ IH]; intros B t x_len Ht Hbn Hfit Hr.
  - reflexivity.
  - cbn. rewrite (Hm B t x_len Ht Hbn Hfit Hr). cbn. apply IH; assumption.
Qed.

Lemma body_loop_chain_len (tr use_dw : bool) (idxs : list Z) (repeat cin cout k : Z)
    (eps rate : float) (body body' : DualPathSequential.t Block.t) :
  odd_kernel k →
  JasperUnit.body_loop use_dw idxs repeat cin cout k eps rate body = Ok body' →
  ∃ bs, body' = body ++ bs
        ∧ chain_len tr Block.forward cin (match idxs with [] => cin | _ => cout end)
            (DualPathSequential.train Block.train tr bs).
Proof.
  intros Hk. revert cin body.
  induction idxs as [|i idxs IH]; intros cin body; cbn [JasperUnit.body_loop].
  - intros [= <-]. exists []. rewrite app_nil_r. split; [reflexivity|constructor].
  - destruct (Block.init use_dw cin cout k 1 (k / 2) 1 eps _ _) as [b|e] eqn:Hb;
      [|discriminate].
    cbn [mbind Res_bind]. intros Hloop. apply IH in Hloop as (bs & -> & Hbs).
    eexists. unfold DualPathSequential.add_module. rewrite <- app_assoc.
    split; [reflexivity|]. cbn. econstructor.
    + apply (same_block_keeps_len tr use_dw cin cout k _ _ _ b Hk Hb).
    + destruct idxs; exact Hbs.
Qed.

(** The identity block of a unit keeps the time axis and the lengths. *)
Lemma pointwise_block_keeps_len (tr : bool) (c cout : Z) (eps : float) :
  keeps_len tr MaskConvBlock1d.forward
    (MaskConvBlock1d.train tr (mask_block_of c cout 1 1 0 1 1 false true eps None 0))
    c cout.
Proof.
  assert (odd_kernel 1) as H1 by (unfold odd_kernel; norm_pow2; done).
  intros B t x_len Ht Hbn Hfit Hr.
  pose proof (same_block_keeps_len tr false c cout 1 eps 0 None _ H1
                (Block_init_Ok false c cout 1 1 (1 / 2) 1 eps 0 None
                   ltac:(discriminate) valid_rate_0)
                B t x_len Ht Hbn Hfit Hr) as H.
  exact H.
Qed.

(** A unit without dense residual connections and with at least one body
    block keeps the time axis and the lengths. *)
Lemma JasperUnit_keeps_len (tr use_dw : bool) (cin cout k : Z) (eps rate : float)
    (repeat : Z) (u : JasperUnit.t) :
  odd_kernel k → (1 ≤ repeat)%Z →
  JasperUnit.init (JasperUnit.ChInt cin) cout k eps rate repeat use_dw false = Ok u →
  keeps_len tr JasperUnit.forward (JasperUnit.train tr u) cin cout.
Proof.
  intros Hk Hrep. unfold JasperUnit.init.
  rewrite mask_conv1d1_block_Ok. cbn [mbind Res_bind].
  destruct (JasperUnit.body_loop _ _ _ _ _ _ _ _ _) as [body|e] eqn:Hbody;
    cbn [mbind Res_bind]; [|discriminate].
  destruct (if rate_nonzero rate then _ else _) as [dr|e] eqn:Hd; [|discriminate].
  cbn [mbind Res_bind]. intros [= <-].
  apply dropout_opt_inv in Hd as (-> & _).
  apply (body_loop_chain_len tr) in Hbody as (bs & -> & Hbs); [|exact Hk].
  rewrite seqZ_cons in Hbs by lia.
  apply chain_keeps_len in Hbs.
  intros B t x_len Ht Hbn Hfit Hr. unfold JasperUnit.forward, JasperUnit.train.
  cbn [JasperUnit.use_dr JasperUnit.identity_block JasperUnit.body JasperUnit.activ
       JasperUnit.use_dropout JasperUnit.dropout app mbind Res_bind].
  rewrite (pointwise_block_keeps_len tr cin cout eps B t x_len Ht Hbn Hfit Hr).
  cbn [mbind Res_bind].
  rewrite (Hbs B t x_len Ht Hbn Hfit Hr). cbn [mbind Res_bind].
  cbn [t_add shape_ops]. rewrite broadcast_same. cbn [mbind Res_bind].
  destruct (rate_nonzero rate); cbn; reflexivity.
Qed.

Lemma units_loop_chain_len (tr use_dw : bool) (eps : float) (repeat i : Z)
    (stages : list (Z * Z * float)) (cin cout : Z) (cins : list Z)
    (features features' : DualPathSequential.t Jasper.feature) :
  Forall (λ st, odd_kernel st.1.2) stages → (1 ≤ repeat)%Z →
  Jasper.units_loop use_dw false eps repeat i stages cin cins features
  = Ok (features', cout) →
  ∃ us, features' = features ++ us
        ∧ chain_len tr Jasper.feature_forward cin cout
            (DualPathSequential.train Jasper.feature_train tr us).
Proof.
  intros Hst Hrep. revert i cin cins features.
  induction Hst as [|[[c k] rate] stages Hk _ IH]; intros i cin cins features.
  - cbn. intros [= <- <-]. exists []. rewrite app_nil_r. split; [reflexivity|constructor].
  - cbn [Jasper.units_loop].
    destruct (JasperUnit.init _ c k eps rate repeat use_dw false) as [u|e] eqn:Hu;
      [|discriminate].
    cbn [mbind Res_bind]. intros Hloop.
    apply IH in Hloop as (us & -> & Hus).
    exists ((numbered "unit" i, Jasper.FUnit u) :: us).
    unfold DualPathSequential.add_module. rewrite <- app_assoc.
    split; [reflexivity|]. cbn. econstructor; [|exact Hus].
    apply (JasperUnit_keeps_len tr use_dw cin c k eps rate repeat u Hk Hrep Hu).
Qed.

(** The first block of the final block: dilation 2, padding
    [2 * kernel // 2 - 1], stride 1. *)
Lemma dilated_block_keeps_len (tr use_dw : bool) (cin cout k : Z) (eps rate : float)
    (act : activation_t) (b : Block.t) :
  odd_kernel k →
  Block.init use_dw cin cout k 1 (2 * k / 2 - 1) 2 eps rate act = Ok b →
  keeps_len tr Block.forward (Block.train tr b) cin cout.
Proof.
  intros [Hk Hodd] Hb B t x_len Ht Hbn Hfit Hr.
  assert (2 * k / 2 = k)%Z as Hdiv by (rewrite Z.mul_comm; apply Z.div_mul; lia).
  assert (valid_conv (Conv1d.mk cin cout k 1 (2 * k / 2 - 1) 2 1 false)) as Hc.
  { unfold valid_conv. cbn. rewrite Hdiv. norm_pow2. lia. }
  rewrite (Block_forward_exact tr use_dw cin cout k 1 (2 * k / 2 - 1) 2 eps rate act b
             B t x_len Hb Hc ltac:(lia) Hfit Hr).
  unfold conv1d_out_size, conv_out_len. cbn. rewrite Hdiv.
  rewrite bool_decide_eq_true_2 by (norm_pow2; lia). cbn [mbind Res_bind].
  rewrite Z.div_1_r.
  replace (t + 2 * (k - 1) - 2 * (k - 1) - 1 + 1)%Z with t by lia.
  rewrite (batch_fits_false tr B t Hbn).
  rewrite (fmap_id_ext _ x_len); [reflexivity|].
  intros l. rewrite Z.div_1_r. lia.
Qed.

Lemma JasperFinalBlock_keeps_len (tr use_dw : bool) (cin cout : Z)
    (channels kernel_sizes : list Z) (eps : float) (rates : list float)
    (f : JasperFinalBlock.t) :
  Forall odd_kernel kernel_sizes → py_index channels (-1) = Ok cout →
  JasperFinalBlock.init cin channels kernel_sizes eps rates use_dw false = Ok f →
  keeps_len tr JasperFinalBlock.forward (JasperFinalBlock.train tr f) cin cout.
Proof.
  intros Hks Hcout. unfold JasperFinalBlock.init.
  destruct (py_index channels (-2)) as [c2|e]; [|discriminate]. cbn [mbind Res_bind].
  destruct (py_index kernel_sizes (-2)) as [k2|e] eqn:Hk2; [|discriminate].
  cbn [mbind Res_bind].
  destruct (py_index rates (-2)) as [d2|e]; [|discriminate]. cbn [mbind Res_bind].
  destruct (Block.init use_dw cin c2 k2 1 _ 2 eps d2 relu_inplace) as [b1|e] eqn:Hb1;
    [|discriminate].
  cbn [mbind Res_bind]. rewrite Hcout. cbn [mbind Res_bind].
  destruct (py_index kernel_sizes (-1)) as [k1|e] eqn:Hk1; [|discriminate].
  cbn [mbind Res_bind].
  destruct (py_index rates (-1)) as [d1|e]; [|discriminate]. cbn [mbind Res_bind].
  destruct (MaskConvBlock1d.init _ _ _ _ _ _ _ _ _ _ _ _) as [b2|e] eqn:Hb2; [|discriminate].
  cbn [mbind Res_bind]. intros [= <-].
  rewrite Forall_forall in Hks.
  pose proof (Hks k2 (py_index_elem _ _ _ Hk2)) as Hodd2.
  pose proof (Hks k1 (py_index_elem _ _ _ Hk1)) as Hodd1.
  intros B t x_len Ht Hbn Hfit Hr. unfold JasperFinalBlock.forward, JasperFinalBlock.train.
  cbn [JasperFinalBlock.use_dr JasperFinalBlock.conv1 JasperFinalBlock.conv2
       mbind Res_bind].
  rewrite (dilated_block_keeps_len tr use_dw cin c2 k2 eps d2 relu_inplace b1 Hodd2 Hb1
             B t x_len Ht Hbn Hfit Hr).
  cbn [mbind Res_bind].
  assert (Block.init false c2 cout k1 1 (k1 / 2) 1 eps d1 relu_inplace
          = Ok (Block.Mask b2)) as Hb2'.
  { unfold Block.init. rewrite Hb2. reflexivity. }
  pose proof (same_block_keeps_len tr false c2 cout k1 eps d1 relu_inplace _ Hodd1 Hb2'
                B t x_len Ht Hbn Hfit Hr) as H2.
  cbn [Block.forward Block.train] in H2. rewrite H2. reflexivity.
Qed.

Lemma len_in_range_halved (l : Z) : len_in_range l → len_in_range (halved l).
Proof.
  unfold len_in_range, halved. norm_pow2. intros Hl.
  pose proof (Z.div_mod (l - 1) 2 ltac:(lia)).
  pose proof (Z.mod_pos_bound (l - 1) 2 ltac:(lia)). lia.
Qed.

Lemma halved_mono (l L : Z) : (l ≤ L)%Z → (halved l ≤ halved L)%Z.
Proof.
  unfold halved. intros H.
  assert ((l - 1) / 2 ≤ (L - 1) / 2)%Z by (apply Z.div_le_mono; lia). lia.
Qed.

Lemma Jasper_init_lengths (channels kernel_sizes : list Z) (eps : float)
    (rates : list float) (repeat : Z) (use_dw use_dr : bool) (cin ncls : Z) (net : Jasper.t) :
  Jasper.init channels kernel_sizes eps rates repeat use_dw use_dr cin ncls = Ok net →
  (2 ≤ length channels)%nat ∧ (2 ≤ length kernel_sizes)%nat ∧ (2 ≤ length rates)%nat.
Proof.
  assert (∀ (A : Type) (l : list A) (a : A),
            py_index l (-2) = Ok a → (2 ≤ length l)%nat) as Hinv.
  { intros A l a. unfold py_index.
    rewrite bool_decide_eq_false_2 by lia.
    case_bool_decide as Hl; [|discriminate]. lia. }
  unfold Jasper.init.
  destruct (py_index channels 0) as [c0|e]; [|discriminate]. cbn [mbind Res_bind].
  destruct (py_index kernel_sizes 0) as [k0|e]; [|discriminate]. cbn [mbind Res_bind].
  destruct (py_index rates 0) as [d0|e]; [|discriminate]. cbn [mbind Res_bind].
  destruct (Block.init _ _ _ _ _ _ _ _ _ _) as [b0|e]; [|discriminate].
  cbn [mbind Res_bind].
  destruct (Jasper.units_loop _ _ _ _ _ _ _ _ _) as [[fs cu]|e]; [|discriminate].
  cbn [mbind Res_bind].
  destruct (JasperFinalBlock.init _ _ _ _ _ _ _) as [f|e] eqn:Hf; [|discriminate].
  intros _. revert Hf. unfold JasperFinalBlock.init.
  destruct (py_index channels (-2)) as [c2|e] eqn:H1; [|discriminate]. cbn [mbind Res_bind].
  destruct (py_index kernel_sizes (-2)) as [k2|e] eqn:H2; [|discriminate].
  cbn [mbind Res_bind].
  destruct (py_index rates (-2)) as [d2|e] eqn:H3; [|discriminate].
  intros _. repeat split; eapply Hinv; eassumption.
Qed.

(** The shape and the lengths through a model without dense residual
    connections whose kernel sizes are odd, in the mode [tr]. *)
Lemma Jasper_forward_exact (tr : bool) (channels kernel_sizes : list Z) (eps : float)
    (rates : list float) (repeat : Z) (use_dw : bool) (cin ncls : Z) (net : Jasper.t)
    (B L : Z) (x_len : list Z) :
  Jasper.init channels kernel_sizes eps rates repeat use_dw false cin ncls = Ok net →
  Forall odd_kernel kernel_sizes → (1 ≤ repeat)%Z → (1 ≤ L)%Z → lens_fit B x_len →
  Forall len_in_range x_len →
  Jasper.forward (Jasper.train tr net) [B; cin; L] (LTensor x_len)
  = if tr && bool_decide (B * halved L = 1)%Z then Raise batch_norm_training_error
    else Ok ([B; ncls; halved L], LTensor (halved <$> x_len)).
Proof.
  intros Hinit Hks Hrep HL Hfit Hr. revert Hinit. unfold Jasper.init.
  destruct (py_index channels 0) as [c0|e]; [|discriminate]. cbn [mbind Res_bind].
  destruct (py_index kernel_sizes 0) as [k0|e] eqn:Hk0; [|discriminate].
  cbn [mbind Res_bind].
  destruct (py_index rates 0) as [d0|e]; [|discriminate]. cbn [mbind Res_bind].
  destruct (Block.init use_dw cin c0 k0 2 _ 1 eps d0 relu_inplace) as [b0|e] eqn:Hb0;
    [|discriminate].
  cbn [mbind Res_bind].
  destruct (Jasper.units_loop _ _ _ _ _ _ _ _ _) as [[features cu]|e] eqn:Hunits;
    [|discriminate].
  cbn [mbind Res_bind].
  destruct (JasperFinalBlock.init _ _ _ _ _ _ _) as [f|e] eqn:Hfinal; [|discriminate].
  cbn [mbind Res_bind].
  destruct (py_index channels (-1)) as [cout|e] eqn:Hcout; [|discriminate].
  cbn [mbind Res_bind]. rewrite conv1d1_Ok. cbn [mbind Res_bind]. intros [= <-].
  apply (units_loop_chain_len tr) in Hunits as (us & -> & Hus);
    [|apply Forall_zip_kernels, Forall_slice_1_m2, Hks|exact Hrep].
  apply chain_keeps_len in Hus.
  pose proof (JasperFinalBlock_keeps_len tr use_dw cu cout channels kernel_sizes eps rates f
                Hks Hcout Hfinal) as Hf.
  pose proof (proj1 (Forall_forall _ _) Hks k0 (py_index_elem _ _ _ Hk0)) as Hodd0.
  destruct Hodd0 as [Hk0r Hk0odd].
  pose proof (Z.div_mod k0 2 ltac:(lia)) as Hdm.
  assert (valid_conv (Conv1d.mk cin c0 k0 2 (k0 / 2) 1 1 false)) as Hc0.
  { unfold valid_conv. cbn. norm_pow2. lia. }
  unfold Jasper.forward, Jasper.train. cbn [Jasper.features Jasper.output].
  unfold DualPathSequential.add_module.
  rewrite !train_app. rewrite !DualPathSequential_forward_app.
  cbn [app DualPathSequential.train fmap list_fmap prod_map fst snd id
       Jasper.feature_train DualPathSequential.forward Jasper.feature_forward
       mbind Res_bind].
  rewrite (Block_forward_exact tr use_dw cin c0 k0 2 (k0 / 2) 1 eps d0 relu_inplace b0
             B L x_len Hb0 Hc0 ltac:(lia) Hfit Hr).
  assert (conv1d_out_size (Conv1d.mk cin c0 k0 2 (k0 / 2) 1 1 false) L = Ok (halved L))
    as ->.
  { unfold conv1d_out_size, halved. cbn.
    rewrite bool_decide_eq_true_2 by (norm_pow2; lia). f_equal. f_equal. f_equal. lia. }
  assert (conv_out_len (Conv1d.mk cin c0 k0 2 (k0 / 2) 1 1 false) <$> x_len
          = halved <$> x_len) as ->.
  { apply list_fmap_ext. intros _ l _. unfold conv_out_len, halved. cbn.
    f_equal. f_equal. lia. }
  cbn [mbind Res_bind].
  destruct (tr && bool_decide (B * halved L = 1)%Z) eqn:Hbn; [reflexivity|].
  cbn [mbind Res_bind].
  assert (batch_fits tr B (halved L)) as Hfits.
  { intros ->. cbn in Hbn. apply bool_decide_eq_false_1 in Hbn. exact Hbn. }
  assert (1 ≤ halved L)%Z as Ht1.
  { unfold halved. assert (0 ≤ (L - 1) / 2)%Z by (apply Z.div_pos; lia). lia. }
  assert (lens_fit B (halved <$> x_len)) as Hfit1
    by (apply (lens_fit_length B x_len); [apply length_fmap|exact Hfit]).
  assert (Forall len_in_range (halved <$> x_len)) as Hr1.
  { apply Forall_fmap. eapply Forall_impl; [exact Hr|]. apply len_in_range_halved. }
  change (list_fmap _ _ (prod_map id (Jasper.feature_train tr)) us)
    with (DualPathSequential.train Jasper.feature_train tr us).
  rewrite (Hus B (halved L) _ Ht1 Hfits Hfit1 Hr1). cbn [mbind Res_bind].
  rewrite (Hf B (halved L) _ Ht1 Hfits Hfit1 Hr1). cbn [mbind Res_bind].
  cbn [F_conv1d shape_ops]. unfold conv1d_shape, conv1d_out_size.
  cbn [Conv1d.in_channels Conv1d.out_channels Conv1d.kernel_size Conv1d.stride
       Conv1d.padding Conv1d.dilation].
  rewrite bool_decide_eq_true_2 by reflexivity.
  rewrite bool_decide_eq_true_2 by lia. cbn [mbind Res_bind].
  rewrite Z.div_1_r.
  replace (halved L + 2 * 0 - 1 * (1 - 1) - 1 + 1)%Z with (halved L) by lia.
  reflexivity.
Qed.

(** X7. The lengths follow the time axis through the whole model: a model
    built by [Jasper] without dense residual connections, with either block
    class, positive channel counts, odd kernel sizes and at least one block
    per unit, maps a batch of [B ≥ 1] samples of [L ≥ 1] time steps to
    [(L - 1) // 2 + 1] time steps and every declared length [l] to
    [(l - 1) // 2 + 1]: in evaluation mode for every such batch; in training
    mode, as the constructor leaves the model, unless the batch is left with
    a single value per channel ([B * ((L - 1) // 2 + 1) = 1]), which the
    batch normalization of the initial block refuses.  So a sample declared
    no longer than the batch is declared no longer than the logits. *)
Theorem Jasper_forward_lengths (channels kernel_sizes : list Z) (eps : float)
    (rates : list float) (repeat : Z) (use_dw : bool) (cin ncls : Z) (net : Jasper.t)
    (B L : Z) (x_len : list Z) :
  Jasper.init channels kernel_sizes eps rates repeat use_dw false cin ncls = Ok net →
  Forall (λ c, 0 < c)%Z channels → (0 < cin)%Z → (0 < ncls)%Z →
  Forall odd_kernel kernel_sizes → (1 ≤ repeat)%Z →
  (1 ≤ B)%Z → (1 ≤ L)%Z → lens_fit B x_len → Forall len_in_range x_len →
  Jasper.forward (Jasper.eval net) [B; cin; L] (LTensor x_len)
  = Ok ([B; ncls; halved L], LTensor (halved <$> x_len))
  ∧ Jasper.forward net [B; cin; L] (LTensor x_len)
    = (if bool_decide (B * halved L = 1)%Z then Raise batch_norm_training_error
       else Ok ([B; ncls; halved L], LTensor (halved <$> x_len)))
  ∧ (Forall (λ l, l ≤ L)%Z x_len → Forall (λ l, l ≤ halved L)%Z (halved <$> x_len)).
Proof.
  intros Hinit _ _ _ Hks Hrep _ HL Hfit Hr. split; [|split].
  - exact (Jasper_forward_exact false _ _ _ _ _ _ _ _ net B L x_len Hinit Hks Hrep HL Hfit
             Hr).
  - rewrite <- (Jasper_init_train_true _ _ _ _ _ _ _ _ _ _ Hinit) at 1.
    exact (Jasper_forward_exact true _ _ _ _ _ _ _ _ net B L x_len Hinit Hks Hrep HL Hfit
             Hr).
  - intros Hle. apply Forall_fmap. eapply Forall_impl; [exact Hle|].
    intros l Hl. apply halved_mono, Hl.
Qed.

Lemma Jasper_forward_lengths_witness :
  ∃ net : Jasper.t,
    Jasper.init [4; 6; 8; 6; 10]%Z [3; 5; 7; 3; 1]%Z 1e-3 [0.2; 0.2; 0.3; 0.4; 0.4]%float
      2 true false 3 5 = Ok net
    ∧ Jasper.forward (Jasper.eval net) [2; 3; 9]%Z (LTensor [9; 4]%Z)
      = Ok ([2; 5; 5]%Z, LTensor [5; 2]%Z)
    ∧ Jasper.forward net [2; 3; 9]%Z (LTensor [9; 4]%Z)
      = Ok ([2; 5; 5]%Z, LTensor [5; 2]%Z).
Proof.
  eexists. split; [vm_compute; reflexivity|].
  pose proof (Jasper_forward_lengths [4; 6; 8; 6; 10]%Z [3; 5; 7; 3; 1]%Z 1e-3
                [0.2; 0.2; 0.3; 0.4; 0.4]%float 2 true 3 5 _ 2 9 [9; 4]%Z
                eq_refl) as H.
  destruct H as (He & Ht & _).
  - repeat constructor.
  - lia.
  - lia.
  - repeat constructor; vm_compute; reflexivity.
  - lia.
  - lia.
  - lia.
  - left. reflexivity.
  - repeat constructor; vm_compute; discriminate.
  - split; [exact He|exact Ht].
Defined.
(** ** Dense residual connections *)

Lemma DualPathParallelConcurent_forward_dense (tr : bool)
    (ms : list (string * MaskConvBlock1d.t))
    (cs : list Z) (cout : Z) (eps : float) (B t : Z) (l : list Z) :
  Forall2 (λ m c, m.2 = mask_block_of c cout 1 1 0 1 1 false true eps None 0) ms cs →
  (1 ≤ t)%Z → batch_fits tr B t → lens_fit B l → Forall len_in_range l →
  DualPathParallelConcurent.forward MaskConvBlock1d.forward
    (DualPathParallelConcurent.train MaskConvBlock1d.train tr ms)
    ((λ c, [B; c; t]) <$> cs) ((λ _, l) <$> cs)
  = Ok ((λ _, [B; cout; t]) <$> cs, (λ _, LTensor l) <$> cs).
Proof.
  intros Hms Ht Hbn Hfit Hr.
  induction Hms as [|[n m] c ms cs Hm _ IH]; [reflexivity|].
  cbn in Hm. subst m.
  change (DualPathParallelConcurent.train MaskConvBlock1d.train tr
            ((n, mask_block_of c cout 1 1 0 1 1 false true eps None 0) :: ms))
    with ((n, MaskConvBlock1d.train tr
                (mask_block_of c cout 1 1 0 1 1 false true eps None 0))
          :: DualPathParallelConcurent.train MaskConvBlock1d.train tr ms).
  cbn [fmap list_fmap DualPathParallelConcurent.forward].
  rewrite (pointwise_block_keeps_len tr c cout eps B t l Ht Hbn Hfit Hr).
  cbn [mbind Res_bind].
  change (list_fmap Z (list Z) (λ c0, [B; c0; t]) cs) with ((λ c0, [B; c0; t]) <$> cs).
  change (list_fmap Z (list Z) (λ _, l) cs) with ((λ _ : Z, l) <$> cs).
  rewrite IH. reflexivity.
Qed.

Lemma stack_sum_shape_const {A} (s : list Z) (a : A) (l : list A) :
  s ≠ [] → stack_sum_shape ((λ _, s) <$> a :: l) = Ok s.
Proof.
  intros Hs. destruct s as [|d s]; [done|]. cbn [fmap list_fmap stack_sum_shape].
  destruct (forallb _ _) eqn:E; [reflexivity|].
  exfalso. apply not_true_iff_false in E. apply E.
  apply forallb_forall. intros x Hin.
  apply list_elem_of_In in Hin.
  change (x ∈ (λ _ : A, d :: s) <$> l) in Hin.
  apply list_elem_of_fmap in Hin as (? & -> & _).
  apply bool_decide_eq_true_2. reflexivity.
Qed.

(** A unit with dense residual connections, in the mode [tr]: every earlier
    input takes part in the residual, the time axis and the lengths are
    kept, and the input of the unit joins the tuple. *)
Lemma JasperUnit_forward_dense (tr use_dw : bool) (cins : list Z) (cin cout k : Z)
    (eps rate : float) (repeat : Z) (u : JasperUnit.t) (B t : Z) (l : list Z) :
  odd_kernel k → (1 ≤ repeat)%Z →
  JasperUnit.init (JasperUnit.ChList (cins ++ [cin])) cout k eps rate repeat use_dw true
  = Ok u →
  (1 ≤ t)%Z → batch_fits tr B t → lens_fit B l → Forall len_in_range l →
  JasperUnit.forward (JasperUnit.train tr u) [B; cin; t] (dense_arg B t l cins)
  = Ok ([B; cout; t], dense_arg B t l (cins ++ [cin])).
Proof.
  intros Hk Hrep Hu Ht Hbn Hfit Hr. revert Hu. unfold JasperUnit.init.
  cbn [mbind Res_bind]. unfold JasperUnit.dense_identity.
  destruct (dense_identity_loop_Ok 0 (cins ++ [cin]) cout eps []) as (ids & -> & Hids).
  cbn [app mbind Res_bind].
  assert (py_index (cins ++ [cin]) (-1) = Ok cin) as ->.
  { unfold py_index. rewrite bool_decide_eq_false_2 by lia.
    rewrite length_app. cbn [length].
    rewrite bool_decide_eq_true_2 by lia.
    replace (Z.to_nat (Z.of_nat (length cins + 1) + -1)) with (length cins + 0)%nat by lia.
    rewrite lookup_app_r by lia.
    replace (length cins + 0 - length cins)%nat with 0%nat by lia. reflexivity. }
  cbn [mbind Res_bind].
  destruct (JasperUnit.body_loop _ _ _ _ _ _ _ _ _) as [body|e] eqn:Hbody;
    cbn [mbind Res_bind]; [|discriminate].
  destruct (if rate_nonzero rate then _ else _) as [dr|e] eqn:Hd; [|discriminate].
  cbn [mbind Res_bind]. intros [= <-].
  apply dropout_opt_inv in Hd as (-> & _).
  apply (body_loop_chain_len tr) in Hbody as (bs & -> & Hbs); [|exact Hk].
  rewrite seqZ_cons in Hbs by lia.
  apply chain_keeps_len in Hbs.
  pose proof (DualPathParallelConcurent_forward_dense tr _ (cins ++ [cin]) cout eps B t l
                Hids Ht Hbn Hfit Hr) as Hid.
  rewrite !fmap_app in Hid. cbn [fmap list_fmap] in Hid.
  assert (dense_arg B t l (cins ++ [cin])
          = LTuple l (((λ c, [B; c; t]) <$> cins) ++ [[B; cin; t]])
              (((λ _, l) <$> cins) ++ [l])) as ->.
  { unfold dense_arg. rewrite !fmap_app. destruct cins; reflexivity. }
  unfold JasperUnit.forward, JasperUnit.train.
  cbn [JasperUnit.use_dr JasperUnit.identity_block JasperUnit.body JasperUnit.activ
       JasperUnit.use_dropout JasperUnit.dropout app].
  assert (stack_sum (T := list Z)
            (((λ _ : Z, [B; cout; t]) <$> cins) ++ [[B; cout; t]]) = Ok [B; cout; t])
    as Hsum.
  { cbn [stack_sum shape_ops].
    change [[B; cout; t]] with ((λ _ : Z, [B; cout; t]) <$> [cin]).
    rewrite <- fmap_app.
    destruct (cins ++ [cin]) as [|a r] eqn:E; [destruct cins; discriminate|].
    apply stack_sum_shape_const. discriminate. }
  destruct cins as [|c0 cins]; cbn [dense_arg mbind Res_bind app fmap list_fmap] in *.
  - rewrite Hid. cbn [mbind Res_bind]. rewrite Hsum. cbn [mbind Res_bind].
    rewrite (Hbs B t l Ht Hbn Hfit Hr). cbn [mbind Res_bind].
    cbn [t_add shape_ops]. rewrite broadcast_same. cbn [mbind Res_bind].
    destruct (rate_nonzero rate); reflexivity.
  - rewrite Hid. cbn [mbind Res_bind]. rewrite Hsum. cbn [mbind Res_bind].
    rewrite (Hbs B t l Ht Hbn Hfit Hr). cbn [mbind Res_bind].
    cbn [t_add shape_ops]. rewrite broadcast_same. cbn [mbind Res_bind].
    destruct (rate_nonzero rate); reflexivity.
Qed.

Lemma units_loop_dense (tr use_dw : bool) (eps : float) (repeat i : Z)
    (stages : list (Z * Z * float)) (cin cout : Z) (cins : list Z)
    (features features' : DualPathSequential.t Jasper.feature) :
  Forall (λ st, odd_kernel st.1.2) stages → (1 ≤ repeat)%Z →
  Jasper.units_loop use_dw true eps repeat i stages cin cins features
  = Ok (features', cout) →
  ∃ us cins', features' = features ++ us
    ∧ (stages = [] → cins' = cins) ∧ (stages ≠ [] → cins' ≠ [])
    ∧ ∀ (B t : Z) (l : list Z),
        (1 ≤ t)%Z → batch_fits tr B t → lens_fit B l → Forall len_in_range l →
        DualPathSequential.forward Jasper.feature_forward
          (DualPathSequential.train Jasper.feature_train tr us) [B; cin; t]
          (dense_arg B t l cins)
        = Ok ([B; cout; t], dense_arg B t l cins').
Proof.
  intros Hst Hrep. revert i cin cins features.
  induction Hst as [|[[c k] rate] stages Hk _ IH]; intros i cin cins features.
  - cbn. intros [= <- <-]. exists [], cins. rewrite app_nil_r.
    split; [reflexivity|]. split; [reflexivity|]. split; [done|].
    intros B t l _ _ _ _. reflexivity.
  - cbn [Jasper.units_loop].
    destruct (JasperUnit.init _ c k eps rate repeat use_dw true) as [u|e] eqn:Hu;
      [|discriminate].
    cbn [mbind Res_bind]. intros Hloop.
    apply IH in Hloop as (us & cins' & -> & Hnil & Hcons & Hfwd).
    exists ((numbered "unit" i, Jasper.FUnit u) :: us), cins'.
    unfold DualPathSequential.add_module. rewrite <- app_assoc.
    split; [reflexivity|]. split; [discriminate|]. split.
    + intros _. destruct stages as [|st stages].
      * rewrite (Hnil eq_refl). destruct cins; discriminate.
      * apply Hcons. discriminate.
    + intros B t l Ht Hbn Hfit Hr.
      change (DualPathSequential.train Jasper.feature_train tr
                ((numbered "unit" i, Jasper.FUnit u) :: us))
        with ((numbered "unit" i, Jasper.FUnit (JasperUnit.train tr u))
              :: DualPathSequential.train Jasper.feature_train tr us).
      cbn [DualPathSequential.forward Jasper.feature_forward].
      rewrite (JasperUnit_forward_dense tr use_dw cins cin c k eps rate repeat u B t l
                 Hk Hrep Hu Ht Hbn Hfit Hr).
      cbn [mbind Res_bind]. apply Hfwd; assumption.
Qed.

Lemma JasperFinalBlock_init_use_dr (cin : Z) (channels kernel_sizes : list Z) (eps : float)
    (rates : list float) (use_dw use_dr : bool) (f : JasperFinalBlock.t) :
  JasperFinalBlock.init cin channels kernel_sizes eps rates use_dw use_dr = Ok f →
  JasperFinalBlock.use_dr f = use_dr
  ∧ JasperFinalBlock.init cin channels kernel_sizes eps rates use_dw false
    = Ok (JasperFinalBlock.mk false (JasperFinalBlock.conv1 f) (JasperFinalBlock.conv2 f)).
Proof.
  unfold JasperFinalBlock.init.
  destruct (py_index channels (-2)) as [c2|e]; [|discriminate]. cbn [mbind Res_bind].
  destruct (py_index kernel_sizes (-2)) as [k2|e]; [|discriminate]. cbn [mbind Res_bind].
  destruct (py_index rates (-2)) as [d2|e]; [|discriminate]. cbn [mbind Res_bind].
  destruct (Block.init _ _ _ _ _ _ _ _ _ _) as [b1|e]; [|discriminate].
  cbn [mbind Res_bind].
  destruct (py_index channels (-1)) as [c1|e]; [|discriminate]. cbn [mbind Res_bind].
  destruct (py_index kernel_sizes (-1)) as [k1|e]; [|discriminate]. cbn [mbind Res_bind].
  destruct (py_index rates (-1)) as [d1|e]; [|discriminate]. cbn [mbind Res_bind].
  destruct (MaskConvBlock1d.init _ _ _ _ _ _ _ _ _ _ _ _) as [b2|e]; [|discriminate].
  cbn [mbind Res_bind].
  intros [= <-]. split; reflexivity.
Qed.

(** The first convolution of a block refuses a 0-dim length. *)
Lemma Block_forward_scalar (tr use_dw : bool) (cin cout k s p d : Z) (eps rate : float)
    (act : activation_t) (b : Block.t) (B C t l : Z) :
  Block.init use_dw cin cout k s p d eps rate act = Ok b →
  Block.forward (Block.train tr b) [B; C; t] (LScalar l) = Raise TypeError.
Proof.
  intros Hb. apply Block_init_inv in Hb as ->.
  assert (Block.forward (Block.train tr (block_of use_dw cin cout k s p d eps rate act))
            [B; C; t] (LScalar l)
          = MaskConvBlock1d.forward
              (MaskConvBlock1d.train tr
                 (mask_block_of cin cout k s p d 1 false true eps act rate))
              [B; C; t] (LScalar l)) as ->.
  { destruct use_dw; [apply block_of_same_forward|reflexivity]. }
  reflexivity.
Qed.

(** The shape and the lengths through a model with dense residual
    connections whose kernel sizes are odd, in the mode [tr]: with at least
    one unit as without dense residual connections; without a unit the final
    block indexes the bare lengths and its first convolution refuses the
    result. *)
Lemma Jasper_forward_dense_exact (tr : bool) (channels kernel_sizes : list Z) (eps : float)
    (rates : list float) (repeat : Z) (use_dw : bool) (cin ncls : Z) (net : Jasper.t)
    (B L : Z) (x_len : list Z) :
  Jasper.init channels kernel_sizes eps rates repeat use_dw true cin ncls = Ok net →
  Forall odd_kernel kernel_sizes → (1 ≤ repeat)%Z → (1 ≤ L)%Z → lens_fit B x_len →
  Forall len_in_range x_len →
  Jasper.forward (Jasper.train tr net) [B; cin; L] (LTensor x_len)
  = if tr && bool_decide (B * halved L = 1)%Z then Raise batch_norm_training_error
    else
      match zip (zip (slice_1_m2 channels) (slice_1_m2 kernel_sizes)) (slice_1_m2 rates),
            x_len with
      | _ :: _, _ => Ok ([B; ncls; halved L], LTensor (halved <$> x_len))
      | [], _ :: _ => Raise TypeError
      | [], [] => Raise IndexError
      end.
Proof.
  intros Hinit Hks Hrep HL Hfit Hr. revert Hinit. unfold Jasper.init.
  destruct (py_index channels 0) as [c0|e]; [|discriminate]. cbn [mbind Res_bind].
  destruct (py_index kernel_sizes 0) as [k0|e] eqn:Hk0; [|discriminate].
  cbn [mbind Res_bind].
  destruct (py_index rates 0) as [d0|e]; [|discriminate]. cbn [mbind Res_bind].
  destruct (Block.init use_dw cin c0 k0 2 _ 1 eps d0 relu_inplace) as [b0|e] eqn:Hb0;
    [|discriminate].
  cbn [mbind Res_bind].
  destruct (Jasper.units_loop _ _ _ _ _ _ _ _ _) as [[features cu]|e] eqn:Hunits;
    [|discriminate].
  cbn [mbind Res_bind].
  destruct (JasperFinalBlock.init _ _ _ _ _ _ _) as [f|e] eqn:Hfinal; [|discriminate].
  cbn [mbind Res_bind].
  destruct (py_index channels (-1)) as [cout|e] eqn:Hcout; [|discriminate].
  cbn [mbind Res_bind]. rewrite conv1d1_Ok. cbn [mbind Res_bind]. intros [= <-].
  apply (units_loop_dense tr) in Hunits as (us & cins' & -> & Hnil & Hcons & Hus);
    [|apply Forall_zip_kernels, Forall_slice_1_m2, Hks|exact Hrep].
  destruct (JasperFinalBlock_init_use_dr _ _ _ _ _ _ _ _ Hfinal) as [Hdr Hfinal'].
  pose proof (JasperFinalBlock_keeps_len tr use_dw cu cout channels kernel_sizes eps rates _
                Hks Hcout Hfinal') as Hf.
  pose proof (proj1 (Forall_forall _ _) Hks k0 (py_index_elem _ _ _ Hk0)) as Hodd0.
  destruct Hodd0 as [Hk0r Hk0odd].
  pose proof (Z.div_mod k0 2 ltac:(lia)) as Hdm.
  assert (valid_conv (Conv1d.mk cin c0 k0 2 (k0 / 2) 1 1 false)) as Hc0.
  { unfold valid_conv. cbn. norm_pow2. lia. }
  unfold Jasper.forward, Jasper.train. cbn [Jasper.features Jasper.output].
  unfold DualPathSequential.add_module.
  rewrite !train_app. rewrite !DualPathSequential_forward_app.
  cbn [app DualPathSequential.train fmap list_fmap prod_map fst snd id
       Jasper.feature_train DualPathSequential.forward Jasper.feature_forward
       mbind Res_bind].
  rewrite (Block_forward_exact tr use_dw cin c0 k0 2 (k0 / 2) 1 eps d0 relu_inplace b0
             B L x_len Hb0 Hc0 ltac:(lia) Hfit Hr).
  assert (conv1d_out_size (Conv1d.mk cin c0 k0 2 (k0 / 2) 1 1 false) L = Ok (halved L))
    as ->.
  { unfold conv1d_out_size, halved. cbn.
    rewrite bool_decide_eq_true_2 by (norm_pow2; lia). f_equal. f_equal. f_equal. lia. }
  assert (conv_out_len (Conv1d.mk cin c0 k0 2 (k0 / 2) 1 1 false) <$> x_len
          = halved <$> x_len) as ->.
  { apply list_fmap_ext. intros _ l _. unfold conv_out_len, halved. cbn.
    f_equal. f_equal. lia. }
  cbn [mbind Res_bind].
  destruct (tr && bool_decide (B * halved L = 1)%Z) eqn:Hbn; [reflexivity|].
  cbn [mbind Res_bind].
  assert (batch_fits tr B (halved L)) as Hfits.
  { intros ->. cbn in Hbn. apply bool_decide_eq_false_1 in Hbn. exact Hbn. }
  assert (1 ≤ halved L)%Z as Ht1.
  { unfold halved. assert (0 ≤ (L - 1) / 2)%Z by (apply Z.div_pos; lia). lia. }
  assert (lens_fit B (halved <$> x_len)) as Hfit1
    by (apply (lens_fit_length B x_len); [apply length_fmap|exact Hfit]).
  assert (Forall len_in_range (halved <$> x_len)) as Hr1.
  { apply Forall_fmap. eapply Forall_impl; [exact Hr|]. apply len_in_range_halved. }
  change (list_fmap _ _ (prod_map id (Jasper.feature_train tr)) us)
    with (DualPathSequential.train Jasper.feature_train tr us).
  pose proof (Hus B (halved L) _ Ht1 Hfits Hfit1 Hr1) as Hfwd.
  cbn [dense_arg] in Hfwd. rewrite Hfwd. cbn [mbind Res_bind].
  pose proof (Hf B (halved L) _ Ht1 Hfits Hfit1 Hr1) as Hff.
  unfold JasperFinalBlock.forward, JasperFinalBlock.train in Hff |- *.
  cbn [JasperFinalBlock.use_dr JasperFinalBlock.conv1 JasperFinalBlock.conv2
       mbind Res_bind] in Hff |- *.
  rewrite Hdr.
  destruct (zip (zip (slice_1_m2 channels) (slice_1_m2 kernel_sizes)) (slice_1_m2 rates))
    as [|st stages].
  - rewrite (Hnil eq_refl). cbn [dense_arg JasperFinalBlock.getitem0].
    destruct x_len as [|l0 x_len]; [reflexivity|].
    change (py_index (halved <$> l0 :: x_len) 0) with (Ok (halved l0) : Res Z).
    cbn [fmap Res_fmap mbind Res_bind].
    revert Hfinal. unfold JasperFinalBlock.init.
    destruct (py_index channels (-2)) as [c2|e]; [|discriminate]. cbn [mbind Res_bind].
    destruct (py_index kernel_sizes (-2)) as [k2|e]; [|discriminate].
    cbn [mbind Res_bind].
    destruct (py_index rates (-2)) as [d2|e]; [|discriminate]. cbn [mbind Res_bind].
    destruct (Block.init use_dw cu c2 k2 1 _ 2 eps d2 relu_inplace) as [b1|e] eqn:Hb1;
      [|discriminate].
    cbn [mbind Res_bind]. rewrite Hcout. cbn [mbind Res_bind].
    destruct (py_index kernel_sizes (-1)) as [k1|e]; [|discriminate].
    cbn [mbind Res_bind].
    destruct (py_index rates (-1)) as [d1|e]; [|discriminate]. cbn [mbind Res_bind].
    destruct (MaskConvBlock1d.init _ _ _ _ _ _ _ _ _ _ _ _) as [b2|e]; [|discriminate].
    cbn [mbind Res_bind].
    intros [= <-]. cbn [JasperFinalBlock.conv1].
    rewrite (Block_forward_scalar tr _ _ _ _ _ _ _ _ _ _ _ B cu (halved L) (halved l0)
               Hb1).
    reflexivity.
  - assert (cins' ≠ []) as Hne by (apply Hcons; discriminate).
    destruct cins' as [|c cins']; [done|].
    cbn [dense_arg JasperFinalBlock.getitem0 mbind Res_bind].
    rewrite Hff. cbn [mbind Res_bind].
    cbn [F_conv1d shape_ops]. unfold conv1d_shape, conv1d_out_size.
    cbn [Conv1d.in_channels Conv1d.out_channels Conv1d.kernel_size Conv1d.stride
         Conv1d.padding Conv1d.dilation].
    rewrite bool_decide_eq_true_2 by reflexivity.
    rewrite bool_decide_eq_true_2 by lia. cbn [mbind Res_bind].
    rewrite Z.div_1_r.
    replace (halved L + 2 * 0 - 1 * (1 - 1) - 1 + 1)%Z with (halved L) by lia.
    reflexivity.
Qed.

Lemma length_slice_1_m2 {A} (l : list A) : length (slice_1_m2 l) = (length l - 3)%nat.
Proof. unfold slice_1_m2. rewrite length_take, length_drop. lia. Qed.

Lemma stages_nil_iff (channels kernel_sizes : list Z) (rates : list float) :
  zip (zip (slice_1_m2 channels) (slice_1_m2 kernel_sizes)) (slice_1_m2 rates) = []
  ↔ (length channels < 4 ∨ length kernel_sizes < 4 ∨ length rates < 4)%nat.
Proof.
  pose proof (length_slice_1_m2 channels) as H1.
  pose proof (length_slice_1_m2 kernel_sizes) as H2.
  pose proof (length_slice_1_m2 rates) as H3.
  destruct (slice_1_m2 channels), (slice_1_m2 kernel_sizes), (slice_1_m2 rates);
    cbn in *; split; intros H; try done; lia.
Qed.

(** X8. Dense residual connections change no shape and no length: a model
    built by [Jasper] with [use_dr = True], at least one unit, positive
    channel counts, odd kernel sizes and at least one block per unit maps a
    batch of [B ≥ 1] samples of [L ≥ 1] time steps to [(L - 1) // 2 + 1]
    time steps and every declared length [l] to [(l - 1) // 2 + 1], as the
    model without dense residual connections does: in evaluation mode for
    every such batch; in training mode, as the constructor leaves the model,
    unless the batch is left with a single value per channel
    ([B * ((L - 1) // 2 + 1) = 1]), which the batch normalization of the
    initial block refuses.  The tuple of earlier inputs and lengths that the
    units thread is dropped by the final block. *)
Theorem Jasper_forward_dense (channels kernel_sizes : list Z) (eps : float)
    (rates : list float) (repeat : Z) (use_dw : bool) (cin ncls : Z) (net : Jasper.t)
    (B L : Z) (x_len : list Z) :
  Jasper.init channels kernel_sizes eps rates repeat use_dw true cin ncls = Ok net →
  (4 ≤ length channels)%nat → (4 ≤ length kernel_sizes)%nat → (4 ≤ length rates)%nat →
  Forall (λ c, 0 < c)%Z channels → (0 < cin)%Z → (0 < ncls)%Z →
  Forall odd_kernel kernel_sizes → (1 ≤ repeat)%Z →
  (1 ≤ B)%Z → (1 ≤ L)%Z → lens_fit B x_len → Forall len_in_range x_len →
  Jasper.forward (Jasper.eval net) [B; cin; L] (LTensor x_len)
  = Ok ([B; ncls; halved L], LTensor (halved <$> x_len))
  ∧ Jasper.forward net [B; cin; L] (LTensor x_len)
    = (if bool_decide (B * halved L = 1)%Z then Raise batch_norm_training_error
       else Ok ([B; ncls; halved L], LTensor (halved <$> x_len))).
Proof.
  intros Hinit Hc Hk Hd _ _ _ Hks Hrep _ HL Hfit Hr.
  assert (∃ st stages,
            zip (zip (slice_1_m2 channels) (slice_1_m2 kernel_sizes)) (slice_1_m2 rates)
            = st :: stages) as (st & stages & E).
  { destruct (zip _ _) as [|st stages] eqn:E; [|eauto].
    apply stages_nil_iff in E. exfalso. lia. }
  split.
  - unfold Jasper.eval.
    rewrite (Jasper_forward_dense_exact false _ _ _ _ _ _ _ _ net B L x_len Hinit Hks Hrep
               HL Hfit Hr).
    rewrite E. reflexivity.
  - rewrite <- (Jasper_init_train_true _ _ _ _ _ _ _ _ _ _ Hinit) at 1.
    rewrite (Jasper_forward_dense_exact true _ _ _ _ _ _ _ _ net B L x_len Hinit Hks Hrep
               HL Hfit Hr).
    rewrite E. reflexivity.
Qed.

Lemma Jasper_forward_dense_witness :
  ∃ net : Jasper.t,
    Jasper.init [4; 6; 8; 6; 10]%Z [3; 5; 7; 3; 1]%Z 1e-3 [0.2; 0.2; 0.3; 0.4; 0.4]%float
      2 false true 3 5 = Ok net
    ∧ Jasper.forward (Jasper.eval net) [2; 3; 9]%Z (LTensor [9; 4]%Z)
      = Ok ([2; 5; 5]%Z, LTensor [5; 2]%Z)
    ∧ Jasper.forward net [2; 3; 9]%Z (LTensor [9; 4]%Z)
      = Ok ([2; 5; 5]%Z, LTensor [5; 2]%Z).
Proof.
  eexists. split; [vm_compute; reflexivity|].
  refine (Jasper_forward_dense [4; 6; 8; 6; 10]%Z [3; 5; 7; 3; 1]%Z 1e-3
            [0.2; 0.2; 0.3; 0.4; 0.4]%float 2 false 3 5 _ 2 9 [9; 4]%Z
            eq_refl _ _ _ _ _ _ _ _ _ _ (or_introl eq_refl) _).
  - cbn. lia.
  - cbn. lia.
  - cbn. lia.
  - repeat constructor.
  - lia.
  - lia.
  - repeat constructor; vm_compute; reflexivity.
  - lia.
  - lia.
  - lia.
  - repeat constructor; vm_compute; discriminate.
Defined.

(** X9. A model with dense residual connections and no unit cannot run: the
    final block takes [x_len[0]] of the bare length tensor, and its first
    convolution refuses the 0-dim result with a [TypeError] where it takes
    [len(x_len)].  In training mode, as the constructor leaves the model, a
    batch left with a single value per channel
    ([B * ((L - 1) // 2 + 1) = 1]) is refused earlier, by the batch
    normalization of the initial block. *)
Theorem Jasper_forward_dense_no_unit (channels kernel_sizes : list Z) (eps : float)
    (rates : list float) (repeat : Z) (use_dw : bool) (cin ncls : Z) (net : Jasper.t)
    (B L : Z) (x_len : list Z) :
  Jasper.init channels kernel_sizes eps rates repeat use_dw true cin ncls = Ok net →
  (length channels < 4 ∨ length kernel_sizes < 4 ∨ length rates < 4)%nat →
  Forall (λ c, 0 < c)%Z channels → (0 < cin)%Z → (0 < ncls)%Z →
  Forall odd_kernel kernel_sizes → (1 ≤ repeat)%Z →
  (1 ≤ B)%Z → (1 ≤ L)%Z → lens_fit B x_len → Forall len_in_range x_len → x_len ≠ [] →
  Jasper.forward (Jasper.eval net) [B; cin; L] (LTensor x_len) = Raise TypeError
  ∧ Jasper.forward net [B; cin; L] (LTensor x_len)
    = (if bool_decide (B * halved L = 1)%Z then Raise batch_norm_training_error
       else Raise TypeError).
Proof.
  intros Hinit Hshort _ _ _ Hks Hrep _ HL Hfit Hr Hne.
  apply stages_nil_iff in Hshort.
  destruct x_len as [|l0 x_len]; [done|]. split.
  - unfold Jasper.eval.
    rewrite (Jasper_forward_dense_exact false _ _ _ _ _ _ _ _ net B L _ Hinit Hks Hrep
               HL Hfit Hr).
    rewrite Hshort. reflexivity.
  - rewrite <- (Jasper_init_train_true _ _ _ _ _ _ _ _ _ _ Hinit) at 1.
    rewrite (Jasper_forward_dense_exact true _ _ _ _ _ _ _ _ net B L _ Hinit Hks Hrep
               HL Hfit Hr).
    rewrite Hshort. reflexivity.
Qed.

Lemma Jasper_forward_dense_no_unit_witness :
  ∃ net : Jasper.t,
    Jasper.init [4; 6; 10]%Z [3; 3; 1]%Z 1e-3 [0.2; 0.4; 0.4]%float 2 false true 3 5 = Ok net
    ∧ Jasper.forward (Jasper.eval net) [2; 3; 9]%Z (LTensor [9; 4]%Z) = Raise TypeError
    ∧ Jasper.forward net [2; 3; 9]%Z (LTensor [9; 4]%Z) = Raise TypeError.
Proof.
  eexists. split; [vm_compute; reflexivity|].
  refine (Jasper_forward_dense_no_unit [4; 6; 10]%Z [3; 3; 1]%Z 1e-3
            [0.2; 0.4; 0.4]%float 2 false 3 5 _ 2 9 [9; 4]%Z
            eq_refl (or_introl (le_n 4)) _ _ _ _ _ _ _ (or_introl eq_refl) _ _).
  - repeat constructor.
  - lia.
  - lia.
  - repeat constructor; vm_compute; reflexivity.
  - lia.
  - lia.
  - lia.
  - repeat constructor; vm_compute; discriminate.
  - discriminate.
Defined.

(** ** The layout of a built model *)

Lemma body_loop_names (use_dw : bool) (idxs : list Z) (repeat cin cout k : Z)
    (eps rate : float) (body body' : DualPathSequential.t Block.t) :
  JasperUnit.body_loop use_dw idxs repeat cin cout k eps rate body = Ok body' →
  body'.*1 = body.*1 ++ (numbered "block" <$> idxs).
Proof.
  revert cin body. induction idxs as [|i idxs IH]; intros cin body;
    cbn [JasperUnit.body_loop].
  - intros [= <-]. cbn. rewrite app_nil_r. reflexivity.
  - destruct (Block.init use_dw cin cout k 1 (k / 2) 1 eps _ _) as [b|e]; [|discriminate].
    cbn [mbind Res_bind]. intros Hloop. apply IH in Hloop. rewrite Hloop.
    unfold DualPathSequential.add_module. rewrite fmap_app, <- app_assoc. reflexivity.
Qed.

Lemma JasperUnit_init_body_names (ch : JasperUnit.channels_arg) (cout k : Z)
    (eps rate : float) (repeat : Z) (use_dw use_dr : bool) (u : JasperUnit.t) :
  JasperUnit.init ch cout k eps rate repeat use_dw use_dr = Ok u →
  (JasperUnit.body u).*1 = numbered "block" <$> seqZ 0 repeat.
Proof.
  unfold JasperUnit.init.
  match goal with |- context [mbind _ ?m] =>
    destruct m as [[idb c]|e]; [|discriminate] end.
  cbn [mbind Res_bind].
  destruct (JasperUnit.body_loop _ _ _ _ _ _ _ _ _) as [body|e] eqn:Hbody; [|discriminate].
  cbn [mbind Res_bind].
  destruct (if rate_nonzero rate then _ else _) as [dr|e]; [|discriminate].
  cbn [mbind Res_bind]. intros [= <-]. cbn [JasperUnit.body].
  apply body_loop_names in Hbody. exact Hbody.
Qed.

Lemma units_loop_names (use_dw use_dr : bool) (eps : float) (repeat i : Z)
    (stages : list (Z * Z * float)) (cin cout : Z) (cins : list Z)
    (features features' : DualPathSequential.t Jasper.feature) :
  Jasper.units_loop use_dw use_dr eps repeat i stages cin cins features
  = Ok (features', cout) →
  ∃ us, features' = features ++ us
    ∧ us.*1 = numbered "unit" <$> seqZ i (Z.of_nat (length stages))
    ∧ Forall (λ nf, ∃ u, nf.2 = Jasper.FUnit u
                         ∧ (JasperUnit.body u).*1 = numbered "block" <$> seqZ 0 repeat) us.
Proof.
  revert i cin cins features.
  induction stages as [|[[c k] rate] stages IH]; intros i cin cins features;
    cbn [Jasper.units_loop].
  - intros [= <- <-]. exists []. rewrite app_nil_r. repeat split. constructor.
  - destruct (JasperUnit.init _ c k eps rate repeat use_dw use_dr) as [u|e] eqn:Hu;
      [|discriminate].
    cbn [mbind Res_bind]. intros Hloop.
    apply IH in Hloop as (us & -> & Hnames & Hus).
    exists ((numbered "unit" i, Jasper.FUnit u) :: us).
    unfold DualPathSequential.add_module. rewrite <- app_assoc.
    split; [reflexivity|]. split.
    + cbn [fmap list_fmap length]. rewrite Hnames.
      rewrite (seqZ_cons i) by lia. cbn [fmap list_fmap].
      replace (Z.succ i) with (i + 1)%Z by lia.
      replace (Z.pred (Z.of_nat (S (length stages)))) with (Z.of_nat (length stages)) by lia.
      reflexivity.
    + constructor; [|exact Hus]. exists u. split; [reflexivity|].
      apply (JasperUnit_init_body_names _ _ _ _ _ _ _ _ _ Hu).
Qed.





(** ** Version strings that are no pair *)

Lemma split_on_cons (s1 rest : string) :
  digits s1 → split_on "x" (s1 +:+ String "x" rest) = s1 :: split_on "x" rest.
Proof.
  unfold digits. intros H1. induction s1 as [|c s1 IH].
  - reflexivity.
  - change (String c s1 +:+ String "x" rest) with (String c (s1 +:+ String "x" rest)).
    apply Forall_cons in H1 as [Hc H1]. cbn.
    rewrite (is_digit_not_x c Hc), (IH H1). reflexivity.
Qed.

(** X11. A version string that is a single number, or three numbers
    separated by ["x"], is refused by the unpacking of [blocks, repeat] with
    a [ValueError]: no model is built and, also with [pretrained=True],
    nothing is downloaded. *)
Theorem get_jasper_version_not_a_pair
    (download_model : Jasper.t → string → string → Res Jasper.t)
    (a b c : N) (bn_eps : float) (model_name : option string) (pretrained : bool)
    (root : string) (kw : kwargs) :
  (∃ msg, get_jasper download_model (decimal a) bn_eps model_name pretrained root kw
          = (Raise (ValueError msg), []))
  ∧ (∃ msg, get_jasper download_model
              (decimal a +:+ "x" +:+ decimal b +:+ "x" +:+ decimal c)
              bn_eps model_name pretrained root kw
            = (Raise (ValueError msg), [])).
Proof.
  destruct (decimal_digits a) as [Ha _], (decimal_digits b) as [Hb _],
    (decimal_digits c) as [Hc _].
  split; eexists; unfold get_jasper, get_jasper_args.
  - rewrite (split_on_digits _ Ha). cbn [mapM]. rewrite py_int_decimal. reflexivity.
  - change (decimal a +:+ "x" +:+ decimal b +:+ "x" +:+ decimal c)
      with (decimal a +:+ String "x" (decimal b +:+ String "x" (decimal c))).
    rewrite (split_on_cons _ _ Ha), (split_on_cons _ _ Hb), (split_on_digits _ Hc).
    cbn [mapM]. rewrite !py_int_decimal. reflexivity.
Qed.

(** ** No channel shuffle in a Jasper model *)

Lemma tree_all_container_Forall {M} (Q : nn_module → bool) (c : cls) (f : M → nn_module)
    (l : list (string * M)) :
  Q (NN c false false (prod_map id f <$> l)) = true →
  Forall (λ nm, tree_all Q (f nm.2) = true) l →
  tree_all Q (container_module c f l) = true.
Proof.
  intros Hq Hl. unfold container_module. rewrite tree_all_NN, andb_true_iff.
  split; [exact Hq|].
  apply forallb_forall. intros nc Hnc.
  apply list_elem_of_In, list_elem_of_fmap in Hnc as ([n m] & -> & Hin).
  rewrite Forall_forall in Hl. apply (Hl _ Hin).
Qed.

Lemma mask_block_module_no_shuffle (b : MaskConvBlock1d.t) :
  tree_all not_shuffle (mask_block_module b) = true.
Proof. destruct b as [? ? ? ? [?|] [?|] [?|]]; reflexivity. Qed.

Lemma Block_init_no_shuffle (use_dw : bool) (cin cout k s p d : Z) (eps rate : float)
    (act : activation_t) (b : Block.t) :
  Block.init use_dw cin cout k s p d eps rate act = Ok b →
  tree_all not_shuffle (block_module b) = true.
Proof.
  intros Hb. apply Block_init_inv in Hb as ->. unfold block_of. destruct use_dw.
  - unfold dws_block_of. destruct act as [f|], (rate_nonzero rate); reflexivity.
  - apply mask_block_module_no_shuffle.
Qed.

Lemma body_loop_no_shuffle (use_dw : bool) (idxs : list Z) (repeat cin cout k : Z)
    (eps rate : float) (body body' : DualPathSequential.t Block.t) :
  Forall (λ nm, tree_all not_shuffle (block_module nm.2) = true) body →
  JasperUnit.body_loop use_dw idxs repeat cin cout k eps rate body = Ok body' →
  Forall (λ nm, tree_all not_shuffle (block_module nm.2) = true) body'.
Proof.
  revert cin body. induction idxs as [|i idxs IH]; intros cin body Hb;
    cbn [JasperUnit.body_loop].
  - intros [= <-]. exact Hb.
  - destruct (Block.init use_dw cin cout k 1 (k / 2) 1 eps _ _) as [b|e] eqn:Hinit;
      [|discriminate].
    cbn [mbind Res_bind]. apply IH.
    unfold DualPathSequential.add_module. apply Forall_app. split; [exact Hb|].
    constructor; [|constructor]. apply (Block_init_no_shuffle _ _ _ _ _ _ _ _ _ _ _ Hinit).
Qed.

Lemma JasperUnit_init_no_shuffle (ch : JasperUnit.channels_arg) (cout k : Z)
    (eps rate : float) (repeat : Z) (use_dw use_dr : bool) (u : JasperUnit.t) :
  JasperUnit.init ch cout k eps rate repeat use_dw use_dr = Ok u →
  tree_all not_shuffle (unit_module u) = true.
Proof.
  unfold JasperUnit.init.
  match goal with |- context [mbind _ ?m] =>
    destruct m as [[idb c]|e]; [|discriminate] end.
  cbn [mbind Res_bind].
  destruct (JasperUnit.body_loop _ _ _ _ _ _ _ _ _) as [body|e] eqn:Hbody; [|discriminate].
  cbn [mbind Res_bind].
  destruct (if rate_nonzero rate then _ else _) as [dr|e] eqn:Hd; [|discriminate].
  cbn [mbind Res_bind]. intros [= <-]. apply dropout_opt_inv in Hd as (-> & _).
  apply body_loop_no_shuffle in Hbody; [|constructor].
  unfold unit_module.
  cbn [JasperUnit.identity_block JasperUnit.body JasperUnit.activ JasperUnit.dropout].
  rewrite tree_all_NN, andb_true_iff. split; [reflexivity|].
  rewrite forallb_app. cbn [forallb snd]. rewrite !andb_true_iff. repeat split.
  - destruct idb as [b|bs].
    + apply mask_block_module_no_shuffle.
    + apply tree_all_container_Forall; [reflexivity|].
      apply Forall_forall. intros nm _. apply mask_block_module_no_shuffle.
  - apply tree_all_container_Forall; [reflexivity|exact Hbody].
  - destruct (rate_nonzero rate); reflexivity.
Qed.

Lemma units_loop_no_shuffle (use_dw use_dr : bool) (eps : float) (repeat i : Z)
    (stages : list (Z * Z * float)) (cin cout : Z) (cins : list Z)
    (features features' : DualPathSequential.t Jasper.feature) :
  Forall (λ nm, tree_all not_shuffle (feature_module nm.2) = true) features →
  Jasper.units_loop use_dw use_dr eps repeat i stages cin cins features
  = Ok (features', cout) →
  Forall (λ nm, tree_all not_shuffle (feature_module nm.2) = true) features'.
Proof.
  revert i cin cins features.
  induction stages as [|[[c k] rate] stages IH]; intros i cin cins features Hf;
    cbn [Jasper.units_loop].
  - intros [= <- <-]. exact Hf.
  - destruct (JasperUnit.init _ c k eps rate repeat use_dw use_dr) as [u|e] eqn:Hu;
      [|discriminate].
    cbn [mbind Res_bind]. apply IH.
    unfold DualPathSequential.add_module. apply Forall_app. split; [exact Hf|].
    constructor; [|constructor].
    apply (JasperUnit_init_no_shuffle _ _ _ _ _ _ _ _ _ Hu).
Qed.

Lemma Jasper_init_no_shuffle (channels kernel_sizes : list Z) (eps : float)
    (rates : list float) (repeat : Z) (use_dw use_dr : bool) (cin ncls : Z) (net : Jasper.t) :
  Jasper.init channels kernel_sizes eps rates repeat use_dw use_dr cin ncls = Ok net →
  tree_all not_shuffle (jasper_module net) = true.
Proof.
  unfold Jasper.init.
  destruct (py_index channels 0) as [c0|e]; [|discriminate]. cbn [mbind Res_bind].
  destruct (py_index kernel_sizes 0) as [k0|e]; [|discriminate]. cbn [mbind Res_bind].
  destruct (py_index rates 0) as [d0|e]; [|discriminate]. cbn [mbind Res_bind].
  destruct (Block.init _ _ _ _ _ _ _ _ _ _) as [b0|e] eqn:Hb0; [|discriminate].
  cbn [mbind Res_bind].
  destruct (Jasper.units_loop _ _ _ _ _ _ _ _ _) as [[fs cu]|e] eqn:Hunits; [|discriminate].
  cbn [mbind Res_bind].
  destruct (JasperFinalBlock.init _ _ _ _ _ _ _) as [f|e] eqn:Hf; [|discriminate].
  cbn [mbind Res_bind].
  destruct (py_index channels (-1)) as [cl|e]; [|discriminate]. cbn [mbind Res_bind].
  destruct (conv1d1 _ _ _ _ _) as [out|e]; [|discriminate]. cbn [mbind Res_bind].
  intros [= <-].
  apply units_loop_no_shuffle in Hunits.
  2:{ constructor; [|constructor]. apply (Block_init_no_shuffle _ _ _ _ _ _ _ _ _ _ _ Hb0). }
  unfold jasper_module. cbn [Jasper.features Jasper.output].
  rewrite tree_all_NN. cbn [forallb snd].
  rewrite tree_all_container_Forall; [reflexivity|reflexivity|].
  unfold DualPathSequential.add_module. apply Forall_app. split; [exact Hunits|].
  constructor; [|constructor]. cbn [snd feature_module].
  revert Hf. unfold JasperFinalBlock.init.
  destruct (py_index channels (-2)) as [c2|e]; [|discriminate]. cbn [mbind Res_bind].
  destruct (py_index kernel_sizes (-2)) as [k2|e]; [|discriminate]. cbn [mbind Res_bind].
  destruct (py_index rates (-2)) as [d2|e]; [|discriminate]. cbn [mbind Res_bind].
  destruct (Block.init use_dw cu c2 k2 1 _ 2 eps d2 relu_inplace) as [b1|e] eqn:Hb1;
    [|discriminate].
  cbn [mbind Res_bind].
  destruct (py_index channels (-1)) as [c1|e]; [|discriminate]. cbn [mbind Res_bind].
  destruct (py_index kernel_sizes (-1)) as [k1|e]; [|discriminate]. cbn [mbind Res_bind].
  destruct (py_index rates (-1)) as [d1|e]; [|discriminate]. cbn [mbind Res_bind].
  destruct (MaskConvBlock1d.init _ _ _ _ _ _ _ _ _ _ _ _) as [b2|e]; [|discriminate].
  cbn [mbind Res_bind].
  intros [= <-]. unfold final_block_module.
  cbn [JasperFinalBlock.conv1 JasperFinalBlock.conv2].
  rewrite tree_all_NN. cbn [forallb snd].
  rewrite (Block_init_no_shuffle _ _ _ _ _ _ _ _ _ _ _ Hb1), mask_block_module_no_shuffle.
  reflexivity.
Qed.

(** X12. No model that [Jasper] builds contains a [ChannelShuffle1d]: the
    blocks are built with the default [groups = 1], for which
    [DwsConvBlock1d] registers no shuffle, so none of the modules that
    [named_modules] lists is one, with or without depthwise-separable blocks
    and dense residual connections. *)
Theorem Jasper_no_channel_shuffle (channels kernel_sizes : list Z) (eps : float)
    (rates : list float) (repeat : Z) (use_dw use_dr : bool) (cin ncls : Z) (net : Jasper.t) :
  Jasper.init channels kernel_sizes eps rates repeat use_dw use_dr cin ncls = Ok net →
  Forall (λ nm, isinstance nm.2 C_ChannelShuffle1d = false)
    (named_modules "" (jasper_module net)).
Proof.
  intros Hinit.
  eapply Forall_impl;
    [apply (named_modules_all not_shuffle), (Jasper_init_no_shuffle _ _ _ _ _ _ _ _ _ _ Hinit)|].
  intros nm. unfold not_shuffle. apply negb_true_iff.
Qed.

Lemma Jasper_no_channel_shuffle_witness :
  ∃ net : Jasper.t,
    Jasper.init [4; 6; 8; 6; 10]%Z [3; 5; 7; 3; 1]%Z 1e-3 [0.2; 0.2; 0.3; 0.4; 0.4]%float
      2 true true 3 5 = Ok net
    ∧ Forall (λ nm, isinstance nm.2 C_ChannelShuffle1d = false)
        (named_modules "" (jasper_module net)).
Proof.
  eexists. split; [vm_compute; reflexivity|].
  refine (Jasper_no_channel_shuffle [4; 6; 8; 6; 10]%Z [3; 5; 7; 3; 1]%Z 1e-3
            [0.2; 0.2; 0.3; 0.4; 0.4]%float 2 true true 3 5 _ eq_refl).
Defined.

(** ** The number of parameters and the flag [use_dw] *)

Lemma sumZ_le {A} (f : A → Z) (l1 l2 : list A) :
  Forall2 (λ a b, f a ≤ f b)%Z l1 l2 → (sumZ (f <$> l1) ≤ sumZ (f <$> l2))%Z.
Proof.
  unfold sumZ. induction 1 as [|a b l1 l2 Hab _ IH]; cbn [fmap list_fmap foldr] in *; lia.
Qed.

(** A depthwise-separable block has [cin * k + cin * cout] weights where
    the plain block has [cin * k * cout]. *)
Lemma Block_init_width (cin cout k s p d : Z) (eps rate : float) (act : activation_t)
    (b1 b2 : Block.t) :
  Block.init true cin cout k s p d eps rate act = Ok b1 →
  Block.init false cin cout k s p d eps rate act = Ok b2 →
  (1 ≤ cin)%Z →
  block_width b1 = (cin * k + cin * cout + 2 * cout)%Z
  ∧ block_width b2 = (cin * k * cout + 2 * cout)%Z.
Proof.
  intros H1 H2 Hcin. apply Block_init_inv in H1 as ->. apply Block_init_inv in H2 as ->.
  unfold block_of, block_width, dws_block_width, mask_block_width, dws_block_of,
    mask_block_of, conv1d_width, batch_norm_width.
  cbn [DwsConvBlock1d.dw_conv DwsConvBlock1d.pw_conv DwsConvBlock1d.bn
       MaskConvBlock1d.conv MaskConvBlock1d.bn MaskConv1d.conv
       Conv1d.in_channels Conv1d.out_channels Conv1d.groups Conv1d.kernel_size
       Conv1d.bias BatchNorm1d.num_features].
  rewrite Z.div_same by lia. rewrite Z.div_1_r. split; ring.
Qed.

Lemma Block_init_width_le (cin cout k s p d : Z) (eps rate : float) (act : activation_t)
    (b1 b2 : Block.t) :
  Block.init true cin cout k s p d eps rate act = Ok b1 →
  Block.init false cin cout k s p d eps rate act = Ok b2 →
  (1 ≤ cin)%Z → (2 ≤ cout)%Z → (2 ≤ k)%Z →
  (block_width b1 ≤ block_width b2)%Z.
Proof.
  intros H1 H2 Hcin Hcout Hk.
  destruct (Block_init_width _ _ _ _ _ _ _ _ _ _ _ H1 H2 Hcin) as [-> ->].
  assert (0 ≤ cin * ((cout - 1) * (k - 1) - 1))%Z by nia. lia.
Qed.

Lemma body_loop_width_le (idxs : list Z) (repeat cin cout k : Z) (eps rate : float)
    (body1 body2 body1' body2' : DualPathSequential.t Block.t) :
  (1 ≤ cin)%Z → (2 ≤ cout)%Z → (2 ≤ k)%Z →
  Forall2 (λ m1 m2, (block_width ∘ snd) m1 ≤ (block_width ∘ snd) m2)%Z body1 body2 →
  JasperUnit.body_loop true idxs repeat cin cout k eps rate body1 = Ok body1' →
  JasperUnit.body_loop false idxs repeat cin cout k eps rate body2 = Ok body2' →
  Forall2 (λ m1 m2, (block_width ∘ snd) m1 ≤ (block_width ∘ snd) m2)%Z body1' body2'.
Proof.
  intros Hcin Hcout Hk. revert cin Hcin body1 body2.
  induction idxs as [|i idxs IH]; intros cin Hcin body1 body2 Hb;
    cbn [JasperUnit.body_loop].
  - intros [= <-] [= <-]. exact Hb.
  - destruct (Block.init true _ _ _ _ _ _ _ _ _) as [b1|e] eqn:H1; [|discriminate].
    destruct (Block.init false _ _ _ _ _ _ _ _ _) as [b2|e] eqn:H2; [|discriminate].
    cbn [mbind Res_bind]. apply IH; [lia|].
    unfold DualPathSequential.add_module. apply Forall2_app; [exact Hb|].
    constructor; [|constructor]. cbn.
    apply (Block_init_width_le _ _ _ _ _ _ _ _ _ _ _ H1 H2 Hcin Hcout Hk).
Qed.

Lemma JasperUnit_init_width_le (ch : JasperUnit.channels_arg) (cout k : Z)
    (eps rate : float) (repeat : Z) (use_dr : bool) (u1 u2 : JasperUnit.t) :
  Forall (λ c, 1 ≤ c)%Z
    (match ch with JasperUnit.ChInt c => [c] | JasperUnit.ChList cs => cs end) →
  (2 ≤ cout)%Z → (2 ≤ k)%Z →
  JasperUnit.init ch cout k eps rate repeat true use_dr = Ok u1 →
  JasperUnit.init ch cout k eps rate repeat false use_dr = Ok u2 →
  (unit_width u1 ≤ unit_width u2)%Z.
Proof.
  intros Hch Hcout Hk. unfold JasperUnit.init.
  match goal with |- context [mbind _ ?m] =>
    destruct m as [[idb c]|e] eqn:Hid; [|discriminate] end.
  cbn [mbind Res_bind].
  assert (1 ≤ c)%Z as Hc.
  { destruct use_dr, ch as [c'|cs]; try discriminate.
    - destruct (JasperUnit.dense_identity cs cout eps) as [bs|]; [|discriminate].
      cbn [mbind Res_bind] in Hid.
      destruct (py_index cs (-1)) as [c'|] eqn:Hidx; [|discriminate].
      cbn in Hid. injection Hid as _ <-.
      rewrite Forall_forall in Hch. apply Hch. eapply py_index_elem, Hidx.
    - destruct (mask_conv1d1_block c' cout 1 0 eps 0 None) as [b|]; [|discriminate].
      cbn in Hid. injection Hid as _ <-. apply Forall_cons in Hch as [Hch _]. exact Hch. }
  destruct (JasperUnit.body_loop true _ _ _ _ _ _ _ _) as [body1|e] eqn:H1; [|discriminate].
  destruct (JasperUnit.body_loop false _ _ _ _ _ _ _ _) as [body2|e] eqn:H2; [|discriminate].
  cbn [mbind Res_bind].
  destruct (if rate_nonzero rate then _ else _) as [dr|e]; [|discriminate].
  cbn [mbind Res_bind]. intros [= <-] [= <-].
  pose proof (sumZ_le _ _ _
                (body_loop_width_le _ _ _ _ _ _ _ [] [] _ _ Hc Hcout Hk
                   (List.Forall2_nil _) H1 H2)) as Hle.
  unfold unit_width. cbn [JasperUnit.identity_block JasperUnit.body]. lia.
Qed.

Lemma units_loop_width_le (use_dr : bool) (eps : float) (repeat i : Z)
    (stages : list (Z * Z * float)) (cin : Z) (cins : list Z)
    (f1 f2 f1' f2' : DualPathSequential.t Jasper.feature) (c1 c2 : Z) :
  (1 ≤ cin)%Z → Forall (λ c, 1 ≤ c)%Z cins →
  Forall (λ st, 2 ≤ st.1.1 ∧ 2 ≤ st.1.2)%Z stages →
  Forall2 (λ m1 m2, (feature_width ∘ snd) m1 ≤ (feature_width ∘ snd) m2)%Z f1 f2 →
  Jasper.units_loop true use_dr eps repeat i stages cin cins f1 = Ok (f1', c1) →
  Jasper.units_loop false use_dr eps repeat i stages cin cins f2 = Ok (f2', c2) →
  c1 = c2 ∧ (1 ≤ c1)%Z ∧
  Forall2 (λ m1 m2, (feature_width ∘ snd) m1 ≤ (feature_width ∘ snd) m2)%Z f1' f2'.
Proof.
  intros Hcin Hcins Hst. revert i cin cins f1 f2 Hcin Hcins.
  induction Hst as [|[[c k] rate] stages [Hc Hk] _ IH]; intros i cin cins f1 f2 Hcin Hcins Hf;
    cbn [Jasper.units_loop].
  - intros [= <- <-] [= <- <-]. split; [reflexivity|]. split; [exact Hcin|exact Hf].
  - cbn in Hc, Hk.
    destruct (JasperUnit.init _ c k eps rate repeat true use_dr) as [u1|e] eqn:H1;
      [|discriminate].
    destruct (JasperUnit.init _ c k eps rate repeat false use_dr) as [u2|e] eqn:H2;
      [|discriminate].
    cbn [mbind Res_bind]. apply IH; [lia| |].
    + apply Forall_app. split; [exact Hcins|]. constructor; [exact Hcin|constructor].
    + unfold DualPathSequential.add_module. apply Forall2_app; [exact Hf|].
      constructor; [|constructor]. cbn.
      refine (JasperUnit_init_width_le _ c k eps rate repeat use_dr u1 u2 _ Hc Hk H1 H2).
      destruct use_dr.
      * apply Forall_app. split; [exact Hcins|]. constructor; [exact Hcin|constructor].
      * constructor; [exact Hcin|constructor].
Qed.

Lemma py_index_first_take {A} (l : list A) (a : A) :
  py_index l 0 = Ok a → (2 ≤ length l)%nat → a ∈ take (length l - 1) l.
Proof.
  unfold py_index. rewrite bool_decide_eq_true_2 by lia. intros H Hl.
  destruct l as [|x l]; [discriminate|]. cbn in H. injection H as ->.
  cbn in Hl. replace (length (a :: l) - 1)%nat with (S (length l - 1)) by (cbn; lia).
  cbn. left.
Qed.

Lemma py_index_m2_take {A} (l : list A) (a : A) :
  py_index l (-2) = Ok a → a ∈ take (length l - 1) l.
Proof.
  unfold py_index. rewrite bool_decide_eq_false_2 by lia.
  case_bool_decide as Hl; [|discriminate].
  destruct (l !! Z.to_nat (Z.of_nat (length l) + -2)) as [x|] eqn:Hx; [|discriminate].
  intros [= ->]. apply (list_elem_of_lookup_2 _ (Z.to_nat (Z.of_nat (length l) + -2))).
  rewrite lookup_take_lt by lia. exact Hx.
Qed.

Lemma Forall_slice_of_take {A} (P : A → Prop) (l : list A) :
  Forall P (take (length l - 1) l) → Forall P (slice_1_m2 l).
Proof.
  intros H. unfold slice_1_m2. apply Forall_lookup. intros i x Hx.
  apply lookup_take_Some in Hx as [Hx Hi]. rewrite lookup_drop in Hx.
  rewrite Forall_lookup in H. apply (H (1 + i)%nat).
  rewrite lookup_take_lt by lia. exact Hx.
Qed.

Lemma Forall_zip_stages (P Q : Z → Prop) (l1 l2 : list Z) (l3 : list float) :
  Forall P l1 → Forall Q l2 → Forall (λ st, P st.1.1 ∧ Q st.1.2) (zip (zip l1 l2) l3).
Proof.
  intros H1. revert l2 l3. induction H1 as [|c l1 Hc _ IH]; intros l2 l3 H2; [constructor|].
  destruct H2 as [|k l2 Hk H2]; [constructor|]. destruct l3 as [|d l3]; [constructor|].
  cbn. constructor; [split; assumption|apply IH, H2].
Qed.

(** X13. Depthwise-separable blocks never cost parameters: of two models
    built by [Jasper] from the same arguments, with at least one input
    channel, at least two channels in every stage and a kernel size of at
    least 2 everywhere but in the last block, [_calc_width] counts no more
    parameters for the one with [use_dw = True]. *)
Theorem calc_width_use_dw (channels kernel_sizes : list Z) (eps : float)
    (rates : list float) (repeat : Z) (use_dr : bool) (cin ncls : Z) (n1 n2 : Jasper.t) :
  Jasper.init channels kernel_sizes eps rates repeat true use_dr cin ncls = Ok n1 →
  Jasper.init channels kernel_sizes eps rates repeat false use_dr cin ncls = Ok n2 →
  (1 ≤ cin)%Z → Forall (λ c, 2 ≤ c)%Z channels →
  Forall (λ k, 2 ≤ k)%Z (take (length kernel_sizes - 1) kernel_sizes) →
  (_calc_width n1 ≤ _calc_width n2)%Z.
Proof.
  intros Hn1 Hn2 Hcin Hch Hks.
  destruct (Jasper_init_lengths _ _ _ _ _ _ _ _ _ _ Hn1) as (_ & Hlk & _).
  revert Hn1 Hn2. unfold Jasper.init.
  destruct (py_index channels 0) as [c0|e] eqn:Hc0; [|discriminate]. cbn [mbind Res_bind].
  destruct (py_index kernel_sizes 0) as [k0|e] eqn:Hk0; [|discriminate].
  cbn [mbind Res_bind].
  destruct (py_index rates 0) as [d0|e]; [|discriminate]. cbn [mbind Res_bind].
  destruct (Block.init true _ _ _ _ _ _ _ _ _) as [b1|e] eqn:H1; [|discriminate].
  destruct (Block.init false _ _ _ _ _ _ _ _ _) as [b2|e] eqn:H2; [|discriminate].
  cbn [mbind Res_bind].
  destruct (Jasper.units_loop true _ _ _ _ _ _ _ _) as [[fs1 cu1]|e] eqn:Hu1; [|discriminate].
  destruct (Jasper.units_loop false _ _ _ _ _ _ _ _) as [[fs2 cu2]|e] eqn:Hu2; [|discriminate].
  cbn [mbind Res_bind].
  pose proof (proj1 (Forall_forall _ _) Hch c0 (py_index_elem _ _ _ Hc0)) as Hc0'.
  pose proof (proj1 (Forall_forall _ _) Hks k0 (py_index_first_take _ _ Hk0 Hlk)) as Hk0'.
  assert (Forall2 (λ m1 m2 : string * Jasper.feature,
                     (feature_width ∘ snd) m1 ≤ (feature_width ∘ snd) m2)%Z
            (DualPathSequential.add_module [] "init_block" (Jasper.FBlock b1))
            (DualPathSequential.add_module [] "init_block" (Jasper.FBlock b2))) as Hinit.
  { constructor; [|constructor]. cbn.
    exact (Block_init_width_le _ _ _ _ _ _ _ _ _ _ _ H1 H2 Hcin Hc0' Hk0'). }
  cbn beta in Hc0', Hk0'.
  assert (1 ≤ c0)%Z as Hc01 by lia.
  destruct (units_loop_width_le _ _ _ _ _ _ _ _ _ _ _ _ _ Hc01 (@List.Forall_nil _ _)
              (Forall_zip_stages _ _ _ _ _ (Forall_slice_1_m2 _ _ Hch)
                 (Forall_slice_of_take _ _ Hks)) Hinit Hu1 Hu2) as (<- & Hcu & Hfs).
  unfold JasperFinalBlock.init.
  destruct (py_index channels (-2)) as [c2|e] eqn:Hc2; [|discriminate]. cbn [mbind Res_bind].
  destruct (py_index kernel_sizes (-2)) as [k2|e] eqn:Hk2; [|discriminate].
  cbn [mbind Res_bind].
  destruct (py_index rates (-2)) as [d2|e]; [|discriminate]. cbn [mbind Res_bind].
  destruct (Block.init true cu1 _ _ _ _ _ _ _ _) as [fb1|e] eqn:Hf1; [|discriminate].
  destruct (Block.init false cu1 _ _ _ _ _ _ _ _) as [fb2|e] eqn:Hf2; [|discriminate].
  cbn [mbind Res_bind].
  destruct (py_index channels (-1)) as [cl|e]; [|discriminate]. cbn [mbind Res_bind].
  destruct (py_index kernel_sizes (-1)) as [k1|e]; [|discriminate]. cbn [mbind Res_bind].
  destruct (py_index rates (-1)) as [d1|e]; [|discriminate]. cbn [mbind Res_bind].
  destruct (MaskConvBlock1d.init _ _ _ _ _ _ _ _ _ _ _ _) as [cv2|e]; [|discriminate].
  cbn [mbind Res_bind].
  destruct (conv1d1 _ _ _ _ _) as [out|e]; [|discriminate]. cbn [mbind Res_bind].
  intros [= <-] [= <-]. unfold _calc_width. cbn [Jasper.features Jasper.output].
  unfold DualPathSequential.add_module. rewrite !fmap_app.
  pose proof (sumZ_le _ _ _ Hfs) as Hle.
  pose proof (proj1 (Forall_forall _ _) Hch c2 (py_index_elem _ _ _ Hc2)) as Hc2'.
  pose proof (proj1 (Forall_forall _ _) Hks k2 (py_index_m2_take _ _ Hk2)) as Hk2'.
  pose proof (Block_init_width_le _ _ _ _ _ _ _ _ _ _ _ Hf1 Hf2 Hcu Hc2' Hk2') as Hfb.
  assert (∀ l1 l2 : list Z, sumZ (l1 ++ l2) = sumZ l1 + sumZ l2)%Z as Happ.
  { unfold sumZ. induction l1 as [|z l1 IH]; intros l2; cbn [app foldr]; [lia|].
    rewrite IH. lia. }
  rewrite !Happ. unfold sumZ at 2 4.
  cbn [fmap list_fmap foldr compose snd feature_width JasperFinalBlock.conv1
       JasperFinalBlock.conv2].
  lia.
Qed.

Lemma calc_width_use_dw_witness :
  ∃ n1 n2 : Jasper.t,
    Jasper.init [4; 6; 8; 6; 10]%Z [3; 5; 7; 3; 1]%Z 1e-3 [0.2; 0.2; 0.3; 0.4; 0.4]%float
      2 true false 3 5 = Ok n1
    ∧ Jasper.init [4; 6; 8; 6; 10]%Z [3; 5; 7; 3; 1]%Z 1e-3 [0.2; 0.2; 0.3; 0.4; 0.4]%float
        2 false false 3 5 = Ok n2
    ∧ (_calc_width n1 ≤ _calc_width n2)%Z.
Proof.
  eexists. eexists. split; [vm_compute; reflexivity|]. split; [vm_compute; reflexivity|].
  refine (calc_width_use_dw [4; 6; 8; 6; 10]%Z [3; 5; 7; 3; 1]%Z 1e-3
            [0.2; 0.2; 0.3; 0.4; 0.4]%float 2 false 3 5 _ _ eq_refl eq_refl
            ltac:(lia) _ _).
  - repeat constructor; lia.
  - cbn. repeat constructor; lia.
Defined.

(** ** Padding and the whole model *)

Section PaddingThroughModel.
Context {V : Type}.
Variable zero : V.
Variable conv1d_v : Conv1d.t → Tensor.t V → Res (Tensor.t V).
Variable batch_norm_v : BatchNorm1d.t → Tensor.t V → Res (Tensor.t V).
Variable relu_v : ReLU.t → Tensor.t V → Tensor.t V.
Variable dropout_v : Dropout.t → Tensor.t V → Tensor.t V.
Variable add_v : Tensor.t V → Tensor.t V → Res (Tensor.t V).
Variable stack_sum_v : list (Tensor.t V) → Res (Tensor.t V).

#[local] Abbreviation ops :=
  (value_ops zero conv1d_v batch_norm_v relu_v dropout_v add_v stack_sum_v).

(** A block of either class masks its input before anything else. *)
Lemma Block_forward_agree (use_dw : bool) (cin cout k s p d : Z) (eps rate : float)
    (act : activation_t) (blk : Block.t) (x x' : Tensor.t V) (x_len : list Z)
    (B C T : nat) :
  Block.init use_dw cin cout k s p d eps rate act = Ok blk →
  Tensor.shape x = [B; C; T] → Tensor.shape x' = [B; C; T] →
  Tensor.wf x → Tensor.wf x' → length x_len = B →
  (∀ (b ch t : nat) (l : Z),
     x_len !! b = Some l → (ch < C)%nat → (t < T)%nat → (Z.of_nat t < l)%Z →
     Tensor.get x [b; ch; t] = Tensor.get x' [b; ch; t]) →
  Block.forward (H := ops) blk x (LTensor x_len)
  = Block.forward (H := ops) blk x' (LTensor x_len).
Proof.
  intros Hinit Hs Hs' Hwf Hwf' Hl Hagree. apply Block_init_inv in Hinit as ->.
  unfold block_of. destruct use_dw; cbn [Block.forward].
  - unfold DwsConvBlock1d.forward, dws_block_of. cbn [DwsConvBlock1d.dw_conv].
    rewrite (MaskConv1d_forward_value zero conv1d_v batch_norm_v relu_v dropout_v add_v
               stack_sum_v _ x x_len B C T Hs Hl).
    rewrite (MaskConv1d_forward_value zero conv1d_v batch_norm_v relu_v dropout_v add_v
               stack_sum_v _ x' x_len B C T Hs' Hl).
    rewrite (masked_data_agree zero x x' x_len B C T Hs Hs' Hwf Hwf' Hl Hagree).
    reflexivity.
  - unfold MaskConvBlock1d.forward, mask_block_of. cbn [MaskConvBlock1d.conv].
    rewrite (MaskConv1d_forward_value zero conv1d_v batch_norm_v relu_v dropout_v add_v
               stack_sum_v _ x x_len B C T Hs Hl).
    rewrite (MaskConv1d_forward_value zero conv1d_v batch_norm_v relu_v dropout_v add_v
               stack_sum_v _ x' x_len B C T Hs' Hl).
    rewrite (masked_data_agree zero x x' x_len B C T Hs Hs' Hwf Hwf' Hl Hagree).
    reflexivity.
Qed.

(** X14. Padding cannot influence the logits: a model built by [Jasper],
    with any flags, returns the same result for two batches of the same
    shape that agree at every position before the declared length of its
    sample, since the input reaches the model only through the masked
    convolution of the initial block. *)
Theorem Jasper_forward_ignores_padding (channels kernel_sizes : list Z) (eps : float)
    (rates : list float) (repeat : Z) (use_dw use_dr : bool) (cin ncls : Z) (net : Jasper.t)
    (x x' : Tensor.t V) (x_len : list Z) (B C T : nat) :
  Jasper.init channels kernel_sizes eps rates repeat use_dw use_dr cin ncls = Ok net →
  Tensor.shape x = [B; C; T] → Tensor.shape x' = [B; C; T] →
  Tensor.wf x → Tensor.wf x' → length x_len = B →
  (∀ (b ch t : nat) (l : Z),
     x_len !! b = Some l → (ch < C)%nat → (t < T)%nat → (Z.of_nat t < l)%Z →
     Tensor.get x [b; ch; t] = Tensor.get x' [b; ch; t]) →
  Jasper.forward (H := ops) net x (LTensor x_len)
  = Jasper.forward (H := ops) net x' (LTensor x_len).
Proof.
  intros Hinit Hs Hs' Hwf Hwf' Hl Hagree. revert Hinit. unfold Jasper.init.
  destruct (py_index channels 0) as [c0|e]; [|discriminate]. cbn [mbind Res_bind].
  destruct (py_index kernel_sizes 0) as [k0|e]; [|discriminate]. cbn [mbind Res_bind].
  destruct (py_index rates 0) as [d0|e]; [|discriminate]. cbn [mbind Res_bind].
  destruct (Block.init _ _ _ _ _ _ _ _ _ _) as [b0|e] eqn:Hb0; [|discriminate].
  cbn [mbind Res_bind].
  destruct (Jasper.units_loop _ _ _ _ _ _ _ _ _) as [[fs cu]|e] eqn:Hunits; [|discriminate].
  cbn [mbind Res_bind].
  destruct (JasperFinalBlock.init _ _ _ _ _ _ _) as [f|e]; [|discriminate].
  cbn [mbind Res_bind].
  destruct (py_index channels (-1)) as [cl|e]; [|discriminate]. cbn [mbind Res_bind].
  destruct (conv1d1 _ _ _ _ _) as [out|e]; [|discriminate]. cbn [mbind Res_bind].
  intros [= <-].
  apply units_loop_names in Hunits as (us & -> & _ & _).
  unfold Jasper.forward, DualPathSequential.add_module.
  cbn [Jasper.features app DualPathSequential.forward Jasper.feature_forward].
  rewrite (Block_forward_agree _ _ _ _ _ _ _ _ _ _ b0 x x' x_len B C T Hb0 Hs Hs' Hwf Hwf'
             Hl Hagree).
  reflexivity.
Qed.
End PaddingThroughModel.

Lemma Jasper_forward_ignores_padding_witness :
  let ops := value_ops 0%Z (λ _ x, Ok x) (λ _ x, Ok x) (λ _ x, x) (λ _ x, x)
               (λ x _, Ok x) (λ _, Raise RuntimeError) in
  ∃ net : Jasper.t,
    Jasper.init [4; 6; 8; 6; 10]%Z [3; 5; 7; 3; 1]%Z 1e-3 [0.2; 0.2; 0.3; 0.4; 0.4]%float
      2 false false 2 5 = Ok net
    ∧ Jasper.forward (H := ops) net
        (Tensor.mk [1; 2; 3]%nat [1; 2; 3; 4; 5; 6]%Z) (LTensor [2]%Z)
      = Jasper.forward (H := ops) net
          (Tensor.mk [1; 2; 3]%nat [1; 2; 70; 4; 5; 80]%Z) (LTensor [2]%Z).
Proof.
  intros ops. eexists. split; [vm_compute; reflexivity|].
  apply (Jasper_forward_ignores_padding 0%Z (λ _ x, Ok x) (λ _ x, Ok x) (λ _ x, x)
           (λ _ x, x) (λ x _, Ok x) (λ _, Raise RuntimeError)
           [4; 6; 8; 6; 10]%Z [3; 5; 7; 3; 1]%Z 1e-3 [0.2; 0.2; 0.3; 0.4; 0.4]%float
           2 false false 2 5 _
           (Tensor.mk [1; 2; 3]%nat [1; 2; 3; 4; 5; 6]%Z)
           (Tensor.mk [1; 2; 3]%nat [1; 2; 70; 4; 5; 80]%Z) [2]%Z 1 2 3
           eq_refl eq_refl eq_refl eq_refl eq_refl eq_refl).
  intros b ch t l Hb Hch Ht Hlt.
  destruct b as [|b]; [|destruct b; discriminate]. injection Hb as <-.
  destruct ch as [|[|ch]]; [| |lia]; (destruct t as [|[|t]]; [reflexivity|reflexivity|lia]).
Defined.

(** ** The assertions of _test *)

(** The mode of a model does not change its parameters. *)
Lemma mask_block_width_train (tr : bool) (b : MaskConvBlock1d.t) :
  mask_block_width (MaskConvBlock1d.train tr b) = mask_block_width b.
Proof. destruct b as [? ? ? ? [?|] ? ?]; reflexivity. Qed.

Lemma block_width_train (tr : bool) (b : Block.t) :
  block_width (Block.train tr b) = block_width b.
Proof.
  destruct b as [b|b]; [apply mask_block_width_train|].
  destruct b as [? ? ? ? ? ? ? [?|] ? ?]; reflexivity.
Qed.

Lemma width_train_list {M} (w : M → Z) (f : M → M) (l : list (string * M)) :
  (∀ m, w (f m) = w m) → w ∘ snd <$> (prod_map id f <$> l) = w ∘ snd <$> l.
Proof.
  intros Hw. rewrite <- list_fmap_compose. apply list_fmap_ext.
  intros _ [n m] _. cbn. apply Hw.
Qed.

Lemma unit_width_train (tr : bool) (u : JasperUnit.t) :
  unit_width (JasperUnit.train tr u) = unit_width u.
Proof.
  unfold unit_width, JasperUnit.train.
  cbn [JasperUnit.identity_block JasperUnit.body].
  unfold DualPathSequential.train, DualPathParallelConcurent.train.
  rewrite (width_train_list block_width (Block.train tr)) by apply block_width_train.
  destruct (JasperUnit.identity_block u) as [b|bs].
  - rewrite mask_block_width_train. reflexivity.
  - rewrite (width_train_list mask_block_width (MaskConvBlock1d.train tr))
      by apply mask_block_width_train.
    reflexivity.
Qed.

Lemma feature_width_train (tr : bool) (m : Jasper.feature) :
  feature_width (Jasper.feature_train tr m) = feature_width m.
Proof.
  destruct m as [b|u|f]; cbn [Jasper.feature_train feature_width].
  - apply block_width_train.
  - apply unit_width_train.
  - unfold JasperFinalBlock.train.
    cbn [JasperFinalBlock.conv1 JasperFinalBlock.conv2].
    rewrite block_width_train, mask_block_width_train. reflexivity.
Qed.

Lemma calc_width_train (tr : bool) (net : Jasper.t) :
  _calc_width (Jasper.train tr net) = _calc_width net.
Proof.
  unfold _calc_width, Jasper.train. cbn [Jasper.features Jasper.output].
  unfold DualPathSequential.train.
  rewrite (width_train_list feature_width (Jasper.feature_train tr))
    by apply feature_width_train.
  reflexivity.
Qed.

Lemma named_model_forward (download_model : Jasper.t → string → string → Res Jasper.t)
    (B R : N) (model_name : option string) (L : Z) :
  (Z.of_N B / 5 ≤ int64_max)%Z → (1 ≤ R)%N → (1 ≤ L < 2 ^ 62)%Z →
  ∃ net : Jasper.t,
    get_jasper download_model (version_string B R) 1e-3 model_name false default_root
      (mk_kwargs (Some 64%Z) (Some 29%Z)) = (Ok net, [])
    ∧ Jasper.forward (Jasper.eval net) [1; 64; L]%Z (LTensor [(L - 2)%Z])
      = Ok ([1; 29; halved L]%Z, LTensor [halved (L - 2)]).
Proof.
  intros HB HR HL.
  destruct (get_jasper_build_Ok B R 1e-3
              (default 64%Z (kw_in_channels (mk_kwargs (Some 64%Z) (Some 29%Z))))
              (default 29%Z (kw_num_classes (mk_kwargs (Some 64%Z) (Some 29%Z)))) HB)
    as (a & net & Ha & Hnet & Hdw & Hdr & Hr & Hk).
  exists net. split.
  - unfold get_jasper. rewrite Ha. cbn [mbind Res_bind]. rewrite Hnet. reflexivity.
  - rewrite Hdw, Hdr in Hnet. change (default 64%Z _) with 64%Z in Hnet.
    change (default 29%Z _) with 29%Z in Hnet.
    apply (Jasper_forward_exact false _ _ _ _ _ _ _ _ net 1 L [(L - 2)%Z] Hnet Hk);
      try lia.
    + left. reflexivity.
    + constructor; [|constructor]. unfold len_in_range. norm_pow2. lia.
Qed.

(** X15. The test of the file cannot fail on shapes: for each of
    [jasper5x3], [jasper10x4] and [jasper10x5], built for 64 audio features
    and 29 classes, and for every [seq_len] that [np.random.randint(60, 150)]
    can draw (indeed for every [seq_len] from 1 on), the parameter count is
    the asserted one and the logits have the asserted shape
    [(1, 29, seq_len // 2)] or [(1, 29, seq_len // 2 + 1)]. *)
Theorem test_assertions_hold (download_model : Jasper.t → string → string → Res Jasper.t)
    (model : named_model) (seq_len : Z) :
  (1 ≤ seq_len < 2 ^ 62)%Z →
  _test download_model model seq_len = Ok true.
Proof.
  intros HL.
  destruct (calc_width_named download_model default_root) as (W1 & W2 & W3).
  assert (∀ B R name,
            (Z.of_N B / 5 ≤ int64_max)%Z → (1 ≤ R)%N →
            ∀ w : Z,
            _calc_width <$>
              (get_jasper download_model (version_string B R) 1e-3 name false
                 default_root (mk_kwargs (Some 64%Z) (Some 29%Z))).1 = Ok w →
            ∃ net,
              (get_jasper download_model (version_string B R) 1e-3 name false
                 default_root (mk_kwargs (Some 64%Z) (Some 29%Z))).1 = Ok net
              ∧ _calc_width (Jasper.eval net) = w
              ∧ Jasper.forward (Jasper.eval net) [1; 64; seq_len]%Z
                  (LTensor [(seq_len - 2)%Z])
                = Ok ([1; 29; halved seq_len]%Z, LTensor [halved (seq_len - 2)])) as Hmodel.
  { intros B R name HB HR w Hw.
    destruct (named_model_forward download_model B R name seq_len HB HR HL)
      as (net & Hnet & Hfwd).
    exists net. rewrite Hnet in Hw |- *. cbn in Hw. injection Hw as Hw.
    unfold Jasper.eval at 1. rewrite calc_width_train. done. }
  assert (bool_decide (halved seq_len ∈ [(seq_len / 2)%Z; (seq_len / 2 + 1)%Z]) = true)
    as Hin.
  { apply bool_decide_eq_true_2. destruct (halved_length seq_len) as [H|H]; unfold halved;
      rewrite H; [left|right; left]. }
  unfold _test.
  destruct model; cbn [call_model]; unfold jasper5x3, jasper10x4, jasper10x5;
    [change (get_jasper download_model "5x3")
       with (get_jasper download_model (version_string 5 3))
    |change (get_jasper download_model "10x4")
       with (get_jasper download_model (version_string 10 4))
    |change (get_jasper download_model "10x5")
       with (get_jasper download_model (version_string 10 5))].
  - destruct (Hmodel 5%N 3%N (Some "jasper5x3") ltac:(vm_compute; discriminate) ltac:(lia)
                _ W1) as (net & -> & Hw & Hfwd).
    cbn [mbind Res_bind]. rewrite Hfwd.
    cbn [mbind Res_bind size shape_ops take]. rewrite Hw.
    change (py_index [1; 29; halved seq_len]%Z 2) with (Ok (halved seq_len) : Res Z).
    cbn [mbind Res_bind]. rewrite Hin. reflexivity.
  - destruct (Hmodel 10%N 4%N (Some "jasper10x4") ltac:(vm_compute; discriminate) ltac:(lia)
                _ W2) as (net & -> & Hw & Hfwd).
    cbn [mbind Res_bind]. rewrite Hfwd.
    cbn [mbind Res_bind size shape_ops take]. rewrite Hw.
    change (py_index [1; 29; halved seq_len]%Z 2) with (Ok (halved seq_len) : Res Z).
    cbn [mbind Res_bind]. rewrite Hin. reflexivity.
  - destruct (Hmodel 10%N 5%N (Some "jasper10x5") ltac:(vm_compute; discriminate) ltac:(lia)
                _ W3) as (net & -> & Hw & Hfwd).
    cbn [mbind Res_bind]. rewrite Hfwd.
    cbn [mbind Res_bind size shape_ops take]. rewrite Hw.
    change (py_index [1; 29; halved seq_len]%Z 2) with (Ok (halved seq_len) : Res Z).
    cbn [mbind Res_bind]. rewrite Hin. reflexivity.
Qed.

Lemma test_assertions_hold_witness :
  _test (λ net _ _, Ok net) Jasper10x4 149 = Ok true.
Proof.
  exact (test_assertions_hold (λ net _ _, Ok net) Jasper10x4 149
           ltac:(vm_compute; split; [discriminate|reflexivity])).
Defined.
